(** * pgncdb.inserts: the batch association writer

    A shallow embedding of [src/pgncdb/inserts.py] and the properties of
    its four inserters:

    - [add_gene_location], [add_gene_locus_type]: one batched
      insert-from-select ([cur.executemany]), then an audit of the
      association table when [cur.rowcount] differs from [len(data)];
    - [add_gene_name], [add_gene_symbol]: per triple, an insert into the
      dimension table returning its generated id, then the insert of the
      association; the same audit when the tally of [cur.rowcount]
      differs from [len(data)].

    The file has three layers.

    - [Section Inserters] is the Python code, written over an arbitrary
      DB-API cursor ([Cursor]): the cursor is an explicit state, the calls
      made on it are logged, exceptions are results.
    - [Module Pg] is a relational model of the store the SQL text is
      written for: the tables the statements name, and one function per
      SQL statement.
    - The theorems, first those that hold for every cursor, then those
      about the store. *)

From Stdlib Require Import List String Ascii ZArith Lia Bool DecimalString.
Import ListNotations.
Open Scope string_scope.
Open Scope list_scope.
Open Scope Z_scope.

(** ** Python strings *)

Infix "+++" := String.append (right associativity, at level 60).

Definition nl : string := String (ascii_of_nat 10) EmptyString.
Definition tab : string := String (ascii_of_nat 9) EmptyString.
Definition dquote : string := String (ascii_of_nat 34) EmptyString.

(** [sep.join(parts)] *)
Definition join (sep : string) (parts : list string) : string :=
  String.concat sep parts.

(** [str(n)] for an [int] *)
Definition str_int (n : Z) : string := NilZero.string_of_int (Z.to_int n).

(** The indentation of the triple-quoted literals: 12 columns in the two
    joined inserters, 16 inside the loops of the two others. *)
Definition indent12 : string := "            ".
Definition indent16 : string := "                ".

(** ** The DB-API surface the module uses *)

(** A row of a result set.  Every query of the module returns integer
    columns only: [(gene_id, dimension_id)] pairs or a generated [(id,)]. *)
Definition tuple : Type := list Z.

(** The exceptions a cursor call raises.  [UniqueViolation] is the class
    [psycopg2.errors.lookup('23505')]; [OtherPgError] is any other subclass
    of [psycopg2.Error]. *)
Inductive pg_error : Type :=
| UniqueViolation
| OtherPgError (sqlstate : string).

(** The SQL statements of the module, one constructor per statement text,
    carrying the parameters bound to its [%s] placeholders. *)
Inductive statement : Type :=
  (* insert into gene_has_location (gene_id, location_id, creator_id,
     editor_id, status) SELECT gene.id, location.id, 1, 1, 'internal'
     FROM gene, location, assembly_has_location
     WHERE gene.potri_id = %s AND location.name = %s AND
           assembly_has_location.assembly_id = 1 AND
           location.id = assembly_has_location.location_id *)
| InsertGeneHasLocation (potri_id location_name : string)
  (* SELECT gene_id, location_id FROM gene_has_location *)
| SelectGeneHasLocation
  (* SELECT gene.id, location.id FROM gene, location
     WHERE gene.potri_id = %s AND location.name = %s *)
| SelectGeneLocationIds (potri_id location_name : string)
  (* insert into gene_has_locus_type (gene_id, locus_type_id, creator_id,
     editor_id, status) SELECT gene.id, locus_type.id, 1, 1, 'internal'
     FROM gene, locus_type
     WHERE gene.potri_id = %s AND locus_type.name = %s *)
| InsertGeneHasLocusType (potri_id locus_type_name : string)
  (* SELECT gene_id, locus_type_id FROM gene_has_locus_type *)
| SelectGeneHasLocusType
  (* SELECT gene.id, locus_type.id FROM gene, locus_type
     WHERE gene.potri_id = %s AND locus_type.name = %s *)
| SelectGeneLocusTypeIds (potri_id locus_type_name : string)
  (* INSERT INTO name (name) VALUES (%s) RETURNING id *)
| InsertName (name : string)
  (* INSERT INTO gene_has_name (gene_id, name_id, type, creator_id,
     editor_id, status) SELECT gene.id, %s, %s, 1, 1, 'internal'
     FROM gene WHERE gene.potri_id = %s *)
| InsertGeneHasName (name_id : Z) (name_type potri_id : string)
  (* SELECT gene_id, name_id FROM gene_has_name *)
| SelectGeneHasName
  (* SELECT gene.id, name.id FROM gene, name
     WHERE gene.potri_id = %s AND name.name = %s *)
| SelectGeneNameIds (potri_id name : string)
  (* INSERT INTO symbol (symbol) VALUES (%s) RETURNING id *)
| InsertSymbol (symbol : string)
  (* INSERT INTO gene_has_symbol (gene_id, symbol_id, type, creator_id,
     editor_id, status) SELECT gene.id, %s, %s, 1, 1, 'internal'
     FROM gene WHERE gene.potri_id = %s *)
| InsertGeneHasSymbol (symbol_id : Z) (symbol_type potri_id : string)
  (* SELECT gene_id, symbol_id FROM gene_has_symbol *)
| SelectGeneHasSymbol
  (* SELECT gene.id, symbol.id FROM gene, symbol
     WHERE gene.potri_id = %s AND symbol.symbol = %s *)
| SelectGeneSymbolIds (potri_id symbol : string).

(** A call that sends SQL: [cur.execute(sql, params)] or
    [cur.executemany(sql, data)], the latter with one instance of the
    statement per element of [data]. *)
Inductive call : Type :=
| Execute (s : statement)
| Executemany (ss : list statement).

(** The audit's read queries. *)
Definition is_select (s : statement) : bool :=
  match s with
  | SelectGeneHasLocation | SelectGeneLocationIds _ _
  | SelectGeneHasLocusType | SelectGeneLocusTypeIds _ _
  | SelectGeneHasName | SelectGeneNameIds _ _
  | SelectGeneHasSymbol | SelectGeneSymbolIds _ _ => true
  | _ => false
  end.

Definition is_read (c : call) : bool :=
  match c with
  | Execute s => is_select s
  | Executemany ss => existsb is_select ss
  end.

(** [psycopg2.extensions.cursor], as far as the module uses it.  A cursor
    has a state; [execute] and [executemany] either raise or complete;
    [rowcount] is an attribute; the fetches consume the pending result. *)
Record Cursor : Type := {
  cursor_state : Type;
  cur_execute : statement -> cursor_state -> option pg_error * cursor_state;
  cur_executemany :
    list statement -> cursor_state -> option pg_error * cursor_state;
  cur_rowcount : cursor_state -> Z;
  cur_fetchone : cursor_state -> option tuple * cursor_state;
  cur_fetchall : cursor_state -> list tuple * cursor_state
}.

(** ** Python exceptions and the effects of a call *)

(** [raise X(msg) from e] keeps [e] as the cause. *)
Inductive exn : Type :=
| Psycopg2Error (e : pg_error)
| ValueError (msg : string) (cause : pg_error)
| RuntimeError (msg : string) (cause : option pg_error)
| TypeError
| IndexError.

Inductive result (A : Type) : Type :=
| Return (a : A)
| Raise (e : exn).
Arguments Return {A} a.
Arguments Raise {A} e.

(** [x not in s] for [x] the value of [cur.fetchone()]: [None] is in no set
    of rows.  Only membership is asked of [set(inserted_rows)], so the set
    is the list of rows itself. *)
Definition not_in (x : option tuple) (s : list tuple) : bool :=
  match x with
  | None => true
  | Some t => if in_dec (list_eq_dec Z.eq_dec) t s then false else true
  end.

Section Inserters.

Variable cur : Cursor.

(** What a call of an inserter can change or emit: the cursor, the SQL it
    sent (oldest first) and the messages passed to [logging.warning]. *)
Record world : Type := World {
  cstate : cursor_state cur;
  executed : list call;
  warnings : list string
}.

Definition M (A : Type) : Type := world -> result A * world.

Definition ret {A} (a : A) : M A := fun w => (Return a, w).
Definition raise {A} (e : exn) : M A := fun w => (Raise e, w).
Definition bind {A B} (m : M A) (k : A -> M B) : M B :=
  fun w => match m w with
           | (Return a, w') => k a w'
           | (Raise e, w') => (Raise e, w')
           end.

(** [try: m except ...: h e]: [h] decides per exception whether the clause
    matches; [None] lets the exception through. *)
Definition try_except {A} (m : M A) (h : exn -> option (M A)) : M A :=
  fun w => match m w with
           | (Return a, w') => (Return a, w')
           | (Raise e, w') =>
               match h e with
               | Some k => k w'
               | None => (Raise e, w')
               end
           end.

Notation "x <- m ;; k" := (bind m (fun x => k))
  (at level 61, m at next level, right associativity).
Notation "m ;; k" := (bind m (fun _ => k))
  (at level 61, right associativity).

(** [for x in xs: acc = body(acc, x)] *)
Fixpoint for_each {A B} (body : B -> A -> M B) (xs : list A) (acc : B)
  : M B :=
  match xs with
  | [] => ret acc
  | x :: xs' => acc' <- body acc x ;; for_each body xs' acc'
  end.

Definition execute (s : statement) : M unit :=
  fun w =>
    let (r, st) := cur_execute cur s (cstate w) in
    let w' := World st (executed w ++ [Execute s]) (warnings w) in
    match r with
    | None => (Return tt, w')
    | Some e => (Raise (Psycopg2Error e), w')
    end.

Definition executemany (ss : list statement) : M unit :=
  fun w =>
    let (r, st) := cur_executemany cur ss (cstate w) in
    let w' := World st (executed w ++ [Executemany ss]) (warnings w) in
    match r with
    | None => (Return tt, w')
    | Some e => (Raise (Psycopg2Error e), w')
    end.

Definition rowcount : M Z :=
  fun w => (Return (cur_rowcount cur (cstate w)), w).

Definition fetchone : M (option tuple) :=
  fun w =>
    let (r, st) := cur_fetchone cur (cstate w) in
    (Return r, World st (executed w) (warnings w)).

Definition fetchall : M (list tuple) :=
  fun w =>
    let (r, st) := cur_fetchall cur (cstate w) in
    (Return r, World st (executed w) (warnings w)).

Definition warning (msg : string) : M unit :=
  fun w => (Return tt, World (cstate w) (executed w) (warnings w ++ [msg])).

(** [row[0]] on the value of [cur.fetchone()] *)
Definition item0 (row : option tuple) : M Z :=
  match row with
  | None => raise TypeError
  | Some [] => raise IndexError
  | Some (x :: _) => ret x
  end.

(** [except psycopg2.errors.lookup('23505') as e: raise ValueError(msg) from e] *)
Definition except_unique {A} (msg : string) (e : exn) : option (M A) :=
  match e with
  | Psycopg2Error UniqueViolation => Some (raise (ValueError msg UniqueViolation))
  | _ => None
  end.

(** [except psycopg2.Error as e: raise RuntimeError(msg) from e] *)
Definition except_psycopg2 {A} (msg : string) (e : exn) : option (M A) :=
  match e with
  | Psycopg2Error pe => Some (raise (RuntimeError msg (Some pe)))
  | _ => None
  end.

(** The audit, which the four functions spell out statement for
    statement: read the association table, then per item one query
    resolving its natural keys and
    [if result not in inserted_set: unsuccessful_inserts.append(key)]. *)
Definition check_item {A} (query : A -> statement) (key : A -> string * string)
    (inserted_set : list tuple) (unsuccessful_inserts : list (string * string))
    (item : A) : M (list (string * string)) :=
  execute (query item) ;;
  result <- fetchone ;;
  if not_in result inserted_set
  then ret (unsuccessful_inserts ++ [key item])
  else ret unsuccessful_inserts.

Definition find_unsuccessful {A} (table : statement) (query : A -> statement)
    (key : A -> string * string) (data : list A) : M (list (string * string)) :=
  execute table ;;
  inserted_rows <- fetchall ;;
  let inserted_set := inserted_rows in
  for_each (check_item query key inserted_set) data [].

(** [f'({a}, {b})'] *)
Definition show_pair (k : string * string) : string :=
  "(" +++ fst k +++ ", " +++ snd k +++ ")".

(** *** add_gene_location *)

Definition location_exists_msg : string :=
  nl +++ indent12 +++
  "The combination of PotriID and Location already exists in the gene_has_location"
  +++ nl +++ indent12 +++ "table."
  +++ nl +++ indent12 +++ "See the exception above the ValueError for details."
  +++ nl +++ indent12.

Definition location_warning (unsuccessful_inserts : list (string * string))
  : string :=
  join nl [
    "The following rows were not inserted into the gene_has_location table:";
    join (nl +++ " ") (map show_pair unsuccessful_inserts) ].

Definition location_error_msg (affected_rows : Z) (len_data : nat) : string :=
  join " " [
    "Affected rows (" +++ str_int affected_rows
      +++ ") do not match the number of rows to insert";
    "(" +++ str_int (Z.of_nat len_data)
      +++ ") and yet no missing entries are found." ].

Definition location_inserts (data : list (string * string)) : list statement :=
  map (fun d => InsertGeneHasLocation (fst d) (snd d)) data.

Definition location_ids (d : string * string) : statement :=
  SelectGeneLocationIds (fst d) (snd d).

Definition add_gene_location (data : list (string * string)) : M unit :=
  try_except
    (executemany (location_inserts data))
    (except_unique location_exists_msg) ;;
  (* Check for successful insertion *)
  affected_rows <- rowcount ;;
  if affected_rows =? Z.of_nat (List.length data) then ret tt else
  (* Check for unsuccessful insertion *)
  unsuccessful_inserts <-
    find_unsuccessful SelectGeneHasLocation location_ids (fun d => d) data ;;
  match unsuccessful_inserts with
  | _ :: _ => warning (location_warning unsuccessful_inserts) ;; ret tt
  | [] =>
      raise (RuntimeError
               (location_error_msg affected_rows (List.length data)) None)
  end.

(** *** add_gene_locus_type *)

Definition locus_type_exists_msg : string :=
  nl +++ indent12 +++
  "The combination of PotriID and Locus Type already exists in the gene_has_locus_type"
  +++ nl +++ indent12 +++ "table."
  +++ nl +++ indent12 +++ "See the exception above the ValueError for details."
  +++ nl +++ indent12.

Definition locus_type_warning (unsuccessful_inserts : list (string * string))
  : string :=
  join nl [
    "The following rows were not inserted into the gene_has_locus_type table:";
    join nl (map show_pair unsuccessful_inserts) ].

Definition locus_type_error_msg : string :=
  join " " [
    "Affected rows do not match the number of rows to insert";
    "and yet no missing fields are found." ].

Definition locus_type_inserts (data : list (string * string))
  : list statement :=
  map (fun d => InsertGeneHasLocusType (fst d) (snd d)) data.

Definition locus_type_ids (d : string * string) : statement :=
  SelectGeneLocusTypeIds (fst d) (snd d).

Definition add_gene_locus_type (data : list (string * string)) : M unit :=
  try_except
    (executemany (locus_type_inserts data))
    (except_unique locus_type_exists_msg) ;;
  (* Check for successful insertion *)
  affected_rows <- rowcount ;;
  if affected_rows =? Z.of_nat (List.length data) then ret tt else
  (* Check for unsuccessful insertion *)
  unsuccessful_inserts <-
    find_unsuccessful SelectGeneHasLocusType locus_type_ids (fun d => d) data ;;
  match unsuccessful_inserts with
  | _ :: _ => warning (locus_type_warning unsuccessful_inserts) ;; ret tt
  | [] => raise (RuntimeError locus_type_error_msg None)
  end.

(** *** add_gene_name *)

(** The elements of [data] are [(potri_id, name, name_type)]. *)
Definition triple : Type := string * string * string.
Definition potri_of (t : triple) : string := fst (fst t).
Definition literal_of (t : triple) : string := snd (fst t).
Definition type_of (t : triple) : string := snd t.
Definition key_of (t : triple) : string * string := (potri_of t, literal_of t).

Definition name_exists_msg (name : string) : string :=
  nl +++ indent16 +++
  "The name " +++ dquote +++ name +++ dquote
  +++ " already exists in the name table."
  +++ nl +++ indent16 +++ "See the exception above the ValueError for details."
  +++ nl +++ indent16.

Definition link_error_msg (id : Z) (type potri_id : string) : string :=
  join nl [
    "Problem inserting into gene_has_name with the values:";
    tab +++ "Name ID: " +++ str_int id;
    tab +++ "Name type: " +++ type;
    tab +++ "POTRI ID:" +++ potri_id ].

Definition name_warning (unsuccessful_inserts : list (string * string))
  : string :=
  join nl [
    "The following rows were not inserted into the gene_has_name:";
    join (nl +++ " ") (map show_pair unsuccessful_inserts) ].

Definition type_difference_msg : string :=
  join " " [
    "Affected rows do not match the number of rows to insert";
    "and yet no missing fields are found. Poss. type difference?" ].

(** The first [try] of the loop body: the name row and its generated id. *)
Definition insert_name (name : string) : M Z :=
  try_except
    (execute (InsertName name) ;;
     row <- fetchone ;;
     item0 row)
    (except_unique (name_exists_msg name)).

(** The second [try] of the loop body: the association row;
    [cnt += cur.rowcount]. *)
Definition insert_gene_has_name (cnt name_id : Z) (name_type potri_id : string)
  : M Z :=
  try_except
    (execute (InsertGeneHasName name_id name_type potri_id) ;;
     n <- rowcount ;;
     ret (cnt + n))
    (except_psycopg2 (link_error_msg name_id name_type potri_id)).

Definition link_name (cnt : Z) (t : triple) : M Z :=
  name_id <- insert_name (literal_of t) ;;
  insert_gene_has_name cnt name_id (type_of t) (potri_of t).

Definition name_ids (t : triple) : statement :=
  SelectGeneNameIds (potri_of t) (literal_of t).

Definition add_gene_name (data : list triple) : M unit :=
  cnt <- for_each link_name data 0 ;;
  if negb (cnt =? Z.of_nat (List.length data)) then
    unsuccessful_inserts <-
      find_unsuccessful SelectGeneHasName name_ids key_of data ;;
    match unsuccessful_inserts with
    | _ :: _ => warning (name_warning unsuccessful_inserts) ;; ret tt
    | [] => raise (RuntimeError type_difference_msg None)
    end
  else ret tt.

(** *** add_gene_symbol *)

Definition symbol_warning (unsuccessful_inserts : list (string * string))
  : string :=
  join nl [
    "The following rows were not inserted into the database:";
    join (nl +++ " ") (map show_pair unsuccessful_inserts) ].

(** The two error messages of this loop are, word for word, those of
    [add_gene_name]. *)
Definition insert_symbol (symbol : string) : M Z :=
  try_except
    (execute (InsertSymbol symbol) ;;
     row <- fetchone ;;
     item0 row)
    (except_unique (name_exists_msg symbol)).

Definition insert_gene_has_symbol (cnt symbol_id : Z)
    (symbol_type potri_id : string) : M Z :=
  try_except
    (execute (InsertGeneHasSymbol symbol_id symbol_type potri_id) ;;
     n <- rowcount ;;
     ret (cnt + n))
    (except_psycopg2 (link_error_msg symbol_id symbol_type potri_id)).

Definition link_symbol (cnt : Z) (t : triple) : M Z :=
  symbol_id <- insert_symbol (literal_of t) ;;
  insert_gene_has_symbol cnt symbol_id (type_of t) (potri_of t).

Definition symbol_ids (t : triple) : statement :=
  SelectGeneSymbolIds (potri_of t) (literal_of t).

Definition add_gene_symbol (data : list triple) : M unit :=
  cnt <- for_each link_symbol data 0 ;;
  if negb (cnt =? Z.of_nat (List.length data)) then
    unsuccessful_inserts <-
      find_unsuccessful SelectGeneHasSymbol symbol_ids key_of data ;;
    match unsuccessful_inserts with
    | _ :: _ => warning (symbol_warning unsuccessful_inserts) ;; ret tt
    | [] => raise (RuntimeError type_difference_msg None)
    end
  else ret tt.

End Inserters.

Arguments World {cur} _ _ _.
Arguments cstate {cur} _.
Arguments executed {cur} _.
Arguments warnings {cur} _.

(** ** The relational store *)

(** The store one statement at a time: what each statement of the
    module reads and writes, and which statement the store rejects.  A
    rejected statement writes nothing.  What a rejected statement does to
    the transaction it belongs to is not said here but in [Tx], further
    down: [Pg] is the store as a transaction sees it until one of its
    statements is rejected. *)
Module Pg.

(** A row of one of the four association tables.  [type] is the
    classifier column of [gene_has_name] and [gene_has_symbol]; the two
    other tables have no such column. *)
Record assoc_row : Type := AssocRow {
  gene_id : Z;
  dim_id : Z;
  type : option string;
  creator_id : Z;
  editor_id : Z;
  status : string
}.

(** The tables the statements of the module name, with the columns they
    name.  [gene], [location], [locus_type], [name] and [symbol] rows are
    [(id, natural key)]; [assembly_has_location] rows are
    [(assembly_id, location_id)].  The two sequences generate the ids
    returned by [INSERT ... RETURNING id]. *)
Record database : Type := Database {
  gene : list (Z * string);
  location : list (Z * string);
  assembly_has_location : list (Z * Z);
  locus_type : list (Z * string);
  name : list (Z * string);
  name_id_seq : Z;
  symbol : list (Z * string);
  symbol_id_seq : Z;
  gene_has_location : list assoc_row;
  gene_has_locus_type : list assoc_row;
  gene_has_name : list assoc_row;
  gene_has_symbol : list assoc_row
}.

Inductive junction : Type :=
| GeneHasLocation | GeneHasLocusType | GeneHasName | GeneHasSymbol.

(** The two dimension tables the module inserts into. *)
Inductive literal_table : Type := NameTable | SymbolTable.

Definition junction_eq_dec (j j' : junction) : {j = j'} + {j <> j'}.
Proof. decide equality. Defined.

Definition literal_table_eq_dec (t t' : literal_table) : {t = t'} + {t <> t'}.
Proof. decide equality. Defined.

Definition rows_of (j : junction) (d : database) : list assoc_row :=
  match j with
  | GeneHasLocation => gene_has_location d
  | GeneHasLocusType => gene_has_locus_type d
  | GeneHasName => gene_has_name d
  | GeneHasSymbol => gene_has_symbol d
  end.

(** The dimension table whose ids the second column of a junction holds. *)
Definition dimension_of (j : junction) (d : database) : list (Z * string) :=
  match j with
  | GeneHasLocation => location d
  | GeneHasLocusType => locus_type d
  | GeneHasName => name d
  | GeneHasSymbol => symbol d
  end.

Definition set_rows (j : junction) (rows : list assoc_row) (d : database)
  : database :=
  match j with
  | GeneHasLocation =>
      Database (gene d) (location d) (assembly_has_location d) (locus_type d)
        (name d) (name_id_seq d) (symbol d) (symbol_id_seq d)
        rows (gene_has_locus_type d) (gene_has_name d) (gene_has_symbol d)
  | GeneHasLocusType =>
      Database (gene d) (location d) (assembly_has_location d) (locus_type d)
        (name d) (name_id_seq d) (symbol d) (symbol_id_seq d)
        (gene_has_location d) rows (gene_has_name d) (gene_has_symbol d)
  | GeneHasName =>
      Database (gene d) (location d) (assembly_has_location d) (locus_type d)
        (name d) (name_id_seq d) (symbol d) (symbol_id_seq d)
        (gene_has_location d) (gene_has_locus_type d) rows (gene_has_symbol d)
  | GeneHasSymbol =>
      Database (gene d) (location d) (assembly_has_location d) (locus_type d)
        (name d) (name_id_seq d) (symbol d) (symbol_id_seq d)
        (gene_has_location d) (gene_has_locus_type d) (gene_has_name d) rows
  end.

Definition literals (t : literal_table) (d : database) : list (Z * string) :=
  match t with NameTable => name d | SymbolTable => symbol d end.

Definition id_seq (t : literal_table) (d : database) : Z :=
  match t with NameTable => name_id_seq d | SymbolTable => symbol_id_seq d end.

Definition junction_of (t : literal_table) : junction :=
  match t with NameTable => GeneHasName | SymbolTable => GeneHasSymbol end.

(** Appends the row [(nextval, v)] and advances the sequence. *)
Definition add_literal (t : literal_table) (v : string) (d : database)
  : database :=
  match t with
  | NameTable =>
      Database (gene d) (location d) (assembly_has_location d) (locus_type d)
        (name d ++ [(name_id_seq d, v)]) (name_id_seq d + 1)
        (symbol d) (symbol_id_seq d)
        (gene_has_location d) (gene_has_locus_type d) (gene_has_name d)
        (gene_has_symbol d)
  | SymbolTable =>
      Database (gene d) (location d) (assembly_has_location d) (locus_type d)
        (name d) (name_id_seq d)
        (symbol d ++ [(symbol_id_seq d, v)]) (symbol_id_seq d + 1)
        (gene_has_location d) (gene_has_locus_type d) (gene_has_name d)
        (gene_has_symbol d)
  end.

(** *** The SELECT parts *)

(** [SELECT gene.id, location.id, 1, 1, 'internal'
     FROM gene, location, assembly_has_location
     WHERE gene.potri_id = %s AND location.name = %s AND
           assembly_has_location.assembly_id = 1 AND
           location.id = assembly_has_location.location_id] *)
Definition location_links (d : database) (potri_id location_name : string)
  : list assoc_row :=
  flat_map (fun g =>
    flat_map (fun l =>
      flat_map (fun a =>
        if (snd g =? potri_id)%string && (snd l =? location_name)%string
           && (fst a =? 1) && (fst l =? snd a)
        then [AssocRow (fst g) (fst l) None 1 1 "internal"]
        else [])
      (assembly_has_location d))
    (location d))
  (gene d).

(** [SELECT gene.id, locus_type.id, 1, 1, 'internal'
     FROM gene, locus_type
     WHERE gene.potri_id = %s AND locus_type.name = %s] *)
Definition locus_type_links (d : database) (potri_id locus_type_name : string)
  : list assoc_row :=
  flat_map (fun g =>
    flat_map (fun l =>
      if (snd g =? potri_id)%string && (snd l =? locus_type_name)%string
      then [AssocRow (fst g) (fst l) None 1 1 "internal"]
      else [])
    (locus_type d))
  (gene d).

(** [SELECT gene.id, %s, %s, 1, 1, 'internal'
     FROM gene WHERE gene.potri_id = %s], the source of the rows of
    [gene_has_name] and of [gene_has_symbol]. *)
Definition literal_links (d : database) (id : Z) (type potri_id : string)
  : list assoc_row :=
  flat_map (fun g =>
    if (snd g =? potri_id)%string
    then [AssocRow (fst g) id (Some type) 1 1 "internal"]
    else [])
  (gene d).

(** [SELECT gene.id, x.id FROM gene, x WHERE gene.potri_id = %s AND
    x.<key> = %s], the audit's resolution of an item, [x] being
    [location], [locus_type], [name] or [symbol]. *)
Definition resolve_ids (genes dims : list (Z * string)) (potri_id key : string)
  : list tuple :=
  flat_map (fun g =>
    flat_map (fun x =>
      if (snd g =? potri_id)%string && (snd x =? key)%string
      then [[fst g; fst x]]
      else [])
    dims)
  genes.

(** [SELECT gene_id, <dimension>_id FROM <junction>] *)
Definition persisted (j : junction) (d : database) : list tuple :=
  map (fun r => [gene_id r; dim_id r]) (rows_of j d).

(** *** Constraints *)

Definition has_pair (g x : Z) (rows : list assoc_row) : bool :=
  existsb (fun r => (gene_id r =? g) && (dim_id r =? x)) rows.

(** Modelled from the spec: the schema (DDL) of the store is not part of
    the repository.  Section 3 of the specification gives the constraint:
    in each association table the pair (gene, dimension row) is unique,
    and a second row with the same pair is a uniqueness violation (23505),
    not an update.  The rows of one statement are inserted one after the
    other; the statement inserts all of them or, on a violation, none. *)
Fixpoint insert_rows (table rows : list assoc_row) : option (list assoc_row) :=
  match rows with
  | [] => Some table
  | r :: rows' =>
      if has_pair (gene_id r) (dim_id r) table then None
      else insert_rows (table ++ [r]) rows'
  end.

(** Modelled from the spec: the schema (DDL) of the store is not part of
    the repository.  Section 3 of the specification: each literal value of
    [name] and of [symbol] is globally unique; a second row with the same
    value is a uniqueness violation. *)
Definition has_literal (v : string) (rows : list (Z * string)) : bool :=
  existsb (fun r => (snd r =? v)%string) rows.

(** *** The cursor *)

Record state : Type := State {
  db : database;
  last_rowcount : Z;
  pending : list tuple
}.

(** An insert-from-select into junction [j].  A rejected statement writes
    none of its rows; for the transaction, see [Tx]. *)
Definition insert_select (j : junction) (rows : list assoc_row) (s : state)
  : option pg_error * state :=
  match insert_rows (rows_of j (db s)) rows with
  | None => (Some UniqueViolation, s)
  | Some table' =>
      (None, State (set_rows j table' (db s)) (Z.of_nat (List.length rows)) [])
  end.

(** [INSERT INTO t (..) VALUES (%s) RETURNING id]: the new row takes the
    next value of the sequence of [t], which is also the one row of the
    result.  A rejected insert writes no row; for the value it has
    drawn from the sequence, and for the transaction, see [Tx]. *)
Definition insert_returning (t : literal_table) (v : string) (s : state)
  : option pg_error * state :=
  if has_literal v (literals t (db s)) then (Some UniqueViolation, s)
  else (None, State (add_literal t v (db s)) 1 [[id_seq t (db s)]]).

Definition select (rows : list tuple) (s : state) : option pg_error * state :=
  (None, State (db s) (Z.of_nat (List.length rows)) rows).

Definition exec (q : statement) (s : state) : option pg_error * state :=
  let d := db s in
  match q with
  | InsertGeneHasLocation p l =>
      insert_select GeneHasLocation (location_links d p l) s
  | SelectGeneHasLocation => select (persisted GeneHasLocation d) s
  | SelectGeneLocationIds p l => select (resolve_ids (gene d) (location d) p l) s
  | InsertGeneHasLocusType p l =>
      insert_select GeneHasLocusType (locus_type_links d p l) s
  | SelectGeneHasLocusType => select (persisted GeneHasLocusType d) s
  | SelectGeneLocusTypeIds p l =>
      select (resolve_ids (gene d) (locus_type d) p l) s
  | InsertName v => insert_returning NameTable v s
  | InsertGeneHasName id ty p =>
      insert_select GeneHasName (literal_links d id ty p) s
  | SelectGeneHasName => select (persisted GeneHasName d) s
  | SelectGeneNameIds p v => select (resolve_ids (gene d) (name d) p v) s
  | InsertSymbol v => insert_returning SymbolTable v s
  | InsertGeneHasSymbol id ty p =>
      insert_select GeneHasSymbol (literal_links d id ty p) s
  | SelectGeneHasSymbol => select (persisted GeneHasSymbol d) s
  | SelectGeneSymbolIds p v => select (resolve_ids (gene d) (symbol d) p v) s
  end.

(** [cur.executemany] of psycopg2 executes the statement once per
    parameter tuple, stops at the first error, and leaves in [rowcount]
    the sum of the counts of the executions. *)
Fixpoint exec_many (qs : list statement) (total : Z) (s : state)
  : option pg_error * state :=
  match qs with
  | [] => (None, State (db s) total [])
  | q :: qs' =>
      match exec q s with
      | (Some e, s') => (Some e, s')
      | (None, s') => exec_many qs' (total + last_rowcount s') s'
      end
  end.

Definition fetch_one (s : state) : option tuple * state :=
  match pending s with
  | [] => (None, s)
  | r :: rest => (Some r, State (db s) (last_rowcount s) rest)
  end.

Definition fetch_all (s : state) : list tuple * state :=
  (pending s, State (db s) (last_rowcount s) []).

Definition cursor : Cursor := {|
  cursor_state := state;
  cur_execute := exec;
  cur_executemany := fun qs => exec_many qs 0;
  cur_rowcount := last_rowcount;
  cur_fetchone := fetch_one;
  cur_fetchall := fetch_all
|}.

(** A fresh cursor on database [d], nothing sent, nothing logged. *)
Definition connect (d : database) : world cursor :=
  World (cur := cursor) (State d (-1) []) [] [].

End Pg.

(** ** A scripted cursor *)

(** A cursor in the manner of the [MagicMock(spec=cursor)] of
    [tests/test_inserts.py]: [execute] raises what [side_effect] says,
    [rowcount] and the value of the fetches are fixed attributes. *)
Module Mock.

Definition cursor (side_effect : statement -> option pg_error)
    (count : Z) (row : tuple) : Cursor := {|
  cursor_state := unit;
  cur_execute := fun q s => (side_effect q, s);
  cur_executemany := fun qs s => (None, s);
  cur_rowcount := fun _ => count;
  cur_fetchone := fun s => (Some row, s);
  cur_fetchall := fun s => ([row], s)
|}.

Definition start (side_effect : statement -> option pg_error)
    (count : Z) (row : tuple) : world (cursor side_effect count row) :=
  World (cur := cursor side_effect count row) tt [] [].

(** [cur.execute.side_effect = e] on the association writes only. *)
Definition on_link_write (e : pg_error) (q : statement) : option pg_error :=
  match q with
  | InsertGeneHasName _ _ _ | InsertGeneHasSymbol _ _ _ => Some e
  | _ => None
  end.

End Mock.

(** ** Notions used by the statements *)

(** The world once [cur.executemany(sql, data)] has completed, leaving the
    cursor in state [st]. *)
Definition after_batch {cur : Cursor} (w : world cur) (qs : list statement)
    (st : cursor_state cur) : world cur :=
  World st (executed w ++ [Executemany qs]) (warnings w).

(** The world with one more message passed to [logging.warning]. *)
Definition warned {cur : Cursor} (w : world cur) (msg : string) : world cur :=
  World (cstate w) (executed w) (warnings w ++ [msg]).

(** A computation that sends no read query and logs no warning. *)
Definition write_only {cur : Cursor} {A} (m : M cur A) : Prop :=
  forall w r w', m w = (r, w') ->
    warnings w' = warnings w /\
    exists sent, executed w' = executed w ++ sent /\
                 forallb (fun c => negb (is_read c)) sent = true.

(** A computation all of whose runs relate the world before to the world
    after by [R]. *)
Definition respects {cur : Cursor} {A} (R : world cur -> world cur -> Prop)
    (m : M cur A) : Prop :=
  forall w r w', m w = (r, w') -> R w w'.

(** The database under a world of the store's cursor. *)
Definition db_of (w : world Pg.cursor) : Pg.database := Pg.db (cstate w).

(** [T] between the databases under two worlds. *)
Definition on_db (T : Pg.database -> Pg.database -> Prop)
    (w w' : world Pg.cursor) : Prop :=
  T (db_of w) (db_of w').

(** The provenance columns hold the constants of the SQL text. *)
Definition fixed_provenance (r : Pg.assoc_row) : Prop :=
  Pg.creator_id r = 1 /\ Pg.editor_id r = 1 /\ Pg.status r = "internal".

(** Every association row of [d'] is a row of [d] or has the fixed
    provenance. *)
Definition new_rows_fixed (d d' : Pg.database) : Prop :=
  forall j r, In r (Pg.rows_of j d') ->
    In r (Pg.rows_of j d) \/ fixed_provenance r.

(** [d'] is [d] with rows added to the association tables and to [name]
    and [symbol]: nothing is removed, and the tables the module only
    reads are the same. *)
Definition extends (d d' : Pg.database) : Prop :=
  Pg.gene d' = Pg.gene d /\
  Pg.location d' = Pg.location d /\
  Pg.assembly_has_location d' = Pg.assembly_has_location d /\
  Pg.locus_type d' = Pg.locus_type d /\
  (forall j, incl (Pg.rows_of j d) (Pg.rows_of j d')) /\
  (forall t, incl (Pg.literals t d) (Pg.literals t d')).

(** The rows statement [q] would insert into its association table
    include one whose pair the table already has. *)
Definition conflicts (q : statement) (d : Pg.database) : Prop :=
  match q with
  | InsertGeneHasLocation p l =>
      exists r, In r (Pg.location_links d p l) /\
        Pg.has_pair (Pg.gene_id r) (Pg.dim_id r) (Pg.gene_has_location d) = true
  | InsertGeneHasLocusType p l =>
      exists r, In r (Pg.locus_type_links d p l) /\
        Pg.has_pair (Pg.gene_id r) (Pg.dim_id r) (Pg.gene_has_locus_type d)
          = true
  | _ => False
  end.

(** A database in which gene [P1] and location [LocA] are linked, and
    [LocA] belongs to assembly 2 only. *)
Definition other_assembly_db : Pg.database :=
  Pg.Database [(1, "P1")] [(7, "LocA")] [(2, 7)] [] [] 1 [] 1
    [Pg.AssocRow 1 7 None 1 1 "internal"] [] [] [].

(** What the two steps of one triple come to on the store, [tbl] being
    [name] or [symbol] and [ins], [lnk] the two statements of the loop
    body: the closed form of [link_name] and [link_symbol] there (lemmas
    [link_name_on_store] and [link_symbol_on_store]). *)
Definition store_link (tbl : Pg.literal_table) (ins : string -> statement)
    (lnk : Z -> string -> string -> statement) (cnt : Z) (x : triple)
  : M Pg.cursor Z :=
  fun w =>
    let d := db_of w in
    let v := literal_of x in
    let sent1 := executed w ++ [Execute (ins v)] in
    if Pg.has_literal v (Pg.literals tbl d)
    then (Raise (ValueError (name_exists_msg v) UniqueViolation),
          World (cstate w) sent1 (warnings w))
    else
      let id := Pg.id_seq tbl d in
      let d1 := Pg.add_literal tbl v d in
      let rows := Pg.literal_links d1 id (type_of x) (potri_of x) in
      let sent2 := sent1 ++ [Execute (lnk id (type_of x) (potri_of x))] in
      match Pg.insert_rows (Pg.rows_of (Pg.junction_of tbl) d1) rows with
      | None =>
          (Raise (RuntimeError (link_error_msg id (type_of x) (potri_of x))
                               (Some UniqueViolation)),
           World (cur := Pg.cursor) (Pg.State d1 1 []) sent2 (warnings w))
      | Some table' =>
          (Return (cnt + Z.of_nat (List.length rows)),
           World (cur := Pg.cursor)
             (Pg.State (Pg.set_rows (Pg.junction_of tbl) table' d1)
                       (Z.of_nat (List.length rows)) [])
             sent2 (warnings w))
      end.

(** The natural keys of a table identify its rows. *)
Definition unique_keys (rows : list (Z * string)) : Prop :=
  NoDup (map snd rows).

(** The natural keys [k] resolve to a persisted association pair of
    junction [j]: a gene row with the gene key and a dimension row with
    the dimension key exist whose ids are linked in the table of [j]. *)
Definition linked (j : Pg.junction) (d : Pg.database) (k : string * string)
  : Prop :=
  exists g x,
    In (g, fst k) (Pg.gene d) /\ In (x, snd k) (Pg.dimension_of j d) /\
    Pg.has_pair g x (Pg.rows_of j d) = true.

Definition linkedb (j : Pg.junction) (d : Pg.database) (k : string * string)
  : bool :=
  existsb (fun g =>
    existsb (fun x =>
      (snd g =? fst k)%string && (snd x =? snd k)%string
      && Pg.has_pair (fst g) (fst x) (Pg.rows_of j d))
    (Pg.dimension_of j d))
  (Pg.gene d).

(** The test of the audit on the store: the first row of the item's
    resolution is not among the persisted pairs. *)
Definition unresolved (genes dims : list (Z * string)) (set : list tuple)
    (k : string * string) : bool :=
  not_in (hd_error (Pg.resolve_ids genes dims (fst k) (snd k))) set.

(** The keys among [keys] that do not resolve to a persisted pair, in
    the order of [keys]. *)
Definition unlinked (j : Pg.junction) (d : Pg.database)
    (keys : list (string * string)) : list (string * string) :=
  filter (fun k => negb (linkedb j d k)) keys.

(** Between [d] and [d'] the sequence of [tbl] has only advanced, and
    what is new in [tbl] or in its association table carries an id
    generated in between. *)
Definition generated_between (tbl : Pg.literal_table) (d d' : Pg.database)
  : Prop :=
  Pg.id_seq tbl d <= Pg.id_seq tbl d' /\
  (forall r, In r (Pg.rows_of (Pg.junction_of tbl) d') ->
     In r (Pg.rows_of (Pg.junction_of tbl) d) \/
     Pg.id_seq tbl d <= Pg.dim_id r < Pg.id_seq tbl d') /\
  (forall id v, In (id, v) (Pg.literals tbl d') ->
     In (id, v) (Pg.literals tbl d) \/
     Pg.id_seq tbl d <= id < Pg.id_seq tbl d').

(** The pairs the write of a gene-location item inserts, and the pair its
    audit looks for. *)
Definition written_location_pairs (d : Pg.database) (potri_id name : string)
  : list tuple :=
  map (fun r => [Pg.gene_id r; Pg.dim_id r]) (Pg.location_links d potri_id name).

Definition audited_location_pairs (d : Pg.database) (potri_id name : string)
  : list tuple :=
  Pg.resolve_ids (Pg.gene d) (Pg.location d) potri_id name.

Definition written_locus_type_pairs (d : Pg.database)
    (potri_id name : string) : list tuple :=
  map (fun r => [Pg.gene_id r; Pg.dim_id r])
      (Pg.locus_type_links d potri_id name).

Definition audited_locus_type_pairs (d : Pg.database)
    (potri_id name : string) : list tuple :=
  Pg.resolve_ids (Pg.gene d) (Pg.locus_type d) potri_id name.

(** ** Example stores and inputs *)

(** Two genes, two locations of assembly 1, one locus type, and one name
    and one symbol already in their tables. *)
Definition example_db : Pg.database :=
  Pg.Database
    [(1, "P1"); (2, "P2")]
    [(7, "LocA"); (8, "LocB")]
    [(1, 7); (1, 8)]
    [(3, "protein-coding")]
    [(1, "cytochrome P450")] 2
    [(1, "CYP706B3")] 2
    [] [] [] [].

(** [example_db] with gene [P1] already linked to [LocA] and to
    [protein-coding]. *)
Definition linked_db : Pg.database :=
  Pg.Database
    [(1, "P1"); (2, "P2")]
    [(7, "LocA"); (8, "LocB")]
    [(1, 7); (1, 8)]
    [(3, "protein-coding")]
    [(1, "cytochrome P450")] 2
    [(1, "CYP706B3")] 2
    [Pg.AssocRow 1 7 None 1 1 "internal"]
    [Pg.AssocRow 1 3 None 1 1 "internal"]
    [] [].

Definition known_locations : list (string * string) :=
  [("P1", "LocA"); ("P2", "LocB")].

(** [P9] is the key of no gene. *)
Definition some_unknown_locations : list (string * string) :=
  [("P1", "LocA"); ("P9", "LocB")].

Definition known_locus_types : list (string * string) :=
  [("P1", "protein-coding"); ("P2", "protein-coding")].

Definition some_unknown_locus_types : list (string * string) :=
  [("P1", "protein-coding"); ("P9", "protein-coding")].

Definition new_names : list triple :=
  [("P1", "kinase", "approved"); ("P2", "ligase", "alias")].

Definition some_unknown_names : list triple :=
  [("P1", "kinase", "approved"); ("P9", "ligase", "alias")].

Definition new_symbols : list triple :=
  [("P1", "KIN1", "approved"); ("P2", "LIG1", "alias")].

Definition some_unknown_symbols : list triple :=
  [("P1", "KIN1", "approved"); ("P9", "LIG1", "alias")].

(** A cursor whose association writes fail with [22P02]
    (invalid text representation). *)
Definition malformed : pg_error := OtherPgError "22P02".

(** The outcomes of a statement on the store: a uniqueness violation that
    leaves the state as it was, a result set, rows of fixed provenance
    appended to one association table, or a row appended to [name] or
    [symbol]. *)
Inductive exec_shape (s : Pg.state) : option pg_error -> Pg.state -> Prop :=
| shape_failed : exec_shape s (Some UniqueViolation) s
| shape_selected rows :
    exec_shape s None (Pg.State (Pg.db s) (Z.of_nat (List.length rows)) rows)
| shape_linked j rows :
    Pg.insert_rows (Pg.rows_of j (Pg.db s)) rows <> None ->
    Forall fixed_provenance rows ->
    exec_shape s None
      (Pg.State (Pg.set_rows j (Pg.rows_of j (Pg.db s) ++ rows) (Pg.db s))
                (Z.of_nat (List.length rows)) [])
| shape_created t v :
    Pg.has_literal v (Pg.literals t (Pg.db s)) = false ->
    exec_shape s None
      (Pg.State (Pg.add_literal t v (Pg.db s)) 1 [[Pg.id_seq t (Pg.db s)]]).

(** Scenario C of the specification: three location pairs, the gene of
    the second unknown. *)
Definition scenario_c : list (string * string) :=
  [("P1", "LocA"); ("P9", "LocB"); ("P2", "LocB")].

(** [s] occurs in [t]: [s in t] of Python. *)
Definition occurs (s t : string) : Prop := exists a b, t = a +++ s +++ b.

(** ** Further notions *)

(** A cursor whose every [execute] and [executemany] raises [e], as with
    [cur.execute.side_effect = e] and [cur.executemany.side_effect = e]. *)
Module Broken.

Definition cursor (e : pg_error) : Cursor := {|
  cursor_state := unit;
  cur_execute := fun q s => (Some e, s);
  cur_executemany := fun qs s => (Some e, s);
  cur_rowcount := fun _ => (-1);
  cur_fetchone := fun s => (None, s);
  cur_fetchall := fun s => ([], s)
|}.

Definition start (e : pg_error) : world (cursor e) :=
  World (cur := cursor e) tt [] [].

End Broken.

(** What a call may do to the log of warnings: leave it as it was when it
    raises, and add at most one message when it returns. *)
Definition warning_discipline {cur : Cursor} (w : world cur)
    (out : result unit * world cur) : Prop :=
  match fst out with
  | Raise _ => warnings (snd out) = warnings w
  | Return _ =>
      warnings (snd out) = warnings w \/
      exists msg, warnings (snd out) = warnings w ++ [msg]
  end.

(** The read queries of the cursor never raise. *)
Definition reads_succeed (cur : Cursor) : Prop :=
  forall q st, is_select q = true -> fst (cur_execute cur q st) = None.

(** The association table and the SELECT part of the two batched
    inserts. *)
Definition batch_of (q : statement)
  : option (Pg.junction * (Pg.database -> list Pg.assoc_row)) :=
  match q with
  | InsertGeneHasLocation p l =>
      Some (Pg.GeneHasLocation, fun d => Pg.location_links d p l)
  | InsertGeneHasLocusType p l =>
      Some (Pg.GeneHasLocusType, fun d => Pg.locus_type_links d p l)
  | _ => None
  end.

(** The database the batched write of [add_gene_location] leaves. *)
Definition after_location_write (data : list (string * string))
    (w : world Pg.cursor) : Pg.database :=
  Pg.db (snd (Pg.exec_many (location_inserts data) 0 (cstate w))).

Definition after_locus_type_write (data : list (string * string))
    (w : world Pg.cursor) : Pg.database :=
  Pg.db (snd (Pg.exec_many (locus_type_inserts data) 0 (cstate w))).

(** The association row of gene [g] and dimension row [x] as the two
    batched inserts write it. *)
Definition plain_link (g x : Z) : Pg.assoc_row :=
  Pg.AssocRow g x None 1 1 "internal".

(** The association row of gene [g] and name or symbol [x] under the
    classifier [type]. *)
Definition typed_link (g x : Z) (type : string) : Pg.assoc_row :=
  Pg.AssocRow g x (Some type) 1 1 "internal".

(** The rows a completed loop adds to [name] or [symbol]: the literals
    of the triples, numbered from the value [next] of the sequence. *)
Fixpoint numbered (next : Z) (data : list triple) : list (Z * string) :=
  match data with
  | [] => []
  | t :: rest => (next, literal_of t) :: numbered (next + 1) rest
  end.

(** The rows a completed loop adds to the association table: for each
    triple, in order, the links of the genes with its key to its id. *)
Fixpoint links_of (d : Pg.database) (next : Z) (data : list triple)
  : list Pg.assoc_row :=
  match data with
  | [] => []
  | t :: rest =>
      Pg.literal_links d next (type_of t) (potri_of t)
      ++ links_of d (next + 1) rest
  end.

(** The ids of a table identify its rows. *)
Definition unique_ids (rows : list (Z * string)) : Prop :=
  NoDup (map fst rows).

(** [d'] differs from [d] at most in the association table [j] and,
    for [t = Some tbl], in the rows and the sequence of [tbl]. *)
Definition changed_within (j : Pg.junction) (t : option Pg.literal_table)
    (d d' : Pg.database) : Prop :=
  Pg.gene d' = Pg.gene d /\
  Pg.location d' = Pg.location d /\
  Pg.assembly_has_location d' = Pg.assembly_has_location d /\
  Pg.locus_type d' = Pg.locus_type d /\
  (forall j', j' <> j -> Pg.rows_of j' d' = Pg.rows_of j' d) /\
  (forall t', Some t' <> t ->
     Pg.literals t' d' = Pg.literals t' d /\ Pg.id_seq t' d' = Pg.id_seq t' d).

(** ** The transaction of the connection *)

(** [get_tunnel_db_connection] opens the connection with
    [psycopg2.connect] and leaves [autocommit] off, and [main] takes one
    cursor and commits once, after [process_df]: the statements of a run
    belong to one transaction.  PostgreSQL fails the transaction at the
    first statement it rejects: every later statement is refused with
    SQLSTATE 25P02 until the transaction ends, and what the transaction
    has written is discarded with it.  The values drawn from a sequence
    are not given back, the one drawn by a rejected
    [INSERT .. RETURNING id] included.  After a rejected statement
    [cur.rowcount] is -1.  Until a statement is rejected, the transaction
    sees the store as [Pg] has it. *)
Module Tx.

Record state : Type := State {
  committed : Pg.database;
  live : Pg.state;
  failed : bool
}.

Definition in_failed_transaction : pg_error := OtherPgError "25P02".

(** The database as the transaction has it. *)
Definition db (s : state) : Pg.database := Pg.db (live s).

(** The sequences of [name] and of [symbol] once [q] has drawn its
    value. *)
Definition drawn (q : statement) (d : Pg.database) : Z * Z :=
  match q with
  | InsertName _ => (Pg.name_id_seq d + 1, Pg.symbol_id_seq d)
  | InsertSymbol _ => (Pg.name_id_seq d, Pg.symbol_id_seq d + 1)
  | _ => (Pg.name_id_seq d, Pg.symbol_id_seq d)
  end.

(** The rows of the last commit under the sequences [seqs]. *)
Definition discarded (c : Pg.database) (seqs : Z * Z) : Pg.database :=
  Pg.Database (Pg.gene c) (Pg.location c) (Pg.assembly_has_location c)
    (Pg.locus_type c) (Pg.name c) (fst seqs) (Pg.symbol c) (snd seqs)
    (Pg.gene_has_location c) (Pg.gene_has_locus_type c) (Pg.gene_has_name c)
    (Pg.gene_has_symbol c).

(** The transaction after the store has rejected [q]. *)
Definition abort (q : statement) (s : state) : state :=
  State (committed s)
        (Pg.State (discarded (committed s) (drawn q (db s))) (-1) [])
        true.

Definition exec (q : statement) (s : state) : option pg_error * state :=
  if failed s then (Some in_failed_transaction, s)
  else
    match Pg.exec q (live s) with
    | (None, l) => (None, State (committed s) l false)
    | (Some e, _) => (Some e, abort q s)
    end.

(** [executemany], as [Pg.exec_many] has it. *)
Fixpoint exec_many (qs : list statement) (total : Z) (s : state)
  : option pg_error * state :=
  match qs with
  | [] =>
      (None, State (committed s) (Pg.State (db s) total []) (failed s))
  | q :: qs' =>
      match exec q s with
      | (Some e, s') => (Some e, s')
      | (None, s') => exec_many qs' (total + Pg.last_rowcount (live s')) s'
      end
  end.

Definition fetch_one (s : state) : option tuple * state :=
  let (r, l) := Pg.fetch_one (live s) in (r, State (committed s) l (failed s)).

Definition fetch_all (s : state) : list tuple * state :=
  let (r, l) := Pg.fetch_all (live s) in (r, State (committed s) l (failed s)).

Definition cursor : Cursor := {|
  cursor_state := state;
  cur_execute := exec;
  cur_executemany := fun qs => exec_many qs 0;
  cur_rowcount := fun s => Pg.last_rowcount (live s);
  cur_fetchone := fetch_one;
  cur_fetchall := fetch_all
|}.

(** A fresh cursor of a connection on database [d], nothing written
    since the last commit. *)
Definition connect (d : Pg.database) : world cursor :=
  World (cur := cursor) (State d (Pg.State d (-1) []) false) [] [].

End Tx.

(** The rows of [d] are those of [c]; the sequences may differ. *)
Definition same_rows (c d : Pg.database) : Prop :=
  Pg.gene d = Pg.gene c /\
  Pg.location d = Pg.location c /\
  Pg.assembly_has_location d = Pg.assembly_has_location c /\
  Pg.locus_type d = Pg.locus_type c /\
  Pg.name d = Pg.name c /\
  Pg.symbol d = Pg.symbol c /\
  (forall j, Pg.rows_of j d = Pg.rows_of j c).

(** The store inside the transaction of [w]. *)
Definition inside (w : world Tx.cursor) : world Pg.cursor :=
  World (cur := Pg.cursor) (Tx.live (cstate w)) (executed w) (warnings w).

(** The world of a transaction that no statement has failed, above the
    last commit [c]. *)
Definition in_transaction (c : Pg.database) (w : world Pg.cursor)
  : world Tx.cursor :=
  World (cur := Tx.cursor) (Tx.State c (cstate w) false) (executed w)
        (warnings w).

(** The outcome [rt] on the transaction agrees with the outcome [rp] on
    the store: same result, same SQL, same warnings; the transaction is
    either not failed and in the state of the store, or failed, and then
    the result is an exception and the rows are those of the last commit
    [c]. *)
Definition agree {A} (c : Pg.database) (rp : result A * world Pg.cursor)
    (rt : result A * world Tx.cursor) : Prop :=
  fst rt = fst rp /\
  executed (snd rt) = executed (snd rp) /\
  warnings (snd rt) = warnings (snd rp) /\
  Tx.committed (cstate (snd rt)) = c /\
  if Tx.failed (cstate (snd rt))
  then (exists e, fst rp = Raise e) /\ same_rows c (Tx.db (cstate (snd rt)))
  else Tx.live (cstate (snd rt)) = cstate (snd rp).

Definition simulates {A} (mt : M Tx.cursor A) (mp : M Pg.cursor A) : Prop :=
  forall c wp, agree c (mp wp) (mt (in_transaction c wp)).

(** What a call that started at [w] on a transaction can have done to
    the database when it ends with [r]: the transaction has not failed
    and the database has only grown, or the transaction has failed, the
    call has raised, and the rows are those of the last commit. *)
Definition appended_or_discarded {A} (w : world Tx.cursor)
    (r : result A * world Tx.cursor) : Prop :=
  (Tx.failed (cstate (snd r)) = false /\
   extends (Tx.db (cstate w)) (Tx.db (cstate (snd r)))) \/
  (Tx.failed (cstate (snd r)) = true /\
   (exists e, fst r = Raise e) /\
   same_rows (Tx.committed (cstate w)) (Tx.db (cstate (snd r)))).

(** ** main.py and pgncdb/dbc.py *)

(** A row of the frame [pd.read_csv] yields: its index (the [PotriID]
    column) and the six columns [process_df] reads.  The cells are
    strings, as for a file without an empty cell; on a string
    [str(row['Location'])] is the string itself. *)
Record frame_row : Type := FrameRow {
  index : string;
  Location : string;
  Locus_type : string;
  Gene_symbol : string;
  Symbol_type : string;
  Gene_name : string;
  Name_type : string
}.

Definition dataframe : Type := list frame_row.

(** The four lists [process_df] fills, one [append] per list and row. *)
Definition append_row
    (acc : list (string * string) * list (string * string)
           * list triple * list triple)
    (row : frame_row) :=
  let '(gene_location, gene_locus_type, gene_symbol, gene_name) := acc in
  (gene_location ++ [(index row, Location row)],
   gene_locus_type ++ [(index row, Locus_type row)],
   gene_symbol ++ [(index row, Gene_symbol row, Symbol_type row)],
   gene_name ++ [(index row, Gene_name row, Name_type row)]).

Definition process_df (cur : Cursor) (df : dataframe) : M cur unit :=
  let '(gene_location, gene_locus_type, gene_symbol, gene_name) :=
    fold_left append_row df ([], [], [], []) in
  bind cur (add_gene_location cur gene_location) (fun _ =>
  bind cur (add_gene_locus_type cur gene_locus_type) (fun _ =>
  bind cur (add_gene_name cur gene_name) (fun _ =>
  add_gene_symbol cur gene_symbol))).

(** The items of a frame, column by column. *)
Definition locations_of (df : dataframe) : list (string * string) :=
  map (fun row => (index row, Location row)) df.
Definition locus_types_of (df : dataframe) : list (string * string) :=
  map (fun row => (index row, Locus_type row)) df.
Definition names_of (df : dataframe) : list triple :=
  map (fun row => (index row, Gene_name row, Name_type row)) df.
Definition symbols_of (df : dataframe) : list triple :=
  map (fun row => (index row, Gene_symbol row, Symbol_type row)) df.

(** [SSHTunnelForwarder((host, port), ssh_username=.., ssh_pkey=..,
    remote_bind_address=(host, port))].  The values read with
    [os.getenv] may be [None]. *)
Record tunnel_config : Type := TunnelConfig {
  ssh_address : option string * Z;
  ssh_username : option string;
  ssh_pkey : string;
  remote_bind_address : option string * Z
}.

(** [psycopg2.connect(host=.., port=.., dbname=.., password=.., user=..)] *)
Record connect_args : Type := ConnectArgs {
  host : string;
  port : Z;
  dbname : option string;
  password : option string;
  user : option string
}.

(** The calls [main] makes outside the cursor, in the order made. *)
Inductive host_event : Type :=
  (* pd.read_csv(file_path, sep='\t', index_col='PotriID'[, usecols=cols]) *)
| ReadCsv (file_path : option string) (usecols : option (list string))
  (* server.start() *)
| TunnelStart (server : tunnel_config)
| Connect (args : connect_args)
  (* conn.cursor() *)
| OpenCursor
  (* conn.commit() *)
| Commit
  (* tunnel.stop() *)
| TunnelStop.

(** The collaborators of [main]: pandas, the SSH tunnel and the
    connection.  Each call either raises (an exception, given by its
    name) or answers. *)
Record Host (cur : Cursor) : Type := {
  read_csv : option string -> option (list string) -> string + dataframe;
  start : tunnel_config -> option string;
  local_bind_port : tunnel_config -> Z;
  connect : connect_args -> option string;
  cursor_of : connect_args -> cursor_state cur;
  commit : connect_args -> cursor_state cur -> option string
}.
Arguments read_csv {cur} _ _ _.
Arguments start {cur} _ _.
Arguments local_bind_port {cur} _ _.
Arguments connect {cur} _ _.
Arguments cursor_of {cur} _ _.
Arguments commit {cur} _ _ _.

Inductive main_exn : Type :=
  (* ValueError(f"Invalid columns found. Allowed columns are: {valid_cols}"):
     the text ends with the rendering of the set, whose order Python does
     not fix *)
| InvalidColumns (allowed : list string)
  (* raised by a collaborator *)
| HostError (name : string)
  (* raised by one of the four inserters *)
| InserterError (e : exn).

Definition valid_cols : list string :=
  ["Gene symbol"; "Symbol type"; "Gene name"; "Name type"; "Location";
   "Locus type"].

(** [set(cols).issubset(valid_cols)] *)
Definition issubset (cols allowed : list string) : bool :=
  forallb (fun c => existsb (String.eqb c) allowed) cols.

Definition get_file_data {cur} (h : Host cur) (file_path : option string)
    (cols : option (list string))
  : (main_exn + dataframe) * list host_event :=
  match cols with
  | None =>
      (match read_csv h file_path None with
       | inl e => inl (HostError e)
       | inr df => inr df
       end, [ReadCsv file_path None])
  | Some cs =>
      if negb (issubset cs valid_cols)
      then (inl (InvalidColumns valid_cols), [])
      else (match read_csv h file_path (Some cs) with
            | inl e => inl (HostError e)
            | inr df => inr df
            end, [ReadCsv file_path (Some cs)])
  end.

(** The connection is known by the arguments it was opened with. *)
Definition get_tunnel_db_connection {cur} (h : Host cur)
    (bastion_host_ip bastion_user : option string) (bastion_pkey : string)
    (db_name db_password db_user rds_host : option string)
  : (main_exn + tunnel_config * connect_args) * list host_event :=
  let bastion_port := 22 in
  let rds_port := 5432 in
  let server :=
    TunnelConfig (bastion_host_ip, bastion_port) bastion_user bastion_pkey
                 (rds_host, rds_port) in
  match start h server with
  | Some e => (inl (HostError e), [TunnelStart server])
  | None =>
      let connection :=
        ConnectArgs "127.0.0.1" (local_bind_port h server) db_name
                    db_password db_user in
      match connect h connection with
      | Some e => (inl (HostError e), [TunnelStart server; Connect connection])
      | None =>
          (inr (server, connection), [TunnelStart server; Connect connection])
      end
  end.

(** [os.environ], as far as [main] reads it. *)
Record environ : Type := Environ {
  BASTION_IP : option string;
  BASTION_USER : option string;
  DB_NAME : option string;
  DB_PASS : option string;
  DB_USER : option string;
  RDS_HOST : option string
}.

(** What a run of [main] comes to: the exception it ends with, if any,
    the calls made on the collaborators, and the world of the cursor
    once it is open. *)
Record main_run (cur : Cursor) : Type := MainRun {
  raised : option main_exn;
  events : list host_event;
  sql : option (world cur)
}.
Arguments MainRun {cur} _ _ _.
Arguments raised {cur} _.
Arguments events {cur} _.
Arguments sql {cur} _.

(** [main], from the parsed arguments on: [file] is [args.file], [PKEY]
    the module constant. *)
Definition main {cur} (h : Host cur) (env : environ) (PKEY : string)
    (file : option string) : main_run cur :=
  match get_file_data h file None with
  | (inl e, ev1) => MainRun (Some e) ev1 None
  | (inr df, ev1) =>
      match get_tunnel_db_connection h (BASTION_IP env) (BASTION_USER env)
              PKEY (DB_NAME env) (DB_PASS env) (DB_USER env) (RDS_HOST env)
      with
      | (inl e, ev2) => MainRun (Some e) (ev1 ++ ev2) None
      | (inr (tunnel, conn), ev2) =>
          let w0 := World (cur := cur) (cursor_of h conn) [] [] in
          match process_df cur df w0 with
          | (Raise e, w1) =>
              MainRun (Some (InserterError e)) (ev1 ++ ev2 ++ [OpenCursor])
                      (Some w1)
          | (Return _, w1) =>
              match commit h conn (cstate w1) with
              | Some e =>
                  MainRun (Some (HostError e))
                          (ev1 ++ ev2 ++ [OpenCursor; Commit]) (Some w1)
              | None =>
                  MainRun None
                          (ev1 ++ ev2 ++ [OpenCursor; Commit; TunnelStop])
                          (Some w1)
              end
          end
      end
  end.

(** A host on which nothing fails: the file holds [df], the tunnel binds
    port 6543, the cursor starts on [d]. *)
Definition good_host (df : dataframe) (d : Pg.database) : Host Pg.cursor :=
  Build_Host Pg.cursor
    (fun _ _ => inr df)
    (fun _ => None)
    (fun _ => 6543)
    (fun _ => None)
    (fun _ => Pg.State d (-1) [])
    (fun _ _ => None).

Definition example_env : environ :=
  Environ (Some "10.0.0.1") (Some "ec2-user") (Some "pgnc") (Some "secret")
          (Some "loader") (Some "db.internal").

Definition example_frame : dataframe :=
  [FrameRow "P1" "LocA" "protein-coding" "KIN1" "approved" "kinase" "approved";
   FrameRow "P2" "LocB" "protein-coding" "LIG1" "approved" "ligase" "approved"].

(** The same frame with the symbol of the second row already taken. *)
Definition clashing_frame : dataframe :=
  [FrameRow "P1" "LocA" "protein-coding" "KIN1" "approved" "kinase" "approved";
   FrameRow "P2" "LocB" "protein-coding" "CYP706B3" "approved" "ligase"
            "approved"].

(** A frame that database [d] can take in full: keys and ids identify
    the rows of [gene], [location] and [locus_type]; every row of the
    frame names a gene, a location of assembly 1 and a locus type that
    exist; no two rows give the same location pair or the same locus-type
    pair, and none of these pairs is linked; the names and the symbols
    are new and differ from row to row; the sequences of [name] and
    [symbol] are ahead of the ids the association rows refer to. *)
Record loadable (d : Pg.database) (df : dataframe) : Prop := Loadable {
  ld_gene_keys : unique_keys (Pg.gene d);
  ld_gene_ids : unique_ids (Pg.gene d);
  ld_location_keys : unique_keys (Pg.location d);
  ld_location_ids : unique_ids (Pg.location d);
  ld_assembly : NoDup (Pg.assembly_has_location d);
  ld_locus_type_keys : unique_keys (Pg.locus_type d);
  ld_locus_type_ids : unique_ids (Pg.locus_type d);
  ld_locations : NoDup (locations_of df);
  ld_locus_types : NoDup (locus_types_of df);
  ld_names : NoDup (map Gene_name df);
  ld_symbols : NoDup (map Gene_symbol df);
  ld_resolves : forall row, In row df ->
    exists g x y,
      In (g, index row) (Pg.gene d) /\
      In (x, Location row) (Pg.location d) /\
      In (1, x) (Pg.assembly_has_location d) /\
      In (y, Locus_type row) (Pg.locus_type d);
  ld_unlinked : forall row, In row df ->
    ~ linked Pg.GeneHasLocation d (index row, Location row) /\
    ~ linked Pg.GeneHasLocusType d (index row, Locus_type row);
  ld_new : forall row, In row df ->
    Pg.has_literal (Gene_name row) (Pg.name d) = false /\
    Pg.has_literal (Gene_symbol row) (Pg.symbol d) = false;
  ld_name_seq : forall r, In r (Pg.gene_has_name d) ->
    Pg.dim_id r < Pg.name_id_seq d;
  ld_symbol_seq : forall r, In r (Pg.gene_has_symbol d) ->
    Pg.dim_id r < Pg.symbol_id_seq d
}.

(** ** Tactics *)

(** Closes a goal between closed terms by evaluation. *)
Ltac by_computation := vm_compute; reflexivity.

(** Proves [unique_keys] of a table given by its rows. *)
Ltac distinct_keys :=
  unfold unique_keys; simpl; repeat constructor; simpl; intuition discriminate.

(** Unfolds the monad down to the calls on the cursor. *)
Ltac run :=
  unfold add_gene_location, add_gene_locus_type, add_gene_name,
    add_gene_symbol, link_name, link_symbol, insert_name, insert_symbol,
    insert_gene_has_name, insert_gene_has_symbol, bind, try_except, ret,
    raise, execute, executemany, rowcount, warning, except_unique,
    except_psycopg2;
  simpl.

(** * Properties that hold for every cursor *)

Section AnyCursor.

Variable cur : Cursor.

Local Abbreviation M := (M cur).

Lemma for_each_app {A B} (body : B -> A -> M B) (xs ys : list A) (acc : B)
    (w : world cur) :
  for_each cur body (xs ++ ys) acc w =
  match for_each cur body xs acc w with
  | (Return acc', w') => for_each cur body ys acc' w'
  | (Raise e, w') => (Raise e, w')
  end.
Proof.
  revert acc w; induction xs as [|x xs IH]; intros acc w; simpl.
  - reflexivity.
  - unfold bind. destruct (body acc x w) as [[acc'|e] w']; auto.
Qed.

(** *** Computations that send no read query and log no warning *)

Lemma write_only_ret {A} (a : A) : write_only (ret cur a).
Proof.
  intros w r w' H; inversion H; subst; split; auto.
  exists []; rewrite app_nil_r; auto.
Qed.

Lemma write_only_raise {A} (e : exn) : write_only (@raise cur A e).
Proof.
  intros w r w' H; inversion H; subst; split; auto.
  exists []; rewrite app_nil_r; auto.
Qed.

Lemma write_only_bind {A B} (m : M A) (k : A -> M B) :
  write_only m -> (forall a, write_only (k a)) -> write_only (bind cur m k).
Proof.
  intros Hm Hk w r w' H. unfold bind in H.
  destruct (m w) as [[a|e] w1] eqn:E.
  - destruct (Hm _ _ _ E) as [W1 [s1 [X1 F1]]].
    destruct (Hk a _ _ _ H) as [W2 [s2 [X2 F2]]].
    split; [congruence|].
    exists (s1 ++ s2). rewrite X2, X1, app_assoc, forallb_app, F1, F2; auto.
  - inversion H; subst. exact (Hm _ _ _ E).
Qed.

Lemma write_only_try {A} (m : M A) (h : exn -> option (M A)) :
  write_only m -> (forall e k, h e = Some k -> write_only k) ->
  write_only (try_except cur m h).
Proof.
  intros Hm Hh w r w' H. unfold try_except in H.
  destruct (m w) as [[a|e] w1] eqn:E.
  - inversion H; subst. exact (Hm _ _ _ E).
  - destruct (h e) as [k|] eqn:Ek.
    + destruct (Hm _ _ _ E) as [W1 [s1 [X1 F1]]].
      destruct (Hh _ _ Ek _ _ _ H) as [W2 [s2 [X2 F2]]].
      split; [congruence|].
      exists (s1 ++ s2). rewrite X2, X1, app_assoc, forallb_app, F1, F2; auto.
    + inversion H; subst. exact (Hm _ _ _ E).
Qed.

Lemma write_only_execute (q : statement) :
  is_select q = false -> write_only (execute cur q).
Proof.
  intros Hq w r w' H. unfold execute in H.
  destruct (cur_execute cur q (cstate w)) as [[e|] st];
    inversion H; subst; simpl; (split; [reflexivity|]);
    exists [Execute q]; simpl; rewrite Hq; auto.
Qed.

Lemma write_only_fetchone : write_only (fetchone cur).
Proof.
  intros w r w' H. unfold fetchone in H.
  destruct (cur_fetchone cur (cstate w)) as [x st].
  inversion H; subst; simpl; split; auto.
  exists []; rewrite app_nil_r; auto.
Qed.

Lemma write_only_rowcount : write_only (rowcount cur).
Proof.
  intros w r w' H; inversion H; subst; split; auto.
  exists []; rewrite app_nil_r; auto.
Qed.

Lemma write_only_item0 (row : option tuple) : write_only (item0 cur row).
Proof.
  destruct row as [[|x t]|]; simpl;
    auto using write_only_ret, write_only_raise.
Qed.

Lemma write_only_for_each {A B} (body : B -> A -> M B) (xs : list A) :
  (forall acc x, write_only (body acc x)) ->
  forall acc, write_only (for_each cur body xs acc).
Proof.
  intros Hb; induction xs as [|x xs IH]; intros acc; simpl.
  - apply write_only_ret.
  - apply write_only_bind; auto.
Qed.

Lemma write_only_handlers {A} (msg : string) (e : exn) (k : M A) :
  except_unique cur msg e = Some k \/ except_psycopg2 cur msg e = Some k ->
  write_only k.
Proof.
  unfold except_unique, except_psycopg2.
  intros [H|H]; destruct e as [[|c]| | | |]; inversion H; subst;
    apply write_only_raise.
Qed.

Lemma write_only_link_name (cnt : Z) (t : triple) :
  write_only (link_name cur cnt t).
Proof.
  unfold link_name, insert_name, insert_gene_has_name.
  apply write_only_bind; [|intros id]; apply write_only_try.
  - apply write_only_bind; [apply write_only_execute; reflexivity|intros _].
    apply write_only_bind; [apply write_only_fetchone|apply write_only_item0].
  - intros e k Hk; eapply write_only_handlers; eauto.
  - apply write_only_bind; [apply write_only_execute; reflexivity|intros _].
    apply write_only_bind; [apply write_only_rowcount|intros n].
    apply write_only_ret.
  - intros e k Hk; eapply write_only_handlers; eauto.
Qed.

Lemma write_only_link_symbol (cnt : Z) (t : triple) :
  write_only (link_symbol cur cnt t).
Proof.
  unfold link_symbol, insert_symbol, insert_gene_has_symbol.
  apply write_only_bind; [|intros id]; apply write_only_try.
  - apply write_only_bind; [apply write_only_execute; reflexivity|intros _].
    apply write_only_bind; [apply write_only_fetchone|apply write_only_item0].
  - intros e k Hk; eapply write_only_handlers; eauto.
  - apply write_only_bind; [apply write_only_execute; reflexivity|intros _].
    apply write_only_bind; [apply write_only_rowcount|intros n].
    apply write_only_ret.
  - intros e k Hk; eapply write_only_handlers; eauto.
Qed.

(** *** The audit logs nothing *)

Lemma check_item_warnings {A} (query : A -> statement) key set acc (x : A)
    (w : world cur) r w' :
  check_item cur query key set acc x w = (r, w') -> warnings w' = warnings w.
Proof.
  unfold check_item, bind, execute, fetchone, ret. intros H.
  destruct (cur_execute cur (query x) (cstate w)) as [[e|] st];
    [inversion H; subst; reflexivity|].
  simpl in H.
  destruct (cur_fetchone cur st) as [res st'].
  destruct (not_in res set); inversion H; subst; reflexivity.
Qed.

Lemma for_each_warnings {A B} (body : B -> A -> M B) (xs : list A) :
  (forall acc x w r w', body acc x w = (r, w') -> warnings w' = warnings w) ->
  forall acc w r w',
    for_each cur body xs acc w = (r, w') -> warnings w' = warnings w.
Proof.
  intros Hb; induction xs as [|x xs IH]; intros acc w r w' H; simpl in H.
  - inversion H; subst; reflexivity.
  - unfold bind in H. destruct (body acc x w) as [[a|e] w1] eqn:E.
    + rewrite (IH _ _ _ _ H). eauto.
    + inversion H; subst. eauto.
Qed.

Lemma find_unsuccessful_warnings {A} table (query : A -> statement) key data
    (w : world cur) r w' :
  find_unsuccessful cur table query key data w = (r, w') ->
  warnings w' = warnings w.
Proof.
  unfold find_unsuccessful, bind, execute, fetchall. intros H.
  destruct (cur_execute cur table (cstate w)) as [[e|] st];
    [inversion H; subst; reflexivity|].
  simpl in H. destruct (cur_fetchall cur st) as [rows st'].
  apply for_each_warnings in H; auto.
  intros; eapply check_item_warnings; eauto.
Qed.

End AnyCursor.

(** ** The count check *)

(** C10: on the empty list [add_gene_name] and [add_gene_symbol] return
    [None] and leave the cursor, the log of SQL sent and the log of
    warnings as they were: no statement is executed, nothing is raised,
    nothing is warned. *)
Theorem empty_input_sends_nothing (cur : Cursor) (w : world cur) :
  add_gene_name cur [] w = (Return tt, w) /\
  add_gene_symbol cur [] w = (Return tt, w).
Proof. split; reflexivity. Qed.

(** C1: when the count equals [len(data)] -- [cur.rowcount] after the
    batched write of the two joined inserters, the tally [cnt] at the end
    of the loop of the two others -- the function returns [None]; the
    warnings are those from before the call, and the only SQL sent is the
    write: no read query of the audit. *)
Theorem full_count_skips_audit (cur : Cursor) (w : world cur) :
  (forall data st,
      cur_executemany cur (location_inserts data) (cstate w) = (None, st) ->
      cur_rowcount cur st = Z.of_nat (List.length data) ->
      add_gene_location cur data w =
        (Return tt, after_batch w (location_inserts data) st) /\
      is_read (Executemany (location_inserts data)) = false) /\
  (forall data st,
      cur_executemany cur (locus_type_inserts data) (cstate w) = (None, st) ->
      cur_rowcount cur st = Z.of_nat (List.length data) ->
      add_gene_locus_type cur data w =
        (Return tt, after_batch w (locus_type_inserts data) st) /\
      is_read (Executemany (locus_type_inserts data)) = false) /\
  (forall data cnt w1,
      for_each cur (link_name cur) data 0 w = (Return cnt, w1) ->
      cnt = Z.of_nat (List.length data) ->
      add_gene_name cur data w = (Return tt, w1) /\
      warnings w1 = warnings w /\
      exists sent, executed w1 = executed w ++ sent /\
                   forallb (fun c => negb (is_read c)) sent = true) /\
  (forall data cnt w1,
      for_each cur (link_symbol cur) data 0 w = (Return cnt, w1) ->
      cnt = Z.of_nat (List.length data) ->
      add_gene_symbol cur data w = (Return tt, w1) /\
      warnings w1 = warnings w /\
      exists sent, executed w1 = executed w ++ sent /\
                   forallb (fun c => negb (is_read c)) sent = true).
Proof.
  split; [|split; [|split]].
  - intros data st H H0; split.
    + run. rewrite H. simpl. rewrite H0, Z.eqb_refl. reflexivity.
    + clear. unfold location_inserts. simpl. induction data; simpl; auto.
  - intros data st H H0; split.
    + run. rewrite H. simpl. rewrite H0, Z.eqb_refl. reflexivity.
    + clear. unfold locus_type_inserts. simpl. induction data; simpl; auto.
  - intros data cnt w1 H H0; split.
    + unfold add_gene_name, bind. rewrite H, H0, Z.eqb_refl. reflexivity.
    + eapply (write_only_for_each cur); eauto using write_only_link_name.
  - intros data cnt w1 H H0; split.
    + unfold add_gene_symbol, bind. rewrite H, H0, Z.eqb_refl. reflexivity.
    + eapply (write_only_for_each cur); eauto using write_only_link_symbol.
Qed.

(** The four functions once the count has been found different and the
    audit has run. *)
Lemma add_gene_location_audited (cur : Cursor) (w : world cur) data st u w' :
  cur_executemany cur (location_inserts data) (cstate w) = (None, st) ->
  cur_rowcount cur st <> Z.of_nat (List.length data) ->
  find_unsuccessful cur SelectGeneHasLocation location_ids (fun d => d)
    data (after_batch w (location_inserts data) st) = (Return u, w') ->
  add_gene_location cur data w =
    match u with
    | _ :: _ => (Return tt, warned w' (location_warning u))
    | [] => (Raise (RuntimeError
                      (location_error_msg (cur_rowcount cur st)
                                          (List.length data)) None), w')
    end.
Proof.
  intros H H0 H1. apply Z.eqb_neq in H0.
  unfold add_gene_location, bind at 1 2 3, try_except, executemany, rowcount.
  rewrite H; simpl. rewrite H0.
  unfold after_batch in H1. rewrite H1. destruct u; reflexivity.
Qed.

Lemma add_gene_locus_type_audited (cur : Cursor) (w : world cur) data st u w' :
  cur_executemany cur (locus_type_inserts data) (cstate w) = (None, st) ->
  cur_rowcount cur st <> Z.of_nat (List.length data) ->
  find_unsuccessful cur SelectGeneHasLocusType locus_type_ids (fun d => d)
    data (after_batch w (locus_type_inserts data) st) = (Return u, w') ->
  add_gene_locus_type cur data w =
    match u with
    | _ :: _ => (Return tt, warned w' (locus_type_warning u))
    | [] => (Raise (RuntimeError locus_type_error_msg None), w')
    end.
Proof.
  intros H H0 H1. apply Z.eqb_neq in H0.
  unfold add_gene_locus_type, bind at 1 2 3, try_except, executemany, rowcount.
  rewrite H; simpl. rewrite H0.
  unfold after_batch in H1. rewrite H1. destruct u; reflexivity.
Qed.

Lemma add_gene_name_audited (cur : Cursor) (w : world cur) data cnt w1 u w' :
  for_each cur (link_name cur) data 0 w = (Return cnt, w1) ->
  cnt <> Z.of_nat (List.length data) ->
  find_unsuccessful cur SelectGeneHasName name_ids key_of data w1
    = (Return u, w') ->
  add_gene_name cur data w =
    match u with
    | _ :: _ => (Return tt, warned w' (name_warning u))
    | [] => (Raise (RuntimeError type_difference_msg None), w')
    end.
Proof.
  intros H H0 H1. apply Z.eqb_neq in H0.
  unfold add_gene_name, bind at 1 2. rewrite H, H0; simpl.
  rewrite H1. destruct u; reflexivity.
Qed.

Lemma add_gene_symbol_audited (cur : Cursor) (w : world cur) data cnt w1 u w' :
  for_each cur (link_symbol cur) data 0 w = (Return cnt, w1) ->
  cnt <> Z.of_nat (List.length data) ->
  find_unsuccessful cur SelectGeneHasSymbol symbol_ids key_of data w1
    = (Return u, w') ->
  add_gene_symbol cur data w =
    match u with
    | _ :: _ => (Return tt, warned w' (symbol_warning u))
    | [] => (Raise (RuntimeError type_difference_msg None), w')
    end.
Proof.
  intros H H0 H1. apply Z.eqb_neq in H0.
  unfold add_gene_symbol, bind at 1 2. rewrite H, H0; simpl.
  rewrite H1. destruct u; reflexivity.
Qed.

(** C2: when the count differs from [len(data)] and the audit finds no
    unsuccessful item, the function raises the [RuntimeError] of the
    unexplained mismatch and has logged no warning; when the audit finds
    at least one, the function returns [None] (after logging them) and
    raises nothing. *)
Theorem unexplained_mismatch_is_fatal (cur : Cursor) (w : world cur) :
  (forall data st u w',
      cur_executemany cur (location_inserts data) (cstate w) = (None, st) ->
      cur_rowcount cur st <> Z.of_nat (List.length data) ->
      find_unsuccessful cur SelectGeneHasLocation location_ids (fun d => d)
        data (after_batch w (location_inserts data) st) = (Return u, w') ->
      (u = [] ->
         add_gene_location cur data w =
           (Raise (RuntimeError
                     (location_error_msg (cur_rowcount cur st)
                                         (List.length data)) None), w') /\
         warnings w' = warnings w) /\
      (u <> [] ->
         add_gene_location cur data w =
           (Return tt, warned w' (location_warning u)))) /\
  (forall data st u w',
      cur_executemany cur (locus_type_inserts data) (cstate w) = (None, st) ->
      cur_rowcount cur st <> Z.of_nat (List.length data) ->
      find_unsuccessful cur SelectGeneHasLocusType locus_type_ids (fun d => d)
        data (after_batch w (locus_type_inserts data) st) = (Return u, w') ->
      (u = [] ->
         add_gene_locus_type cur data w =
           (Raise (RuntimeError locus_type_error_msg None), w') /\
         warnings w' = warnings w) /\
      (u <> [] ->
         add_gene_locus_type cur data w =
           (Return tt, warned w' (locus_type_warning u)))) /\
  (forall data cnt w1 u w',
      for_each cur (link_name cur) data 0 w = (Return cnt, w1) ->
      cnt <> Z.of_nat (List.length data) ->
      find_unsuccessful cur SelectGeneHasName name_ids key_of data w1
        = (Return u, w') ->
      (u = [] ->
         add_gene_name cur data w =
           (Raise (RuntimeError type_difference_msg None), w') /\
         warnings w' = warnings w) /\
      (u <> [] ->
         add_gene_name cur data w = (Return tt, warned w' (name_warning u)))) /\
  (forall data cnt w1 u w',
      for_each cur (link_symbol cur) data 0 w = (Return cnt, w1) ->
      cnt <> Z.of_nat (List.length data) ->
      find_unsuccessful cur SelectGeneHasSymbol symbol_ids key_of data w1
        = (Return u, w') ->
      (u = [] ->
         add_gene_symbol cur data w =
           (Raise (RuntimeError type_difference_msg None), w') /\
         warnings w' = warnings w) /\
      (u <> [] ->
         add_gene_symbol cur data w =
           (Return tt, warned w' (symbol_warning u)))).
Proof.
  split; [|split; [|split]].
  - intros data st u w' H H0 H1.
    pose proof (find_unsuccessful_warnings _ _ _ _ _ _ _ _ H1) as W.
    pose proof (add_gene_location_audited _ _ _ _ _ _ H H0 H1) as E.
    split; intros Hu.
    + subst u. split; [exact E | exact W].
    + destruct u; [congruence | exact E].
  - intros data st u w' H H0 H1.
    pose proof (find_unsuccessful_warnings _ _ _ _ _ _ _ _ H1) as W.
    pose proof (add_gene_locus_type_audited _ _ _ _ _ _ H H0 H1) as E.
    split; intros Hu.
    + subst u. split; [exact E | exact W].
    + destruct u; [congruence | exact E].
  - intros data cnt w1 u w' H H0 H1.
    pose proof (find_unsuccessful_warnings _ _ _ _ _ _ _ _ H1) as W.
    pose proof (proj1 (write_only_for_each cur _ data
                         (write_only_link_name cur) _ _ _ _ H)) as W1.
    pose proof (add_gene_name_audited _ _ _ _ _ _ _ H H0 H1) as E.
    split; intros Hu.
    + subst u. split; [exact E | congruence].
    + destruct u; [congruence | exact E].
  - intros data cnt w1 u w' H H0 H1.
    pose proof (find_unsuccessful_warnings _ _ _ _ _ _ _ _ H1) as W.
    pose proof (proj1 (write_only_for_each cur _ data
                         (write_only_link_symbol cur) _ _ _ _ H)) as W1.
    pose proof (add_gene_symbol_audited _ _ _ _ _ _ _ H H0 H1) as E.
    split; intros Hu.
    + subst u. split; [exact E | congruence].
    + destruct u; [congruence | exact E].
Qed.

(** ** The errors of the two steps *)

(** C6, as the code has it: whatever [psycopg2.Error] the association
    write of a triple raises -- [UniqueViolation] as much as any other --
    the function raises the [RuntimeError] of the failed association write
    with that error as its cause, at once: the write is the last statement
    sent, and nothing is logged. *)
Theorem link_write_error_is_link_failure (cur : Cursor) (w : world cur) :
  (forall pre t post cnt w1 id w2 e st,
      for_each cur (link_name cur) pre 0 w = (Return cnt, w1) ->
      insert_name cur (literal_of t) w1 = (Return id, w2) ->
      cur_execute cur (InsertGeneHasName id (type_of t) (potri_of t))
        (cstate w2) = (Some e, st) ->
      add_gene_name cur (pre ++ t :: post) w =
        (Raise (RuntimeError (link_error_msg id (type_of t) (potri_of t))
                             (Some e)),
         World st
           (executed w2 ++
              [Execute (InsertGeneHasName id (type_of t) (potri_of t))])
           (warnings w2))) /\
  (forall pre t post cnt w1 id w2 e st,
      for_each cur (link_symbol cur) pre 0 w = (Return cnt, w1) ->
      insert_symbol cur (literal_of t) w1 = (Return id, w2) ->
      cur_execute cur (InsertGeneHasSymbol id (type_of t) (potri_of t))
        (cstate w2) = (Some e, st) ->
      add_gene_symbol cur (pre ++ t :: post) w =
        (Raise (RuntimeError (link_error_msg id (type_of t) (potri_of t))
                             (Some e)),
         World st
           (executed w2 ++
              [Execute (InsertGeneHasSymbol id (type_of t) (potri_of t))])
           (warnings w2))).
Proof.
  split; intros pre t post cnt w1 id w2 e st Hpre Hid Hex.
  - unfold add_gene_name, bind at 1. rewrite for_each_app, Hpre. simpl.
    unfold bind at 1, link_name, bind at 1. rewrite Hid.
    unfold insert_gene_has_name, try_except, bind at 1, execute.
    rewrite Hex. reflexivity.
  - unfold add_gene_symbol, bind at 1. rewrite for_each_app, Hpre. simpl.
    unfold bind at 1, link_symbol, bind at 1. rewrite Hid.
    unfold insert_gene_has_symbol, try_except, bind at 1, execute.
    rewrite Hex. reflexivity.
Qed.

(** C6, as the claim has it, fails: on a cursor whose association write
    raises [UniqueViolation], that uniqueness violation is reported as
    the [RuntimeError] of the failed association write. *)
Lemma unique_violation_on_link_is_link_failure :
  let cur := Mock.cursor (Mock.on_link_write UniqueViolation) 1 [7] in
  let w := Mock.start (Mock.on_link_write UniqueViolation) 1 [7] in
  cur_execute cur (InsertGeneHasName 7 "approved" "P1") tt
    = (Some UniqueViolation, tt) /\
  fst (add_gene_name cur [("P1", "cytochrome P450", "approved")] w)
    = Raise (RuntimeError (link_error_msg 7 "approved" "P1")
                          (Some UniqueViolation)) /\
  cur_execute cur (InsertGeneHasSymbol 7 "approved" "P1") tt
    = (Some UniqueViolation, tt) /\
  fst (add_gene_symbol cur [("P1", "CYP1", "approved")] w)
    = Raise (RuntimeError (link_error_msg 7 "approved" "P1")
                          (Some UniqueViolation)).
Proof. repeat split. Qed.

(** * Properties of the runs on the store *)

(** ** Relations every call preserves *)

Section Respects.

Variable cur : Cursor.
Variable R : world cur -> world cur -> Prop.
Hypothesis R_refl : forall w, R w w.
Hypothesis R_trans : forall w1 w2 w3, R w1 w2 -> R w2 w3 -> R w1 w3.
Hypothesis R_execute : forall q, respects R (execute cur q).
Hypothesis R_executemany : forall qs, respects R (executemany cur qs).
Hypothesis R_fetchone : respects R (fetchone cur).
Hypothesis R_fetchall : respects R (fetchall cur).
Hypothesis R_warning : forall msg, respects R (warning cur msg).

Lemma respects_ret {A} (a : A) : respects R (ret cur a).
Proof. intros w r w' H; inversion H; subst; apply R_refl. Qed.

Lemma respects_raise {A} (e : exn) : respects R (@raise cur A e).
Proof. intros w r w' H; inversion H; subst; apply R_refl. Qed.

Lemma respects_rowcount : respects R (rowcount cur).
Proof. intros w r w' H; inversion H; subst; apply R_refl. Qed.

Lemma respects_bind {A B} (m : M cur A) (k : A -> M cur B) :
  respects R m -> (forall a, respects R (k a)) -> respects R (bind cur m k).
Proof.
  intros Hm Hk w r w' H. unfold bind in H.
  destruct (m w) as [[a|e] w1] eqn:E.
  - eapply R_trans; [exact (Hm _ _ _ E) | exact (Hk a _ _ _ H)].
  - inversion H; subst. exact (Hm _ _ _ E).
Qed.

Lemma respects_try {A} (m : M cur A) (h : exn -> option (M cur A)) :
  respects R m -> (forall e k, h e = Some k -> respects R k) ->
  respects R (try_except cur m h).
Proof.
  intros Hm Hh w r w' H. unfold try_except in H.
  destruct (m w) as [[a|e] w1] eqn:E.
  - inversion H; subst. exact (Hm _ _ _ E).
  - destruct (h e) as [k|] eqn:Ek.
    + eapply R_trans; [exact (Hm _ _ _ E) | exact (Hh _ _ Ek _ _ _ H)].
    + inversion H; subst. exact (Hm _ _ _ E).
Qed.

Lemma respects_for_each {A B} (body : B -> A -> M cur B) (xs : list A) :
  (forall acc x, respects R (body acc x)) ->
  forall acc, respects R (for_each cur body xs acc).
Proof.
  intros Hb; induction xs as [|x xs IH]; intros acc; simpl.
  - apply respects_ret.
  - apply respects_bind; auto.
Qed.

Lemma respects_handler {A} (msg : string) (e : exn) (k : M cur A) :
  except_unique cur msg e = Some k \/ except_psycopg2 cur msg e = Some k ->
  respects R k.
Proof.
  unfold except_unique, except_psycopg2.
  intros [H|H]; destruct e as [[|c]| | | |]; inversion H; subst;
    apply respects_raise.
Qed.

Lemma respects_item0 (row : option tuple) : respects R (item0 cur row).
Proof.
  destruct row as [[|x t]|]; simpl; auto using respects_ret, respects_raise.
Qed.

Lemma respects_find_unsuccessful {A} table (query : A -> statement) key data :
  respects R (find_unsuccessful cur table query key data).
Proof.
  unfold find_unsuccessful.
  apply respects_bind; [apply R_execute|intros _].
  apply respects_bind; [apply R_fetchall|intros rows].
  apply respects_for_each. intros acc x. unfold check_item.
  apply respects_bind; [apply R_execute|intros _].
  apply respects_bind; [apply R_fetchone|intros res].
  destruct (not_in res rows); apply respects_ret.
Qed.

Lemma respects_link_name (cnt : Z) (t : triple) :
  respects R (link_name cur cnt t).
Proof.
  unfold link_name, insert_name, insert_gene_has_name.
  apply respects_bind; [|intros id]; apply respects_try.
  - apply respects_bind; [apply R_execute|intros _].
    apply respects_bind; [apply R_fetchone|apply respects_item0].
  - intros e k Hk; eapply respects_handler; eauto.
  - apply respects_bind; [apply R_execute|intros _].
    apply respects_bind; [apply respects_rowcount|intros n].
    apply respects_ret.
  - intros e k Hk; eapply respects_handler; eauto.
Qed.

Lemma respects_link_symbol (cnt : Z) (t : triple) :
  respects R (link_symbol cur cnt t).
Proof.
  unfold link_symbol, insert_symbol, insert_gene_has_symbol.
  apply respects_bind; [|intros id]; apply respects_try.
  - apply respects_bind; [apply R_execute|intros _].
    apply respects_bind; [apply R_fetchone|apply respects_item0].
  - intros e k Hk; eapply respects_handler; eauto.
  - apply respects_bind; [apply R_execute|intros _].
    apply respects_bind; [apply respects_rowcount|intros n].
    apply respects_ret.
  - intros e k Hk; eapply respects_handler; eauto.
Qed.

Lemma respects_tail (u : list (string * string)) (msg err : string) :
  respects R
    (match u with
     | _ :: _ => bind cur (warning cur msg) (fun _ => ret cur tt)
     | [] => raise cur (RuntimeError err None)
     end).
Proof.
  destruct u.
  - apply respects_raise.
  - apply respects_bind; [apply R_warning|intros _; apply respects_ret].
Qed.

Lemma respects_add_gene_location data :
  respects R (add_gene_location cur data).
Proof.
  unfold add_gene_location.
  apply respects_bind; [|intros _].
  { apply respects_try; [apply R_executemany|].
    intros e k Hk; eapply respects_handler; eauto. }
  apply respects_bind; [apply respects_rowcount|intros n].
  destruct (n =? _); [apply respects_ret|].
  apply respects_bind; [apply respects_find_unsuccessful|intros u].
  apply respects_tail.
Qed.

Lemma respects_add_gene_locus_type data :
  respects R (add_gene_locus_type cur data).
Proof.
  unfold add_gene_locus_type.
  apply respects_bind; [|intros _].
  { apply respects_try; [apply R_executemany|].
    intros e k Hk; eapply respects_handler; eauto. }
  apply respects_bind; [apply respects_rowcount|intros n].
  destruct (n =? _); [apply respects_ret|].
  apply respects_bind; [apply respects_find_unsuccessful|intros u].
  apply respects_tail.
Qed.

Lemma respects_add_gene_name data : respects R (add_gene_name cur data).
Proof.
  unfold add_gene_name.
  apply respects_bind;
    [apply respects_for_each; apply respects_link_name|intros n].
  destruct (negb _); [|apply respects_ret].
  apply respects_bind; [apply respects_find_unsuccessful|intros u].
  apply respects_tail.
Qed.

Lemma respects_add_gene_symbol data : respects R (add_gene_symbol cur data).
Proof.
  unfold add_gene_symbol.
  apply respects_bind;
    [apply respects_for_each; apply respects_link_symbol|intros n].
  destruct (negb _); [|apply respects_ret].
  apply respects_bind; [apply respects_find_unsuccessful|intros u].
  apply respects_tail.
Qed.

End Respects.

(** ** The store's statements *)

Lemma insert_rows_app (rows table table' : list Pg.assoc_row) :
  Pg.insert_rows table rows = Some table' -> table' = table ++ rows.
Proof.
  revert table; induction rows as [|r rows IH]; intros table H; simpl in H.
  - inversion H; subst. now rewrite app_nil_r.
  - destruct (Pg.has_pair _ _ table); [discriminate|].
    apply IH in H. now rewrite H, <- app_assoc.
Qed.

Lemma rows_of_set_rows (j j' : Pg.junction) rows d :
  Pg.rows_of j' (Pg.set_rows j rows d) =
  if Pg.junction_eq_dec j j' then rows else Pg.rows_of j' d.
Proof. destruct j, j'; reflexivity. Qed.

Lemma rows_of_add_literal (j : Pg.junction) t v d :
  Pg.rows_of j (Pg.add_literal t v d) = Pg.rows_of j d.
Proof. destruct j, t; reflexivity. Qed.

Lemma literals_set_rows (t : Pg.literal_table) j rows d :
  Pg.literals t (Pg.set_rows j rows d) = Pg.literals t d.
Proof. destruct j, t; reflexivity. Qed.

Lemma literals_add_literal (t t' : Pg.literal_table) v d :
  Pg.literals t' (Pg.add_literal t v d) =
  if Pg.literal_table_eq_dec t t'
  then Pg.literals t' d ++ [(Pg.id_seq t d, v)]
  else Pg.literals t' d.
Proof. destruct t, t'; reflexivity. Qed.

Lemma location_links_fixed d p l :
  Forall fixed_provenance (Pg.location_links d p l).
Proof.
  unfold Pg.location_links. apply Forall_forall. intros r Hr.
  apply in_flat_map in Hr as [g [_ Hr]].
  apply in_flat_map in Hr as [x [_ Hr]].
  apply in_flat_map in Hr as [a [_ Hr]].
  destruct (_ && _); simpl in Hr; [|tauto].
  destruct Hr as [<-|[]]. repeat split.
Qed.

Lemma locus_type_links_fixed d p l :
  Forall fixed_provenance (Pg.locus_type_links d p l).
Proof.
  unfold Pg.locus_type_links. apply Forall_forall. intros r Hr.
  apply in_flat_map in Hr as [g [_ Hr]].
  apply in_flat_map in Hr as [x [_ Hr]].
  destruct (_ && _); simpl in Hr; [|tauto].
  destruct Hr as [<-|[]]. repeat split.
Qed.

Lemma literal_links_fixed d id ty p :
  Forall fixed_provenance (Pg.literal_links d id ty p).
Proof.
  unfold Pg.literal_links. apply Forall_forall. intros r Hr.
  apply in_flat_map in Hr as [g [_ Hr]].
  destruct (_ =? _)%string; simpl in Hr; [|tauto].
  destruct Hr as [<-|[]]. repeat split.
Qed.

Lemma insert_select_shape j rows s r s' :
  Forall fixed_provenance rows ->
  Pg.insert_select j rows s = (r, s') -> exec_shape s r s'.
Proof.
  unfold Pg.insert_select. intros F H.
  destruct (Pg.insert_rows _ rows) as [table'|] eqn:E.
  - inversion H; subst. rewrite (insert_rows_app _ _ _ E).
    apply shape_linked; [congruence|assumption].
  - inversion H; subst. constructor.
Qed.

Lemma insert_returning_shape t v s r s' :
  Pg.insert_returning t v s = (r, s') -> exec_shape s r s'.
Proof.
  unfold Pg.insert_returning. intros H.
  destruct (Pg.has_literal v _) eqn:E; inversion H; subst.
  - constructor.
  - now apply shape_created.
Qed.

Lemma exec_has_shape q s r s' : Pg.exec q s = (r, s') -> exec_shape s r s'.
Proof.
  destruct q; simpl; intros H;
    try (inversion H; subst; apply shape_selected);
    eauto using insert_select_shape, insert_returning_shape,
      location_links_fixed, locus_type_links_fixed, literal_links_fixed.
Qed.

Section PgRespects.

Variable T : Pg.database -> Pg.database -> Prop.
Hypothesis T_refl : forall d, T d d.
Hypothesis T_trans : forall d1 d2 d3, T d1 d2 -> T d2 d3 -> T d1 d3.
Hypothesis T_exec :
  forall q s r s', Pg.exec q s = (r, s') -> T (Pg.db s) (Pg.db s').

Lemma exec_many_T qs : forall total s r s',
  Pg.exec_many qs total s = (r, s') -> T (Pg.db s) (Pg.db s').
Proof.
  induction qs as [|q qs IH]; intros total s r s' H; simpl in H.
  - inversion H; subst. apply T_refl.
  - destruct (Pg.exec q s) as [[e|] s1] eqn:E.
    + inversion H; subst. eauto.
    + eapply T_trans; eauto.
Qed.

Lemma pg_execute q : respects (on_db T) (execute Pg.cursor q).
Proof.
  intros w r w' H. unfold execute in H. simpl in H.
  destruct (Pg.exec q (cstate w)) as [[e|] s1] eqn:E;
    inversion H; subst; unfold on_db, db_of; simpl; eauto.
Qed.

Lemma pg_executemany qs : respects (on_db T) (executemany Pg.cursor qs).
Proof.
  intros w r w' H. unfold executemany in H. simpl in H.
  destruct (Pg.exec_many qs 0 (cstate w)) as [[e|] s1] eqn:E;
    inversion H; subst; unfold on_db, db_of; simpl;
    eauto using exec_many_T.
Qed.

Lemma pg_fetchone : respects (on_db T) (fetchone Pg.cursor).
Proof.
  intros w r w' H. unfold fetchone in H. simpl in H.
  unfold Pg.fetch_one in H.
  destruct (Pg.pending (cstate w)); inversion H; subst;
    unfold on_db, db_of; simpl; apply T_refl.
Qed.

Lemma pg_fetchall : respects (on_db T) (fetchall Pg.cursor).
Proof.
  intros w r w' H. inversion H; subst. unfold on_db, db_of; simpl.
  apply T_refl.
Qed.

Lemma pg_warning msg : respects (on_db T) (warning Pg.cursor msg).
Proof. intros w r w' H. inversion H; subst. apply T_refl. Qed.

Lemma on_db_trans w1 w2 w3 : on_db T w1 w2 -> on_db T w2 w3 -> on_db T w1 w3.
Proof. unfold on_db; eauto. Qed.

Lemma on_db_refl w : on_db T w w.
Proof. apply T_refl. Qed.

Lemma pg_inserters_respect :
  (forall data, respects (on_db T) (add_gene_location Pg.cursor data)) /\
  (forall data, respects (on_db T) (add_gene_locus_type Pg.cursor data)) /\
  (forall data, respects (on_db T) (add_gene_name Pg.cursor data)) /\
  (forall data, respects (on_db T) (add_gene_symbol Pg.cursor data)).
Proof.
  repeat split; intros data;
    [apply respects_add_gene_location | apply respects_add_gene_locus_type
    | apply respects_add_gene_name | apply respects_add_gene_symbol];
    first [ exact on_db_refl | exact on_db_trans | exact pg_execute
          | exact pg_executemany | exact pg_fetchone | exact pg_fetchall
          | exact pg_warning ].
Qed.

Lemma pg_link_loops_respect :
  (forall data c, respects (on_db T)
                    (for_each Pg.cursor (link_name Pg.cursor) data c)) /\
  (forall data c, respects (on_db T)
                    (for_each Pg.cursor (link_symbol Pg.cursor) data c)).
Proof.
  split; intros data c; apply respects_for_each;
    try exact on_db_refl; try exact on_db_trans; intros acc x;
    [apply respects_link_name | apply respects_link_symbol];
    first [ exact on_db_refl | exact on_db_trans | exact pg_execute
          | exact pg_fetchone ].
Qed.

End PgRespects.

Lemma new_rows_fixed_refl d : new_rows_fixed d d.
Proof. intros j r H; now left. Qed.

Lemma new_rows_fixed_trans d1 d2 d3 :
  new_rows_fixed d1 d2 -> new_rows_fixed d2 d3 -> new_rows_fixed d1 d3.
Proof.
  intros H12 H23 j r H. destruct (H23 j r H) as [H2|F]; auto.
Qed.

Lemma exec_new_rows_fixed q s r s' :
  Pg.exec q s = (r, s') -> new_rows_fixed (Pg.db s) (Pg.db s').
Proof.
  intros H. apply exec_has_shape in H.
  destruct H as [|rows|j rows _ F|t v _]; simpl;
    try apply new_rows_fixed_refl.
  - intros j' r0. rewrite rows_of_set_rows.
    destruct (Pg.junction_eq_dec j j') as [<-|_]; auto.
    rewrite in_app_iff. intros [H|H]; auto.
    right. rewrite Forall_forall in F. auto.
  - intros j r0. rewrite rows_of_add_literal. auto.
Qed.

Lemma extends_refl d : extends d d.
Proof. repeat split; intros ?; apply incl_refl. Qed.

Lemma extends_trans d1 d2 d3 : extends d1 d2 -> extends d2 d3 -> extends d1 d3.
Proof.
  intros (G & L & A & K & R & N) (G' & L' & A' & K' & R' & N').
  repeat split; try congruence; intros x; eapply incl_tran; eauto.
Qed.

Lemma extends_set_rows j rows d :
  extends d (Pg.set_rows j (Pg.rows_of j d ++ rows) d).
Proof.
  repeat split; try (destruct j; reflexivity).
  - intros j'. rewrite rows_of_set_rows.
    destruct (Pg.junction_eq_dec j j') as [<-|_];
      [apply incl_appl|]; apply incl_refl.
  - intros t. rewrite literals_set_rows. apply incl_refl.
Qed.

Lemma extends_add_literal t v d : extends d (Pg.add_literal t v d).
Proof.
  repeat split; try (destruct t; reflexivity).
  - intros j. rewrite rows_of_add_literal. apply incl_refl.
  - intros t'. rewrite literals_add_literal.
    destruct (Pg.literal_table_eq_dec t t');
      [apply incl_appl|]; apply incl_refl.
Qed.

Lemma exec_extends q s r s' :
  Pg.exec q s = (r, s') -> extends (Pg.db s) (Pg.db s').
Proof.
  intros H. apply exec_has_shape in H.
  destruct H as [|rows|j rows _ F|t v _]; simpl;
    auto using extends_refl, extends_set_rows, extends_add_literal.
Qed.

(** ** Provenance *)

(** C8: whatever the input and whatever the database, every row that is
    in one of the four association tables after a call of one of the four
    functions, and was not there before it, has [creator_id = 1],
    [editor_id = 1] and [status = 'internal']: the functions take the
    cursor and the data only, and no value of the data reaches these
    columns. *)
Theorem written_rows_have_fixed_provenance (w : world Pg.cursor) :
  (forall data,
      new_rows_fixed (db_of w)
        (db_of (snd (add_gene_location Pg.cursor data w)))) /\
  (forall data,
      new_rows_fixed (db_of w)
        (db_of (snd (add_gene_locus_type Pg.cursor data w)))) /\
  (forall data,
      new_rows_fixed (db_of w)
        (db_of (snd (add_gene_name Pg.cursor data w)))) /\
  (forall data,
      new_rows_fixed (db_of w)
        (db_of (snd (add_gene_symbol Pg.cursor data w)))).
Proof.
  destruct (pg_inserters_respect new_rows_fixed new_rows_fixed_refl
              new_rows_fixed_trans exec_new_rows_fixed)
    as (H1 & H2 & H3 & H4).
  repeat split; intros data.
  - destruct (add_gene_location _ data w) as [r w'] eqn:E.
    exact (H1 _ _ _ _ E).
  - destruct (add_gene_locus_type _ data w) as [r w'] eqn:E.
    exact (H2 _ _ _ _ E).
  - destruct (add_gene_name _ data w) as [r w'] eqn:E.
    exact (H3 _ _ _ _ E).
  - destruct (add_gene_symbol _ data w) as [r w'] eqn:E.
    exact (H4 _ _ _ _ E).
Qed.

(** ** Duplicate pairs in a batch *)

Lemma has_pair_incl g x rows rows' :
  incl rows rows' -> Pg.has_pair g x rows = true ->
  Pg.has_pair g x rows' = true.
Proof.
  unfold Pg.has_pair. rewrite !existsb_exists.
  intros I [r [Hr E]]. exists r; auto.
Qed.

Lemma insert_rows_conflict rows : forall table r,
  In r rows -> Pg.has_pair (Pg.gene_id r) (Pg.dim_id r) table = true ->
  Pg.insert_rows table rows = None.
Proof.
  induction rows as [|r0 rows IH]; intros table r Hin Hp; simpl.
  - destruct Hin.
  - destruct (Pg.has_pair (Pg.gene_id r0) (Pg.dim_id r0) table) eqn:E;
      [reflexivity|].
    destruct Hin as [->|Hin]; [congruence|].
    apply (IH _ r Hin). eapply has_pair_incl; [|exact Hp]. apply incl_appl.
    apply incl_refl.
Qed.

Lemma exec_error q s e s' :
  Pg.exec q s = (Some e, s') -> e = UniqueViolation /\ s' = s.
Proof. intros H. apply exec_has_shape in H. inversion H; auto. Qed.

Lemma conflicts_fails q s r s' :
  conflicts q (Pg.db s) -> Pg.exec q s = (r, s') -> r = Some UniqueViolation.
Proof.
  destruct q; simpl; try tauto; intros [row [Hin Hp]];
    unfold Pg.insert_select; simpl;
    erewrite insert_rows_conflict by eauto; intros H; inversion H; auto.
Qed.

Lemma conflicts_extends q d d' :
  extends d d' -> conflicts q d -> conflicts q d'.
Proof.
  intros (G & L & A & K & R & N).
  destruct q; simpl; try tauto; intros [row [Hin Hp]]; exists row.
  - unfold Pg.location_links in *. rewrite G, L, A. split; auto.
    eapply has_pair_incl; [exact (R Pg.GeneHasLocation)|exact Hp].
  - unfold Pg.locus_type_links in *. rewrite G, K. split; auto.
    eapply has_pair_incl; [exact (R Pg.GeneHasLocusType)|exact Hp].
Qed.

Lemma exec_many_conflict qs : forall total s q,
  In q qs -> conflicts q (Pg.db s) ->
  exists s', Pg.exec_many qs total s = (Some UniqueViolation, s').
Proof.
  induction qs as [|q0 qs IH]; intros total s q Hin Hc; simpl.
  - destruct Hin.
  - destruct (Pg.exec q0 s) as [[e|] s1] eqn:E.
    + apply exec_error in E as [-> ->]. eauto.
    + destruct Hin as [->|Hin].
      * apply (conflicts_fails _ _ _ _ Hc) in E. discriminate.
      * apply (IH _ s1 q Hin).
        eapply conflicts_extends; [eapply exec_extends; eauto|exact Hc].
Qed.

Lemma location_links_in d p l g x :
  In (g, p) (Pg.gene d) -> In (x, l) (Pg.location d) ->
  In (1, x) (Pg.assembly_has_location d) ->
  In (Pg.AssocRow g x None 1 1 "internal") (Pg.location_links d p l).
Proof.
  intros Hg Hl Ha. unfold Pg.location_links.
  apply in_flat_map. exists (g, p). split; [assumption|].
  apply in_flat_map. exists (x, l). split; [assumption|].
  apply in_flat_map. exists (1, x). split; [assumption|].
  simpl. rewrite !String.eqb_refl, Z.eqb_refl. simpl. now left.
Qed.

Lemma locus_type_links_in d p l g x :
  In (g, p) (Pg.gene d) -> In (x, l) (Pg.locus_type d) ->
  In (Pg.AssocRow g x None 1 1 "internal") (Pg.locus_type_links d p l).
Proof.
  intros Hg Hl. unfold Pg.locus_type_links.
  apply in_flat_map. exists (g, p). split; [assumption|].
  apply in_flat_map. exists (x, l). split; [assumption|].
  simpl. rewrite !String.eqb_refl. simpl. now left.
Qed.

(** C4, as the code has it: when the batch has a pair whose gene and
    dimension row exist, which the write's join keeps (for a location: the
    location belongs to assembly 1), and whose association is already in
    the table, the function raises the [ValueError] of the duplicate with
    the uniqueness violation as its cause.  The batched write is the only
    SQL sent; nothing is logged and nothing is returned. *)
Theorem duplicate_pair_aborts_batch (w : world Pg.cursor) :
  (forall data p l g x,
      In (p, l) data ->
      In (g, p) (Pg.gene (db_of w)) ->
      In (x, l) (Pg.location (db_of w)) ->
      In (1, x) (Pg.assembly_has_location (db_of w)) ->
      Pg.has_pair g x (Pg.gene_has_location (db_of w)) = true ->
      exists st,
        add_gene_location Pg.cursor data w =
          (Raise (ValueError location_exists_msg UniqueViolation),
           after_batch w (location_inserts data) st)) /\
  (forall data p l g x,
      In (p, l) data ->
      In (g, p) (Pg.gene (db_of w)) ->
      In (x, l) (Pg.locus_type (db_of w)) ->
      Pg.has_pair g x (Pg.gene_has_locus_type (db_of w)) = true ->
      exists st,
        add_gene_locus_type Pg.cursor data w =
          (Raise (ValueError locus_type_exists_msg UniqueViolation),
           after_batch w (locus_type_inserts data) st)).
Proof.
  split.
  - intros data p l g x Hd Hg Hl Ha Hp.
    destruct (exec_many_conflict (location_inserts data) 0 (cstate w)
                (InsertGeneHasLocation p l)) as [st E].
    + unfold location_inserts. apply in_map_iff. exists (p, l); auto.
    + simpl. exists (Pg.AssocRow g x None 1 1 "internal"). split; auto.
      apply location_links_in; auto.
    + exists st. run. rewrite E. reflexivity.
  - intros data p l g x Hd Hg Hl Hp.
    destruct (exec_many_conflict (locus_type_inserts data) 0 (cstate w)
                (InsertGeneHasLocusType p l)) as [st E].
    + unfold locus_type_inserts. apply in_map_iff. exists (p, l); auto.
    + simpl. exists (Pg.AssocRow g x None 1 1 "internal"). split; auto.
      apply locus_type_links_in; auto.
    + exists st. run. rewrite E. reflexivity.
Qed.

(** C4, as the claim has it, fails for a location outside assembly 1: the
    pair [(P1, LocA)] of the batch is already an association, yet the
    write raises no uniqueness violation (its join selects no row) and the
    function does not raise the [ValueError]. *)
Lemma linked_pair_outside_assembly_is_no_duplicate :
  let d := other_assembly_db in
  In (1, "P1") (Pg.gene d) /\ In (7, "LocA") (Pg.location d) /\
  Pg.has_pair 1 7 (Pg.gene_has_location d) = true /\
  cur_executemany Pg.cursor (location_inserts [("P1", "LocA")])
    (cstate (Pg.connect d)) = (None, Pg.State d 0 []) /\
  fst (add_gene_location Pg.cursor [("P1", "LocA")] (Pg.connect d))
    = Raise (RuntimeError (location_error_msg 0 1) None).
Proof. repeat split; simpl; auto. Qed.

(** ** The two steps of a triple on the store *)

Lemma for_each_ext {cur A B} (f g : B -> A -> M cur B) (xs : list A) :
  (forall acc x w, f acc x w = g acc x w) ->
  forall acc w, for_each cur f xs acc w = for_each cur g xs acc w.
Proof.
  intros H; induction xs as [|x xs IH]; intros acc w; simpl; auto.
  unfold bind. rewrite H. destruct (g acc x w) as [[a|e] w']; auto.
Qed.

Lemma link_name_on_store cnt x w :
  link_name Pg.cursor cnt x w =
  store_link Pg.NameTable InsertName InsertGeneHasName cnt x w.
Proof.
  unfold store_link, db_of. run. unfold Pg.insert_returning. simpl.
  destruct (Pg.has_literal _ _); simpl; [reflexivity|].
  unfold fetchone; simpl. unfold Pg.insert_select; simpl.
  destruct (Pg.insert_rows _ _); simpl; rewrite <- app_assoc; reflexivity.
Qed.

Lemma link_symbol_on_store cnt x w :
  link_symbol Pg.cursor cnt x w =
  store_link Pg.SymbolTable InsertSymbol InsertGeneHasSymbol cnt x w.
Proof.
  unfold store_link, db_of. run. unfold Pg.insert_returning. simpl.
  destruct (Pg.has_literal _ _); simpl; [reflexivity|].
  unfold fetchone; simpl. unfold Pg.insert_select; simpl.
  destruct (Pg.insert_rows _ _); simpl; rewrite <- app_assoc; reflexivity.
Qed.

Lemma has_literal_incl v rows rows' :
  incl rows rows' -> Pg.has_literal v rows = true ->
  Pg.has_literal v rows' = true.
Proof.
  unfold Pg.has_literal. rewrite !existsb_exists.
  intros I [r [Hr E]]. exists r; auto.
Qed.

Lemma has_literal_in v rows :
  Pg.has_literal v rows = true <-> exists id, In (id, v) rows.
Proof.
  unfold Pg.has_literal. rewrite existsb_exists. split.
  - intros [[id v'] [Hr E]]. simpl in E. apply String.eqb_eq in E. subst.
    eauto.
  - intros [id H]. exists (id, v). simpl. now rewrite String.eqb_refl.
Qed.

(** After a triple is linked, its literal is in the dimension table. *)
Lemma store_link_creates tbl ins lnk cnt x w c' w' :
  store_link tbl ins lnk cnt x w = (Return c', w') ->
  Pg.has_literal (literal_of x) (Pg.literals tbl (db_of w')) = true.
Proof.
  unfold store_link. destruct (Pg.has_literal _ _); [discriminate|].
  destruct (Pg.insert_rows _ _); [|discriminate].
  intros H. inversion H; subst. unfold db_of; simpl.
  rewrite literals_set_rows, literals_add_literal.
  destruct (Pg.literal_table_eq_dec tbl tbl); [|congruence].
  apply has_literal_in. exists (Pg.id_seq tbl (Pg.db (cstate w))).
  apply in_or_app; right; now left.
Qed.

Lemma store_link_extends tbl ins lnk cnt x w r w' :
  store_link tbl ins lnk cnt x w = (r, w') -> extends (db_of w) (db_of w').
Proof.
  unfold store_link. destruct (Pg.has_literal _ _).
  { intros H; inversion H; subst. apply extends_refl. }
  destruct (Pg.insert_rows _ _) as [table'|] eqn:E;
    intros H; inversion H; subst; unfold db_of; simpl.
  - apply insert_rows_app in E. subst table'.
    eapply extends_trans; [apply extends_add_literal|apply extends_set_rows].
  - apply extends_add_literal.
Qed.

Lemma store_loop_extends tbl ins lnk xs : forall cnt w r w',
  for_each Pg.cursor (store_link tbl ins lnk) xs cnt w = (r, w') ->
  extends (db_of w) (db_of w').
Proof.
  induction xs as [|x xs IH]; intros cnt w r w' H; simpl in H.
  - inversion H; subst. apply extends_refl.
  - unfold bind in H.
    destruct (store_link tbl ins lnk cnt x w) as [[c|e] w1] eqn:E.
    + eapply extends_trans; [eapply store_link_extends; eauto|eauto].
    + inversion H; subst. eapply store_link_extends; eauto.
Qed.

Lemma store_loop_creates tbl ins lnk xs : forall cnt w c' w',
  for_each Pg.cursor (store_link tbl ins lnk) xs cnt w = (Return c', w') ->
  forall x, In x xs ->
    Pg.has_literal (literal_of x) (Pg.literals tbl (db_of w')) = true.
Proof.
  induction xs as [|x0 xs IH]; intros cnt w c' w' H x Hin; simpl in H.
  - destruct Hin.
  - unfold bind in H.
    destruct (store_link tbl ins lnk cnt x0 w) as [[c|e] w1] eqn:E;
      [|discriminate].
    destruct Hin as [->|Hin]; [|eauto].
    apply store_link_creates in E.
    apply store_loop_extends in H. destruct H as (_ & _ & _ & _ & _ & N).
    eapply has_literal_incl; [apply N|exact E].
Qed.

(** ** The audit on the store *)

Lemma linkedb_linked j d k : linkedb j d k = true <-> linked j d k.
Proof.
  unfold linkedb, linked. rewrite existsb_exists. split.
  - intros [[g p] [Hg H]]. apply existsb_exists in H as [[x n] [Hx H]].
    simpl in H. apply andb_prop in H as [H Hp]. apply andb_prop in H as [E1 E2].
    apply String.eqb_eq in E1, E2. subst. exists g, x. auto.
  - intros (g & x & Hg & Hx & Hp). exists (g, fst k). split; [assumption|].
    apply existsb_exists. exists (x, snd k). split; [assumption|].
    simpl. now rewrite !String.eqb_refl, Hp.
Qed.

Lemma resolve_ids_in genes dims p n t :
  In t (Pg.resolve_ids genes dims p n) <->
  exists g x, t = [g; x] /\ In (g, p) genes /\ In (x, n) dims.
Proof.
  unfold Pg.resolve_ids. rewrite in_flat_map. split.
  - intros [[g p'] [Hg H]]. apply in_flat_map in H as [[x n'] [Hx H]].
    simpl in H. destruct (_ =? _)%string eqn:E1; simpl in H; [|tauto].
    destruct (n' =? n)%string eqn:E2; simpl in H; [|tauto].
    apply String.eqb_eq in E1, E2. subst. destruct H as [<-|[]]. eauto.
  - intros (g & x & -> & Hg & Hx). exists (g, p). split; [assumption|].
    apply in_flat_map. exists (x, n). split; [assumption|].
    simpl. rewrite !String.eqb_refl. now left.
Qed.

Lemma unique_key_id rows : unique_keys rows ->
  forall a b k, In (a, k) rows -> In (b, k) rows -> a = b.
Proof.
  unfold unique_keys. induction rows as [|[i n] rows IH]; simpl; intros N.
  - intros a b k [].
  - inversion N as [|? ? Hn N']; subst. intros a b k [E1|H1] [E2|H2].
    + congruence.
    + inversion E1; subst. exfalso. apply Hn.
      apply in_map_iff. exists (b, k); auto.
    + inversion E2; subst. exfalso. apply Hn.
      apply in_map_iff. exists (a, k); auto.
    + eauto.
Qed.

Lemma persisted_in j d g x :
  In [g; x] (Pg.persisted j d) <-> Pg.has_pair g x (Pg.rows_of j d) = true.
Proof.
  unfold Pg.persisted, Pg.has_pair. rewrite in_map_iff, existsb_exists.
  split.
  - intros [r [E Hr]]. inversion E; subst. exists r.
    now rewrite !Z.eqb_refl.
  - intros [r [Hr E]]. apply andb_prop in E as [E1 E2].
    apply Z.eqb_eq in E1, E2. subst. eauto.
Qed.

Lemma hd_error_in {A} (l : list A) a : hd_error l = Some a -> In a l.
Proof. destruct l; simpl; intros H; inversion H; now left. Qed.

(** Under unique natural keys the test of the audit is exactly "does not
    resolve to a persisted pair". *)
Lemma unresolved_unlinked j d k :
  unique_keys (Pg.gene d) -> unique_keys (Pg.dimension_of j d) ->
  unresolved (Pg.gene d) (Pg.dimension_of j d) (Pg.persisted j d) k
  = negb (linkedb j d k).
Proof.
  intros Ug Ud. unfold unresolved, not_in.
  destruct (linkedb j d k) eqn:L; simpl.
  - apply linkedb_linked in L as (g & x & Hg & Hx & Hp).
    destruct (hd_error _) as [t|] eqn:E.
    + apply hd_error_in, resolve_ids_in in E as (g' & x' & -> & Hg' & Hx').
      rewrite (unique_key_id _ Ug _ _ _ Hg' Hg).
      rewrite (unique_key_id _ Ud _ _ _ Hx' Hx).
      apply persisted_in in Hp.
      destruct (in_dec _ _ _); [reflexivity|contradiction].
    + assert (In [g; x] (Pg.resolve_ids (Pg.gene d) (Pg.dimension_of j d)
                           (fst k) (snd k))) as H
        by (apply resolve_ids_in; eauto).
      destruct (Pg.resolve_ids _ _ _ _); [destruct H|discriminate].
  - destruct (hd_error _) as [t|] eqn:E; [|reflexivity].
    destruct (in_dec _ _ _) as [H|H]; [|reflexivity].
    apply hd_error_in, resolve_ids_in in E as (g & x & -> & Hg & Hx).
    apply persisted_in in H.
    assert (linkedb j d k = true) by (apply linkedb_linked; exists g, x; auto).
    congruence.
Qed.

(** One item of the audit on the store, for a query that resolves the
    keys of an item against [gene] and the table [dims]. *)
Lemma check_item_on_store {A} (query : A -> statement)
    (key : A -> string * string) (dims : Pg.database -> list (Z * string))
    (set : list tuple) :
  (forall a s,
      Pg.exec (query a) s =
      Pg.select (Pg.resolve_ids (Pg.gene (Pg.db s)) (dims (Pg.db s))
                   (fst (key a)) (snd (key a))) s) ->
  forall a acc w, exists s',
    Pg.db s' = db_of w /\
    check_item Pg.cursor query key set acc a w =
      (Return (acc ++
                 filter (unresolved (Pg.gene (db_of w)) (dims (db_of w)) set)
                        [key a]),
       World (cur := Pg.cursor) s' (executed w ++ [Execute (query a)])
             (warnings w)).
Proof.
  intros Hq a acc w.
  unfold check_item, bind, execute, fetchone. simpl. rewrite Hq.
  unfold Pg.select, Pg.fetch_one, unresolved, db_of. simpl.
  destruct (Pg.resolve_ids _ _ _ _) as [|r rest]; simpl.
  - eexists; split; [|reflexivity]; reflexivity.
  - destruct (in_dec (list_eq_dec Z.eq_dec) r set); unfold ret;
      rewrite ?app_nil_r; (eexists; split; [|reflexivity]; reflexivity).
Qed.

Lemma check_loop_on_store {A} (query : A -> statement)
    (key : A -> string * string) (dims : Pg.database -> list (Z * string))
    (set : list tuple) :
  (forall a s,
      Pg.exec (query a) s =
      Pg.select (Pg.resolve_ids (Pg.gene (Pg.db s)) (dims (Pg.db s))
                   (fst (key a)) (snd (key a))) s) ->
  forall data acc w, exists s',
    Pg.db s' = db_of w /\
    for_each Pg.cursor (check_item Pg.cursor query key set) data acc w =
      (Return (acc ++
                 filter (unresolved (Pg.gene (db_of w)) (dims (db_of w)) set)
                        (map key data)),
       World (cur := Pg.cursor) s'
             (executed w ++ map (fun a => Execute (query a)) data)
             (warnings w)).
Proof.
  intros Hq. induction data as [|a data IH]; intros acc w.
  - exists (cstate w). simpl. rewrite !app_nil_r. destruct w; auto.
  - destruct (check_item_on_store query key dims set Hq a acc w)
      as [s1 [D1 E1]].
    simpl for_each. unfold bind. rewrite E1.
    match goal with
    | |- context [for_each _ _ data ?acc' ?w'] =>
        destruct (IH acc' w') as [s' [D Hrun]]
    end.
    exists s'. unfold db_of in *. simpl in *. split; [congruence|].
    rewrite Hrun, D1. simpl.
    destruct (unresolved _ _ set (key a)); simpl;
      rewrite <- !app_assoc; reflexivity.
Qed.

(** The whole audit on the store. *)
Lemma find_unsuccessful_on_store {A} (j : Pg.junction) (table : statement)
    (query : A -> statement) (key : A -> string * string) :
  (forall s, Pg.exec table s = Pg.select (Pg.persisted j (Pg.db s)) s) ->
  (forall a s,
      Pg.exec (query a) s =
      Pg.select (Pg.resolve_ids (Pg.gene (Pg.db s))
                   (Pg.dimension_of j (Pg.db s))
                   (fst (key a)) (snd (key a))) s) ->
  forall data w, exists s',
    Pg.db s' = db_of w /\
    find_unsuccessful Pg.cursor table query key data w =
      (Return (filter (unresolved (Pg.gene (db_of w))
                         (Pg.dimension_of j (db_of w))
                         (Pg.persisted j (db_of w)))
                      (map key data)),
       World (cur := Pg.cursor) s'
             (executed w ++ Execute table ::
                map (fun a => Execute (query a)) data)
             (warnings w)).
Proof.
  intros Ht Hq data w.
  unfold find_unsuccessful, bind at 1, execute. simpl. rewrite Ht.
  unfold Pg.select, bind at 1, fetchall. simpl.
  match goal with
  | |- context [for_each _ _ data [] ?w'] =>
      destruct (check_loop_on_store query key (Pg.dimension_of j)
                  (Pg.persisted j (Pg.db (cstate w))) Hq data [] w')
        as [s' [D Hrun]]
  end.
  exists s'. split; [exact D|].
  rewrite Hrun. unfold db_of. simpl. rewrite <- app_assoc. reflexivity.
Qed.

(** The queries of the four audits are resolutions against [gene] and the
    dimension table of the junction. *)
Lemma filter_unresolved_unlinked j d keys :
  unique_keys (Pg.gene d) -> unique_keys (Pg.dimension_of j d) ->
  filter (unresolved (Pg.gene d) (Pg.dimension_of j d) (Pg.persisted j d)) keys
  = unlinked j d keys.
Proof.
  intros Ug Ud. unfold unlinked. apply filter_ext. intros k.
  now apply unresolved_unlinked.
Qed.

(** ** The text of the warning *)

Lemma append_assoc (a b c : string) : (a +++ b) +++ c = a +++ b +++ c.
Proof. induction a as [|x a IH]; simpl; [reflexivity|now rewrite IH]. Qed.

Lemma append_nil_r (a : string) : a +++ EmptyString = a.
Proof. induction a as [|x a IH]; simpl; [reflexivity|now rewrite IH]. Qed.

Lemma occurs_after (a x t : string) : occurs x t -> occurs x (a +++ t).
Proof.
  intros (b & c & ->). exists (a +++ b), c. now rewrite append_assoc.
Qed.

Lemma occurs_before (x t c : string) : occurs x t -> occurs x (t +++ c).
Proof.
  intros (a & b & ->). exists a, (b +++ c). now rewrite !append_assoc.
Qed.

Lemma occurs_refl (x : string) : occurs x x.
Proof. exists EmptyString, EmptyString. simpl. now rewrite append_nil_r. Qed.

Lemma concat_occurs (sep x : string) (l : list string) :
  In x l -> occurs x (String.concat sep l).
Proof.
  induction l as [|y l IH]; [intros []|].
  intros [->|Hin].
  - destruct l; simpl; [apply occurs_refl|].
    apply occurs_before, occurs_refl.
  - destruct l as [|z l]; [destruct Hin|].
    change (String.concat sep (y :: z :: l))
      with (y +++ sep +++ String.concat sep (z :: l)).
    apply occurs_after, occurs_after. exact (IH Hin).
Qed.

(** The message the four functions build: the header, a line feed, and
    the items as [(key, value)], each on a line of its own. *)
Lemma warning_text (header sep : string) (u : list (string * string)) :
  join nl [header; join sep (map show_pair u)] =
  header +++ String "010"
    (String.concat sep
       (map (fun k => "(" +++ fst k +++ ", " +++ snd k +++ ")") u)).
Proof. reflexivity. Qed.

Lemma warning_lists (header sep : string) (u : list (string * string)) k :
  In k u ->
  occurs ("(" +++ fst k +++ ", " +++ snd k +++ ")")
         (join nl [header; join sep (map show_pair u)]).
Proof.
  intros Hin. rewrite warning_text. apply occurs_after.
  change (String "010" ?x) with (String "010" EmptyString +++ x).
  apply (occurs_after (String "010" EmptyString)).
  apply concat_occurs.
  exact (in_map (fun k => "(" +++ fst k +++ ", " +++ snd k +++ ")") u k Hin).
Qed.

(** ** Unsuccessful items *)

(** C3: when the audit runs (the write has completed and the count
    differs from [len(data)]) on a store whose natural keys identify
    their rows, and some item of the batch does not resolve to a
    persisted association pair, the function returns [None], raises
    nothing, and has logged exactly one warning.  Its text is the header
    of the function followed by one line [(key, value)] for each item
    that does not resolve to a persisted pair, these items and no other,
    in the order of the input; so the text of every such item occurs in
    the message.  The audit changes nothing in the database. *)
Theorem unsuccessful_items_are_warned (w : world Pg.cursor) :
  let line := fun k : string * string =>
    "(" +++ fst k +++ ", " +++ snd k +++ ")" in
  let lf := String "010" EmptyString in
  (forall data st,
      cur_executemany Pg.cursor (location_inserts data) (cstate w)
        = (None, st) ->
      cur_rowcount Pg.cursor st <> Z.of_nat (List.length data) ->
      unique_keys (Pg.gene (Pg.db st)) ->
      unique_keys (Pg.location (Pg.db st)) ->
      unlinked Pg.GeneHasLocation (Pg.db st) data <> [] ->
      exists w',
        add_gene_location Pg.cursor data w = (Return tt, w') /\
        warnings w' = warnings w ++
          [location_warning (unlinked Pg.GeneHasLocation (Pg.db st) data)] /\
        db_of w' = Pg.db st /\
        location_warning (unlinked Pg.GeneHasLocation (Pg.db st) data) =
          "The following rows were not inserted into the gene_has_location table:"
          +++ lf +++
          String.concat (lf +++ " ")
            (map line (unlinked Pg.GeneHasLocation (Pg.db st) data)) /\
        (forall k, In k (unlinked Pg.GeneHasLocation (Pg.db st) data) ->
           occurs (line k)
             (location_warning
                (unlinked Pg.GeneHasLocation (Pg.db st) data)))) /\
  (forall data st,
      cur_executemany Pg.cursor (locus_type_inserts data) (cstate w)
        = (None, st) ->
      cur_rowcount Pg.cursor st <> Z.of_nat (List.length data) ->
      unique_keys (Pg.gene (Pg.db st)) ->
      unique_keys (Pg.locus_type (Pg.db st)) ->
      unlinked Pg.GeneHasLocusType (Pg.db st) data <> [] ->
      exists w',
        add_gene_locus_type Pg.cursor data w = (Return tt, w') /\
        warnings w' = warnings w ++
          [locus_type_warning
             (unlinked Pg.GeneHasLocusType (Pg.db st) data)] /\
        db_of w' = Pg.db st /\
        locus_type_warning (unlinked Pg.GeneHasLocusType (Pg.db st) data) =
          "The following rows were not inserted into the gene_has_locus_type table:"
          +++ lf +++
          String.concat lf
            (map line (unlinked Pg.GeneHasLocusType (Pg.db st) data)) /\
        (forall k, In k (unlinked Pg.GeneHasLocusType (Pg.db st) data) ->
           occurs (line k)
             (locus_type_warning
                (unlinked Pg.GeneHasLocusType (Pg.db st) data)))) /\
  (forall data cnt w1,
      for_each Pg.cursor (link_name Pg.cursor) data 0 w = (Return cnt, w1) ->
      cnt <> Z.of_nat (List.length data) ->
      unique_keys (Pg.gene (db_of w1)) ->
      unique_keys (Pg.name (db_of w1)) ->
      unlinked Pg.GeneHasName (db_of w1) (map key_of data) <> [] ->
      exists w',
        add_gene_name Pg.cursor data w = (Return tt, w') /\
        warnings w' = warnings w ++
          [name_warning
             (unlinked Pg.GeneHasName (db_of w1) (map key_of data))] /\
        db_of w' = db_of w1 /\
        name_warning (unlinked Pg.GeneHasName (db_of w1) (map key_of data)) =
          "The following rows were not inserted into the gene_has_name:"
          +++ lf +++
          String.concat (lf +++ " ")
            (map line
               (unlinked Pg.GeneHasName (db_of w1) (map key_of data))) /\
        (forall k,
           In k (unlinked Pg.GeneHasName (db_of w1) (map key_of data)) ->
           occurs (line k)
             (name_warning
                (unlinked Pg.GeneHasName (db_of w1) (map key_of data))))) /\
  (forall data cnt w1,
      for_each Pg.cursor (link_symbol Pg.cursor) data 0 w = (Return cnt, w1) ->
      cnt <> Z.of_nat (List.length data) ->
      unique_keys (Pg.gene (db_of w1)) ->
      unique_keys (Pg.symbol (db_of w1)) ->
      unlinked Pg.GeneHasSymbol (db_of w1) (map key_of data) <> [] ->
      exists w',
        add_gene_symbol Pg.cursor data w = (Return tt, w') /\
        warnings w' = warnings w ++
          [symbol_warning
             (unlinked Pg.GeneHasSymbol (db_of w1) (map key_of data))] /\
        db_of w' = db_of w1 /\
        symbol_warning
          (unlinked Pg.GeneHasSymbol (db_of w1) (map key_of data)) =
          "The following rows were not inserted into the database:"
          +++ lf +++
          String.concat (lf +++ " ")
            (map line
               (unlinked Pg.GeneHasSymbol (db_of w1) (map key_of data))) /\
        (forall k,
           In k (unlinked Pg.GeneHasSymbol (db_of w1) (map key_of data)) ->
           occurs (line k)
             (symbol_warning
                (unlinked Pg.GeneHasSymbol (db_of w1) (map key_of data))))).
Proof.
  intros line lf. split; [|split; [|split]].
  - intros data st H H0 Ug Ud Hu.
    destruct (find_unsuccessful_on_store Pg.GeneHasLocation
                SelectGeneHasLocation location_ids (fun d => d)
                (fun s => eq_refl) (fun a s => eq_refl) data
                (after_batch w (location_inserts data) st)) as [s' [D E]].
    unfold db_of in D, E. simpl in D, E.
    rewrite map_id,
      (filter_unresolved_unlinked Pg.GeneHasLocation _ _ Ug Ud) in E.
    rewrite (add_gene_location_audited _ _ _ _ _ _ H H0 E).
    destruct (unlinked _ _ data) eqn:U; [congruence|].
    eexists; split; [reflexivity|]. split; [reflexivity|].
    split; [exact D|]. split; [apply warning_text|].
    intros k Hk. exact (warning_lists _ _ _ k Hk).
  - intros data st H H0 Ug Ud Hu.
    destruct (find_unsuccessful_on_store Pg.GeneHasLocusType
                SelectGeneHasLocusType locus_type_ids (fun d => d)
                (fun s => eq_refl) (fun a s => eq_refl) data
                (after_batch w (locus_type_inserts data) st)) as [s' [D E]].
    unfold db_of in D, E. simpl in D, E.
    rewrite map_id,
      (filter_unresolved_unlinked Pg.GeneHasLocusType _ _ Ug Ud) in E.
    rewrite (add_gene_locus_type_audited _ _ _ _ _ _ H H0 E).
    destruct (unlinked _ _ data) eqn:U; [congruence|].
    eexists; split; [reflexivity|]. split; [reflexivity|].
    split; [exact D|]. split; [apply warning_text|].
    intros k Hk. exact (warning_lists _ _ _ k Hk).
  - intros data cnt w1 H H0 Ug Ud Hu.
    pose proof (proj1 (write_only_for_each Pg.cursor _ data
                         (write_only_link_name Pg.cursor) _ _ _ _ H)) as W1.
    destruct (find_unsuccessful_on_store Pg.GeneHasName
                SelectGeneHasName name_ids key_of
                (fun s => eq_refl) (fun a s => eq_refl) data w1)
      as [s' [D E]].
    rewrite (filter_unresolved_unlinked Pg.GeneHasName _ _ Ug Ud) in E.
    rewrite (add_gene_name_audited _ _ _ _ _ _ _ H H0 E).
    destruct (unlinked _ _ _) eqn:U; [congruence|].
    eexists; split; [reflexivity|].
    split; [simpl; rewrite W1; reflexivity|]. split; [exact D|].
    split; [apply warning_text|].
    intros k Hk. exact (warning_lists _ _ _ k Hk).
  - intros data cnt w1 H H0 Ug Ud Hu.
    pose proof (proj1 (write_only_for_each Pg.cursor _ data
                         (write_only_link_symbol Pg.cursor) _ _ _ _ H)) as W1.
    destruct (find_unsuccessful_on_store Pg.GeneHasSymbol
                SelectGeneHasSymbol symbol_ids key_of
                (fun s => eq_refl) (fun a s => eq_refl) data w1)
      as [s' [D E]].
    rewrite (filter_unresolved_unlinked Pg.GeneHasSymbol _ _ Ug Ud) in E.
    rewrite (add_gene_symbol_audited _ _ _ _ _ _ _ H H0 E).
    destruct (unlinked _ _ _) eqn:U; [congruence|].
    eexists; split; [reflexivity|].
    split; [simpl; rewrite W1; reflexivity|]. split; [exact D|].
    split; [apply warning_text|].
    intros k Hk. exact (warning_lists _ _ _ k Hk).
Qed.

(** ** The tally and the ids of a run of the loop *)

Lemma literal_links_length d id ty p :
  List.length (Pg.literal_links d id ty p) =
  List.length (filter (fun g => (snd g =? p)%string) (Pg.gene d)).
Proof.
  unfold Pg.literal_links. induction (Pg.gene d) as [|g gs IH]; simpl; auto.
  destruct (snd g =? p)%string; simpl; auto.
Qed.

Lemma literal_links_dim d id ty p r :
  In r (Pg.literal_links d id ty p) -> Pg.dim_id r = id.
Proof.
  unfold Pg.literal_links. intros H. apply in_flat_map in H as [g [_ H]].
  destruct (_ =? _)%string; simpl in H; [|tauto].
  destruct H as [<-|[]]. reflexivity.
Qed.

Lemma unique_key_matches rows p :
  unique_keys rows ->
  (List.length (filter (fun g => (snd g =? p)%string) rows) <= 1)%nat.
Proof.
  unfold unique_keys. induction rows as [|[i n] rows IH]; simpl; intros N.
  - lia.
  - inversion N as [|? ? Hn N']; subst.
    destruct (n =? p)%string eqn:E; [|auto].
    apply String.eqb_eq in E. subst. simpl.
    assert (filter (fun g => (snd g =? p)%string) rows = []) as ->; [|simpl; lia].
    destruct (filter _ rows) as [|[i' n'] rest] eqn:F; [reflexivity|].
    exfalso. apply Hn.
    assert (In (i', n') (filter (fun g => (snd g =? p)%string) rows)) as H
      by (rewrite F; now left).
    apply filter_In in H as [H E]. simpl in E. apply String.eqb_eq in E.
    subst. apply in_map_iff. exists (i', p); auto.
Qed.

Lemma unknown_key_matches (rows : list (Z * string)) p :
  (forall g, ~ In (g, p) rows) ->
  filter (fun g => (snd g =? p)%string) rows = [].
Proof.
  intros H. destruct (filter _ rows) as [|[i n] rest] eqn:F; [reflexivity|].
  exfalso.
  assert (In (i, n) (filter (fun g => (snd g =? p)%string) rows)) as X
    by (rewrite F; now left).
  apply filter_In in X as [X E]. simpl in E. apply String.eqb_eq in E.
  subst. exact (H _ X).
Qed.

Lemma gene_add_literal tbl v d : Pg.gene (Pg.add_literal tbl v d) = Pg.gene d.
Proof. destruct tbl; reflexivity. Qed.

Lemma id_seq_set_rows tbl j rows d :
  Pg.id_seq tbl (Pg.set_rows j rows d) = Pg.id_seq tbl d.
Proof. destruct tbl, j; reflexivity. Qed.

Lemma id_seq_add_literal tbl v d :
  Pg.id_seq tbl (Pg.add_literal tbl v d) = Pg.id_seq tbl d + 1.
Proof. destruct tbl; reflexivity. Qed.

(** One linked triple: what it returns and what it leaves. *)
Lemma store_link_returns tbl ins lnk cnt x w c' w' :
  store_link tbl ins lnk cnt x w = (Return c', w') ->
  let d := db_of w in
  let rows :=
    Pg.literal_links d (Pg.id_seq tbl d) (type_of x) (potri_of x) in
  c' = cnt + Z.of_nat (List.length rows) /\
  Pg.gene (db_of w') = Pg.gene d /\
  Pg.id_seq tbl (db_of w') = Pg.id_seq tbl d + 1 /\
  Pg.literals tbl (db_of w') =
    Pg.literals tbl d ++ [(Pg.id_seq tbl d, literal_of x)] /\
  Pg.rows_of (Pg.junction_of tbl) (db_of w') =
    Pg.rows_of (Pg.junction_of tbl) d ++ rows.
Proof.
  unfold store_link. destruct (Pg.has_literal _ _); [discriminate|].
  destruct (Pg.insert_rows _ _) as [table'|] eqn:E; [|discriminate].
  intros H. inversion H; subst. clear H. unfold db_of in *. simpl.
  apply insert_rows_app in E. subst table'.
  assert (L : forall d0 id ty p,
             Pg.literal_links (Pg.add_literal tbl (literal_of x) d0) id ty p
             = Pg.literal_links d0 id ty p)
    by (intros; unfold Pg.literal_links; now rewrite gene_add_literal).
  rewrite !L. repeat split.
  - destruct tbl; reflexivity.
  - now rewrite id_seq_set_rows, id_seq_add_literal.
  - rewrite literals_set_rows, literals_add_literal.
    destruct (Pg.literal_table_eq_dec tbl tbl); [reflexivity|congruence].
  - rewrite rows_of_set_rows, rows_of_add_literal.
    destruct (Pg.junction_eq_dec _ _); [reflexivity|congruence].
Qed.

Lemma generated_between_refl tbl d : generated_between tbl d d.
Proof. repeat split; auto; lia. Qed.

Lemma generated_between_trans tbl d1 d2 d3 :
  generated_between tbl d1 d2 -> generated_between tbl d2 d3 ->
  generated_between tbl d1 d3.
Proof.
  intros (S12 & R12 & N12) (S23 & R23 & N23). split; [lia|]. split.
  - intros r H. destruct (R23 r H) as [H2|B]; [|right; lia].
    destruct (R12 r H2) as [H1|B]; [now left|right; lia].
  - intros id v H. destruct (N23 id v H) as [H2|B]; [|right; lia].
    destruct (N12 id v H2) as [H1|B]; [now left|right; lia].
Qed.

Lemma store_link_generated tbl ins lnk cnt x w c' w' :
  store_link tbl ins lnk cnt x w = (Return c', w') ->
  generated_between tbl (db_of w) (db_of w').
Proof.
  intros H. apply store_link_returns in H as (_ & _ & S & N & R).
  split; [lia|]. split.
  - intros r Hr. rewrite R in Hr. apply in_app_or in Hr as [Hr|Hr]; auto.
    right. apply literal_links_dim in Hr. lia.
  - intros id v Hv. rewrite N in Hv. apply in_app_or in Hv as [Hv|Hv]; auto.
    right. destruct Hv as [E|[]]. inversion E; subst. lia.
Qed.

Lemma store_loop_generated tbl ins lnk xs : forall cnt w c' w',
  for_each Pg.cursor (store_link tbl ins lnk) xs cnt w = (Return c', w') ->
  generated_between tbl (db_of w) (db_of w').
Proof.
  induction xs as [|x xs IH]; intros cnt w c' w' H; simpl in H.
  - inversion H; subst. apply generated_between_refl.
  - unfold bind in H.
    destruct (store_link tbl ins lnk cnt x w) as [[c|e] w1] eqn:E;
      [|discriminate].
    eapply generated_between_trans;
      [eapply store_link_generated; eauto|eauto].
Qed.

(** Under unique gene keys a triple adds at most one to the tally. *)
Lemma store_loop_tally tbl ins lnk xs : forall cnt w c' w',
  for_each Pg.cursor (store_link tbl ins lnk) xs cnt w = (Return c', w') ->
  unique_keys (Pg.gene (db_of w)) ->
  c' <= cnt + Z.of_nat (List.length xs).
Proof.
  induction xs as [|x xs IH]; intros cnt w c' w' H U; simpl in H.
  - inversion H; subst. simpl. lia.
  - unfold bind in H.
    destruct (store_link tbl ins lnk cnt x w) as [[c|e] w1] eqn:E;
      [|discriminate].
    apply store_link_returns in E as (C & G & _).
    assert (U1 : unique_keys (Pg.gene (db_of w1))) by (rewrite G; exact U).
    pose proof (IH _ _ _ _ H U1) as B1.
    pose proof (unique_key_matches _ (potri_of x) U) as B.
    rewrite literal_links_length in C. simpl List.length. lia.
Qed.

(** A triple whose gene key is unknown adds nothing to the tally. *)
Lemma store_loop_short tbl ins lnk xs : forall cnt w c' w' x,
  for_each Pg.cursor (store_link tbl ins lnk) xs cnt w = (Return c', w') ->
  unique_keys (Pg.gene (db_of w)) ->
  In x xs -> (forall g, ~ In (g, potri_of x) (Pg.gene (db_of w))) ->
  c' < cnt + Z.of_nat (List.length xs).
Proof.
  induction xs as [|x0 xs IH]; intros cnt w c' w' x H U Hin Hx; simpl in H.
  - destruct Hin.
  - unfold bind in H.
    destruct (store_link tbl ins lnk cnt x0 w) as [[c|e] w1] eqn:E;
      [|discriminate].
    apply store_link_returns in E as (C & G & _).
    assert (U1 : unique_keys (Pg.gene (db_of w1))) by (rewrite G; exact U).
    rewrite literal_links_length in C. simpl List.length.
    destruct Hin as [->|Hin].
    + rewrite (unknown_key_matches _ _ Hx) in C. simpl in C.
      pose proof (store_loop_tally _ _ _ _ _ _ _ _ H U1). lia.
    + pose proof (unique_key_matches _ (potri_of x0) U) as B.
      assert (Hx1 : forall g, ~ In (g, potri_of x) (Pg.gene (db_of w1)))
        by (rewrite G; exact Hx).
      pose proof (IH _ _ _ _ _ H U1 Hin Hx1). lia.
Qed.

(** The row of a triple whose gene key is unknown: created, and linked by
    no association row written in the run. *)
Lemma store_loop_orphan tbl ins lnk pre x post : forall w cnt w',
  for_each Pg.cursor (store_link tbl ins lnk) (pre ++ x :: post) 0 w
    = (Return cnt, w') ->
  (forall g, ~ In (g, potri_of x) (Pg.gene (db_of w))) ->
  exists id,
    Pg.id_seq tbl (db_of w) <= id /\
    In (id, literal_of x) (Pg.literals tbl (db_of w')) /\
    (forall r, In r (Pg.rows_of (Pg.junction_of tbl) (db_of w')) ->
       Pg.dim_id r = id ->
       In r (Pg.rows_of (Pg.junction_of tbl) (db_of w))).
Proof.
  intros w cnt w' H Hx. rewrite for_each_app in H.
  destruct (for_each _ _ pre 0 w) as [[ca|e] wa] eqn:Epre; [|discriminate].
  simpl in H. unfold bind in H.
  destruct (store_link tbl ins lnk ca x wa) as [[cb|e] wb] eqn:Ex;
    [|discriminate].
  pose proof (store_loop_generated _ _ _ _ _ _ _ _ Epre) as (Sa & Ra & _).
  pose proof (store_loop_extends _ _ _ _ _ _ _ _ Epre) as (Ga & _).
  pose proof (store_loop_generated _ _ _ _ _ _ _ _ H) as (Sb & Rb & _).
  pose proof (store_loop_extends _ _ _ _ _ _ _ _ H) as (_ & _ & _ & _ & _ & Nb).
  apply store_link_returns in Ex as (_ & _ & Sx & Nx & Rx).
  assert (Pg.literal_links (db_of wa) (Pg.id_seq tbl (db_of wa))
            (type_of x) (potri_of x) = []) as Z0.
  { apply length_zero_iff_nil.
    rewrite literal_links_length, Ga, (unknown_key_matches _ _ Hx).
    reflexivity. }
  rewrite Z0, app_nil_r in Rx.
  exists (Pg.id_seq tbl (db_of wa)). split; [exact Sa|]. split.
  - apply (Nb tbl). rewrite Nx. apply in_or_app. right. now left.
  - intros r Hr Hid. destruct (Rb r Hr) as [Hr'|B]; [|lia].
    rewrite Rx in Hr'. destruct (Ra r Hr') as [Hr0|B]; [exact Hr0|lia].
Qed.

(** An item whose gene key is unknown fails the test of the audit. *)
Lemma unknown_gene_unresolved genes dims set k :
  (forall g, ~ In (g, fst k) genes) -> unresolved genes dims set k = true.
Proof.
  intros H. unfold unresolved.
  destruct (hd_error _) as [t|] eqn:E; [|reflexivity].
  apply hd_error_in, resolve_ids_in in E as (g & x & _ & Hg & _).
  destruct (H _ Hg).
Qed.

(** The audit after a loop in which a triple has an unknown gene key
    lists the triple. *)
Lemma store_audit_lists_unknown {A} j table (query : A -> statement) key
    (data : list A) (w1 : world Pg.cursor) x :
  (forall s, Pg.exec table s = Pg.select (Pg.persisted j (Pg.db s)) s) ->
  (forall a s,
      Pg.exec (query a) s =
      Pg.select (Pg.resolve_ids (Pg.gene (Pg.db s))
                   (Pg.dimension_of j (Pg.db s))
                   (fst (key a)) (snd (key a))) s) ->
  In x data -> (forall g, ~ In (g, fst (key x)) (Pg.gene (db_of w1))) ->
  exists u w',
    find_unsuccessful Pg.cursor table query key data w1 = (Return u, w') /\
    In (key x) u /\ db_of w' = db_of w1 /\ warnings w' = warnings w1.
Proof.
  intros Ht Hq Hin Hx.
  destruct (find_unsuccessful_on_store j table query key Ht Hq data w1)
    as [s' [D E]].
  eexists; eexists; split; [exact E|]. split; [|split; [exact D|reflexivity]].
  apply filter_In. split; [now apply in_map|].
  now apply unknown_gene_unresolved.
Qed.

(** ** Unknown genes in the create-then-link inserters *)

(** C9: let the loop complete and let [t] be a triple of the input whose
    gene key is the key of no gene (the gene keys being unique).  Then
    the function returns [None]; the row created for the literal of [t],
    with an id generated during the call, is in the dimension table at
    the end; every association row of the final table that links this id
    was there before the call, so the call has written none for it; and
    the call has logged one warning, whose text is the header followed by
    one line [(key, value)] per unsuccessful item, the line of [t] among
    them. *)
Theorem unresolved_gene_leaves_orphan (w : world Pg.cursor) :
  let line := fun k : string * string =>
    "(" +++ fst k +++ ", " +++ snd k +++ ")" in
  let lf := String "010" EmptyString in
  (forall data cnt w1 t,
      for_each Pg.cursor (link_name Pg.cursor) data 0 w = (Return cnt, w1) ->
      unique_keys (Pg.gene (db_of w)) ->
      In t data ->
      (forall g, ~ In (g, potri_of t) (Pg.gene (db_of w))) ->
      exists id u w',
        add_gene_name Pg.cursor data w = (Return tt, w') /\
        Pg.name_id_seq (db_of w) <= id /\
        In (id, literal_of t) (Pg.name (db_of w')) /\
        (forall r, In r (Pg.gene_has_name (db_of w')) -> Pg.dim_id r = id ->
           In r (Pg.gene_has_name (db_of w))) /\
        warnings w' = warnings w ++ [name_warning u] /\
        In (key_of t) u /\
        name_warning u =
          "The following rows were not inserted into the gene_has_name:"
          +++ lf +++ String.concat (lf +++ " ") (map line u) /\
        occurs ("(" +++ potri_of t +++ ", " +++ literal_of t +++ ")")
               (name_warning u)) /\
  (forall data cnt w1 t,
      for_each Pg.cursor (link_symbol Pg.cursor) data 0 w = (Return cnt, w1) ->
      unique_keys (Pg.gene (db_of w)) ->
      In t data ->
      (forall g, ~ In (g, potri_of t) (Pg.gene (db_of w))) ->
      exists id u w',
        add_gene_symbol Pg.cursor data w = (Return tt, w') /\
        Pg.symbol_id_seq (db_of w) <= id /\
        In (id, literal_of t) (Pg.symbol (db_of w')) /\
        (forall r, In r (Pg.gene_has_symbol (db_of w')) -> Pg.dim_id r = id ->
           In r (Pg.gene_has_symbol (db_of w))) /\
        warnings w' = warnings w ++ [symbol_warning u] /\
        In (key_of t) u /\
        symbol_warning u =
          "The following rows were not inserted into the database:"
          +++ lf +++ String.concat (lf +++ " ") (map line u) /\
        occurs ("(" +++ potri_of t +++ ", " +++ literal_of t +++ ")")
               (symbol_warning u)).
Proof.
  intros line lf. split; intros data cnt w1 t H U Hin Hx.
  - pose proof (proj1 (write_only_for_each Pg.cursor _ data
                         (write_only_link_name Pg.cursor) _ _ _ _ H)) as W1.
    pose proof H as H'.
    rewrite (for_each_ext _ _ _ link_name_on_store) in H'.
    pose proof (store_loop_short _ _ _ _ _ _ _ _ _ H' U Hin Hx) as Short.
    pose proof (store_loop_extends _ _ _ _ _ _ _ _ H') as (G & _).
    destruct (in_split _ _ Hin) as (pre & post & ->).
    destruct (store_loop_orphan _ _ _ _ _ _ _ _ _ H' Hx)
      as (id & Hid & Hlit & Horph).
    destruct (store_audit_lists_unknown Pg.GeneHasName SelectGeneHasName
                name_ids key_of (pre ++ t :: post) w1 t
                (fun s => eq_refl) (fun a s => eq_refl) Hin)
      as (u & w' & E & Hu & D & W).
    { simpl. rewrite G. exact Hx. }
    assert (cnt <> Z.of_nat (List.length (pre ++ t :: post))) as Hc by lia.
    rewrite (add_gene_name_audited _ _ _ _ _ _ _ H Hc E).
    destruct u as [|k u]; [destruct Hu|].
    exists id, (k :: u), (warned w' (name_warning (k :: u))).
    assert (T := warning_text
                   ("The following rows were not inserted into the gene_has_name:")
                   (lf +++ " ") (k :: u)).
    assert (O := warning_lists
                   ("The following rows were not inserted into the gene_has_name:")
                   (lf +++ " ") (k :: u) (key_of t) Hu).
    change (join nl _) with (name_warning (k :: u)) in T, O.
    remember (name_warning (k :: u)) as msg eqn:Emsg. clear Emsg.
    unfold db_of in *. simpl in Hid, Hlit, Horph, D, W, W1 |- *.
    rewrite D, W, W1.
    split; [reflexivity|]. split; [auto|]. split; [auto|].
    split; [auto|]. split; [reflexivity|]. split; [exact Hu|].
    split; [exact T|exact O].
  - pose proof (proj1 (write_only_for_each Pg.cursor _ data
                         (write_only_link_symbol Pg.cursor) _ _ _ _ H)) as W1.
    pose proof H as H'.
    rewrite (for_each_ext _ _ _ link_symbol_on_store) in H'.
    pose proof (store_loop_short _ _ _ _ _ _ _ _ _ H' U Hin Hx) as Short.
    pose proof (store_loop_extends _ _ _ _ _ _ _ _ H') as (G & _).
    destruct (in_split _ _ Hin) as (pre & post & ->).
    destruct (store_loop_orphan _ _ _ _ _ _ _ _ _ H' Hx)
      as (id & Hid & Hlit & Horph).
    destruct (store_audit_lists_unknown Pg.GeneHasSymbol SelectGeneHasSymbol
                symbol_ids key_of (pre ++ t :: post) w1 t
                (fun s => eq_refl) (fun a s => eq_refl) Hin)
      as (u & w' & E & Hu & D & W).
    { simpl. rewrite G. exact Hx. }
    assert (cnt <> Z.of_nat (List.length (pre ++ t :: post))) as Hc by lia.
    rewrite (add_gene_symbol_audited _ _ _ _ _ _ _ H Hc E).
    destruct u as [|k u]; [destruct Hu|].
    exists id, (k :: u), (warned w' (symbol_warning (k :: u))).
    assert (T := warning_text
                   ("The following rows were not inserted into the database:")
                   (lf +++ " ") (k :: u)).
    assert (O := warning_lists
                   ("The following rows were not inserted into the database:")
                   (lf +++ " ") (k :: u) (key_of t) Hu).
    change (join nl _) with (symbol_warning (k :: u)) in T, O.
    remember (symbol_warning (k :: u)) as msg eqn:Emsg. clear Emsg.
    unfold db_of in *. simpl in Hid, Hlit, Horph, D, W, W1 |- *.
    rewrite D, W, W1.
    split; [reflexivity|]. split; [auto|]. split; [auto|].
    split; [auto|]. split; [reflexivity|]. split; [exact Hu|].
    split; [exact T|exact O].
Qed.

(** ** The two resolutions of an item *)

(** For gene-locus-type items the write and the audit resolve an item to
    the same pairs. *)
Lemma locus_type_resolutions_agree d p n :
  written_locus_type_pairs d p n = audited_locus_type_pairs d p n.
Proof.
  unfold written_locus_type_pairs, audited_locus_type_pairs,
    Pg.locus_type_links, Pg.resolve_ids.
  induction (Pg.gene d) as [|g gs IH]; simpl; [reflexivity|].
  rewrite map_app, IH. f_equal. clear IH.
  induction (Pg.locus_type d) as [|x xs IHx]; simpl; [reflexivity|].
  rewrite map_app, IHx.
  destruct ((snd g =? p)%string && (snd x =? n)%string); reflexivity.
Qed.

(** For gene-location items every pair the write resolves, the audit
    resolves too. *)
Lemma location_write_resolution_audited d p n t :
  In t (written_location_pairs d p n) -> In t (audited_location_pairs d p n).
Proof.
  unfold written_location_pairs, audited_location_pairs, Pg.location_links.
  rewrite in_map_iff. intros [r [<- Hr]].
  apply in_flat_map in Hr as [[g p'] [Hg Hr]].
  apply in_flat_map in Hr as [[x n'] [Hx Hr]].
  apply in_flat_map in Hr as [a [_ Hr]]. simpl in Hr.
  destruct (p' =? p)%string eqn:E1; simpl in Hr; [|tauto].
  destruct (n' =? n)%string eqn:E2; simpl in Hr; [|tauto].
  destruct (_ && _); simpl in Hr; [|tauto].
  destruct Hr as [<-|[]]. simpl.
  apply String.eqb_eq in E1, E2. subst.
  apply resolve_ids_in. eauto.
Qed.

(** C7 fails on the code for gene-location items: the query of the audit
    has no join with [assembly_has_location].  For gene [P1] and location
    [LocA] of assembly 2, already linked, the write resolves the item to
    no pair and the audit to the pair [(1, 7)]; the audit finds it among
    the persisted pairs and so reports no unsuccessful item, and the
    function raises the [RuntimeError] of the unexplained mismatch for an
    item its own write has skipped. *)
Theorem location_audit_ignores_assembly :
  let d := other_assembly_db in
  written_location_pairs d "P1" "LocA" = [] /\
  audited_location_pairs d "P1" "LocA" = [[1; 7]] /\
  add_gene_location Pg.cursor [("P1", "LocA")] (Pg.connect d) =
    (Raise (RuntimeError (location_error_msg 0 1) None),
     World (cur := Pg.cursor) (Pg.State d 1 [])
       [Executemany [InsertGeneHasLocation "P1" "LocA"];
        Execute SelectGeneHasLocation;
        Execute (SelectGeneLocationIds "P1" "LocA")]
       []).
Proof. repeat split. Qed.

(** * The theorems at concrete inputs *)

(** The count check on [example_db]: every item resolves and nothing is
    linked beforehand. *)
Lemma full_count_skips_audit_witness :
  let w := Pg.connect example_db in
  fst (add_gene_location Pg.cursor known_locations w) = Return tt /\
  fst (add_gene_locus_type Pg.cursor known_locus_types w) = Return tt /\
  fst (add_gene_name Pg.cursor new_names w) = Return tt /\
  fst (add_gene_symbol Pg.cursor new_symbols w) = Return tt.
Proof.
  intros w.
  destruct (full_count_skips_audit Pg.cursor w) as (H1 & H2 & H3 & H4).
  split; [|split; [|split]].
  - edestruct (H1 known_locations) as [E _];
      [by_computation | by_computation | rewrite E; reflexivity].
  - edestruct (H2 known_locus_types) as [E _];
      [by_computation | by_computation | rewrite E; reflexivity].
  - edestruct (H3 new_names) as [E _];
      [by_computation | by_computation | rewrite E; reflexivity].
  - edestruct (H4 new_symbols) as [E _];
      [by_computation | by_computation | rewrite E; reflexivity].
Defined.

(** The two outcomes of the audit: on [other_assembly_db] the audit of
    the location finds nothing and the error is raised; with an unknown
    gene the audit finds the item and the call returns. *)
Lemma unexplained_mismatch_is_fatal_witness :
  fst (add_gene_location Pg.cursor [("P1", "LocA")]
         (Pg.connect other_assembly_db))
    = Raise (RuntimeError (location_error_msg 0 1) None) /\
  fst (add_gene_locus_type Pg.cursor some_unknown_locus_types
         (Pg.connect example_db)) = Return tt /\
  fst (add_gene_name Pg.cursor some_unknown_names (Pg.connect example_db))
    = Return tt /\
  fst (add_gene_symbol Pg.cursor some_unknown_symbols (Pg.connect example_db))
    = Return tt.
Proof.
  split; [|split; [|split]].
  - destruct (unexplained_mismatch_is_fatal Pg.cursor
                (Pg.connect other_assembly_db)) as (H1 & _).
    edestruct (H1 [("P1", "LocA")]) as [A _];
      [by_computation | vm_compute; discriminate | by_computation |].
    destruct (A eq_refl) as [E _]. rewrite E. reflexivity.
  - destruct (unexplained_mismatch_is_fatal Pg.cursor (Pg.connect example_db))
      as (_ & H2 & _).
    edestruct (H2 some_unknown_locus_types) as [_ B];
      [by_computation | vm_compute; discriminate | by_computation |].
    rewrite B; [reflexivity | discriminate].
  - destruct (unexplained_mismatch_is_fatal Pg.cursor (Pg.connect example_db))
      as (_ & _ & H3 & _).
    edestruct (H3 some_unknown_names) as [_ B];
      [by_computation | vm_compute; discriminate | by_computation |].
    rewrite B; [reflexivity | discriminate].
  - destruct (unexplained_mismatch_is_fatal Pg.cursor (Pg.connect example_db))
      as (_ & _ & _ & H4).
    edestruct (H4 some_unknown_symbols) as [_ B];
      [by_computation | vm_compute; discriminate | by_computation |].
    rewrite B; [reflexivity | discriminate].
Defined.

(** The warning on [example_db], where [P9] is unknown: it lists the
    item of [P9] and no other. *)
Lemma unsuccessful_items_are_warned_witness :
  let w := Pg.connect example_db in
  (exists w',
     add_gene_location Pg.cursor some_unknown_locations w = (Return tt, w') /\
     warnings w' = [location_warning [("P9", "LocB")]] /\
     occurs "(P9, LocB)" (location_warning [("P9", "LocB")])) /\
  (exists w',
     add_gene_locus_type Pg.cursor some_unknown_locus_types w
       = (Return tt, w') /\
     warnings w' = [locus_type_warning [("P9", "protein-coding")]] /\
     occurs "(P9, protein-coding)"
       (locus_type_warning [("P9", "protein-coding")])) /\
  (exists w',
     add_gene_name Pg.cursor some_unknown_names w = (Return tt, w') /\
     warnings w' = [name_warning [("P9", "ligase")]] /\
     occurs "(P9, ligase)" (name_warning [("P9", "ligase")])) /\
  (exists w',
     add_gene_symbol Pg.cursor some_unknown_symbols w = (Return tt, w') /\
     warnings w' = [symbol_warning [("P9", "LIG1")]] /\
     occurs "(P9, LIG1)" (symbol_warning [("P9", "LIG1")])).
Proof.
  intros w.
  destruct (unsuccessful_items_are_warned w) as (H1 & H2 & H3 & H4).
  split; [|split; [|split]].
  - edestruct (H1 some_unknown_locations) as (w' & E & W & _ & _ & O);
      [by_computation | vm_compute; discriminate | distinct_keys
      | distinct_keys | vm_compute; discriminate |].
    exists w'. split; [exact E|]. split; [exact W|].
    exact (O ("P9", "LocB") (or_introl eq_refl)).
  - edestruct (H2 some_unknown_locus_types) as (w' & E & W & _ & _ & O);
      [by_computation | vm_compute; discriminate | distinct_keys
      | distinct_keys | vm_compute; discriminate |].
    exists w'. split; [exact E|]. split; [exact W|].
    exact (O ("P9", "protein-coding") (or_introl eq_refl)).
  - edestruct (H3 some_unknown_names) as (w' & E & W & _ & _ & O);
      [by_computation | vm_compute; discriminate | distinct_keys
      | distinct_keys | vm_compute; discriminate |].
    exists w'. split; [exact E|]. split; [exact W|].
    exact (O ("P9", "ligase") (or_introl eq_refl)).
  - edestruct (H4 some_unknown_symbols) as (w' & E & W & _ & _ & O);
      [by_computation | vm_compute; discriminate | distinct_keys
      | distinct_keys | vm_compute; discriminate |].
    exists w'. split; [exact E|]. split; [exact W|].
    exact (O ("P9", "LIG1") (or_introl eq_refl)).
Defined.

(** A batch on [linked_db] whose second pair is already linked. *)
Lemma duplicate_pair_aborts_batch_witness :
  let w := Pg.connect linked_db in
  fst (add_gene_location Pg.cursor [("P2", "LocB"); ("P1", "LocA")] w)
    = Raise (ValueError location_exists_msg UniqueViolation) /\
  fst (add_gene_locus_type Pg.cursor
         [("P2", "protein-coding"); ("P1", "protein-coding")] w)
    = Raise (ValueError locus_type_exists_msg UniqueViolation).
Proof.
  intros w. destruct (duplicate_pair_aborts_batch w) as (H1 & H2). split.
  - destruct (H1 [("P2", "LocB"); ("P1", "LocA")] "P1" "LocA" 1 7)
      as [st E];
      [simpl; auto | simpl; auto | simpl; auto | simpl; auto
      | reflexivity |].
    rewrite E. reflexivity.
  - destruct (H2 [("P2", "protein-coding"); ("P1", "protein-coding")]
                "P1" "protein-coding" 1 3) as [st E];
      [simpl; auto | simpl; auto | simpl; auto | reflexivity |].
    rewrite E. reflexivity.
Defined.

(** A sequence on [example_db] whose second triple carries a literal
    already in the table; the first one stays written. *)
(** A cursor whose association writes fail on malformed input. *)
Lemma link_write_error_is_link_failure_witness :
  let cur := Mock.cursor (Mock.on_link_write malformed) 1 [7] in
  let w := Mock.start (Mock.on_link_write malformed) 1 [7] in
  fst (add_gene_name cur [("P1", "kinase", "approved")] w)
    = Raise (RuntimeError (link_error_msg 7 "approved" "P1") (Some malformed))
  /\
  fst (add_gene_symbol cur [("P1", "KIN1", "approved")] w)
    = Raise (RuntimeError (link_error_msg 7 "approved" "P1") (Some malformed)).
Proof.
  intros cur w. destruct (link_write_error_is_link_failure cur w) as (H1 & H2).
  split.
  - refine (f_equal fst (H1 [] ("P1", "kinase", "approved") []
                           _ _ _ _ _ _ _ _ _)); by_computation.
  - refine (f_equal fst (H2 [] ("P1", "KIN1", "approved") []
                           _ _ _ _ _ _ _ _ _)); by_computation.
Defined.

(** An unknown gene on [example_db]: the row of [ligase], the name
    given for [P9], is created and no association links it. *)
Lemma unresolved_gene_leaves_orphan_witness :
  let w := Pg.connect example_db in
  (exists id u w',
     add_gene_name Pg.cursor some_unknown_names w = (Return tt, w') /\
     Pg.name_id_seq (db_of w) <= id /\
     In (id, "ligase") (Pg.name (db_of w')) /\
     (forall r, In r (Pg.gene_has_name (db_of w')) -> Pg.dim_id r = id ->
        In r (Pg.gene_has_name (db_of w))) /\
     warnings w' = warnings w ++ [name_warning u] /\
     In ("P9", "ligase") u /\
     occurs "(P9, ligase)" (name_warning u)) /\
  (exists id u w',
     add_gene_symbol Pg.cursor some_unknown_symbols w = (Return tt, w') /\
     Pg.symbol_id_seq (db_of w) <= id /\
     In (id, "LIG1") (Pg.symbol (db_of w')) /\
     (forall r, In r (Pg.gene_has_symbol (db_of w')) -> Pg.dim_id r = id ->
        In r (Pg.gene_has_symbol (db_of w))) /\
     warnings w' = warnings w ++ [symbol_warning u] /\
     In ("P9", "LIG1") u /\
     occurs "(P9, LIG1)" (symbol_warning u)).
Proof.
  intros w. destruct (unresolved_gene_leaves_orphan w) as (H1 & H2). split.
  - edestruct (H1 some_unknown_names 1
                 (snd (for_each Pg.cursor (link_name Pg.cursor)
                         some_unknown_names 0 w))
                 ("P9", "ligase", "alias"))
      as (id & u & w' & A & B & C & D & E & F & _ & O);
      [by_computation | distinct_keys | simpl; auto
      | simpl; intuition discriminate |].
    exists id, u, w'.
    split; [exact A|]. split; [exact B|]. split; [exact C|].
    split; [exact D|]. split; [exact E|]. split; [exact F|exact O].
  - edestruct (H2 some_unknown_symbols 1
                 (snd (for_each Pg.cursor (link_symbol Pg.cursor)
                         some_unknown_symbols 0 w))
                 ("P9", "LIG1", "alias"))
      as (id & u & w' & A & B & C & D & E & F & _ & O);
      [by_computation | distinct_keys | simpl; auto
      | simpl; intuition discriminate |].
    exists id, u, w'.
    split; [exact A|]. split; [exact B|]. split; [exact C|].
    split; [exact D|]. split; [exact E|]. split; [exact F|exact O].
Defined.

(** ** The scenarios of the specification *)

(** Scenario A: both genes and both locations exist and nothing is linked;
    the call returns and two rows are persisted. *)
Example scenario_a_two_rows_persisted :
  let r := add_gene_location Pg.cursor known_locations (Pg.connect example_db) in
  fst r = Return tt /\
  Pg.persisted Pg.GeneHasLocation (db_of (snd r)) = [[1; 7]; [2; 8]] /\
  warnings (snd r) = [].
Proof. repeat split. Qed.

(** Scenario B: the name of the triple is already in [name]; the only
    statement sent is the insert into [name]. *)
Example scenario_b_duplicate_name :
  let r := add_gene_name Pg.cursor [("P1", "cytochrome P450", "approved")]
             (Pg.connect example_db) in
  fst r =
    Raise (ValueError (name_exists_msg "cytochrome P450") UniqueViolation) /\
  executed (snd r) = [Execute (InsertName "cytochrome P450")] /\
  warnings (snd r) = [].
Proof. repeat split. Qed.

(** Scenario C: the affected count is 2 and the warning lists exactly the
    pair of the unknown gene. *)
Example scenario_c_one_unknown_gene :
  let w := Pg.connect example_db in
  cur_rowcount Pg.cursor
    (snd (cur_executemany Pg.cursor (location_inserts scenario_c) (cstate w)))
    = 2 /\
  fst (add_gene_location Pg.cursor scenario_c w) = Return tt /\
  warnings (snd (add_gene_location Pg.cursor scenario_c w))
    = ["The following rows were not inserted into the gene_has_location table:"
       +++ String "010" "(P9, LocB)"].
Proof. repeat split. Qed.

(** * Further properties of the inserters *)

(** ** For every cursor *)

(** X1: only SQLSTATE 23505 is translated: any other [psycopg2.Error] of the
    batched write, or of the insert into the dimension table, leaves the
    function as it is, with the failed statement as the last one sent. *)
Theorem other_write_errors_propagate (cur : Cursor) (w : world cur) :
  (forall data c st,
      cur_executemany cur (location_inserts data) (cstate w)
        = (Some (OtherPgError c), st) ->
      add_gene_location cur data w =
        (Raise (Psycopg2Error (OtherPgError c)),
         after_batch w (location_inserts data) st)) /\
  (forall data c st,
      cur_executemany cur (locus_type_inserts data) (cstate w)
        = (Some (OtherPgError c), st) ->
      add_gene_locus_type cur data w =
        (Raise (Psycopg2Error (OtherPgError c)),
         after_batch w (locus_type_inserts data) st)) /\
  (forall pre t post cnt w1 c st,
      for_each cur (link_name cur) pre 0 w = (Return cnt, w1) ->
      cur_execute cur (InsertName (literal_of t)) (cstate w1)
        = (Some (OtherPgError c), st) ->
      add_gene_name cur (pre ++ t :: post) w =
        (Raise (Psycopg2Error (OtherPgError c)),
         World st (executed w1 ++ [Execute (InsertName (literal_of t))])
               (warnings w1))) /\
  (forall pre t post cnt w1 c st,
      for_each cur (link_symbol cur) pre 0 w = (Return cnt, w1) ->
      cur_execute cur (InsertSymbol (literal_of t)) (cstate w1)
        = (Some (OtherPgError c), st) ->
      add_gene_symbol cur (pre ++ t :: post) w =
        (Raise (Psycopg2Error (OtherPgError c)),
         World st (executed w1 ++ [Execute (InsertSymbol (literal_of t))])
               (warnings w1))).
Proof.
  split; [|split; [|split]].
  - intros data c st H. run. rewrite H. reflexivity.
  - intros data c st H. run. rewrite H. reflexivity.
  - intros pre t post cnt w1 c st Hpre H.
    unfold add_gene_name, bind at 1. rewrite for_each_app, Hpre. simpl.
    unfold bind at 1, link_name, bind at 1, insert_name, try_except,
      bind at 1, execute.
    rewrite H. reflexivity.
  - intros pre t post cnt w1 c st Hpre H.
    unfold add_gene_symbol, bind at 1. rewrite for_each_app, Hpre. simpl.
    unfold bind at 1, link_symbol, bind at 1, insert_symbol, try_except,
      bind at 1, execute.
    rewrite H. reflexivity.
Qed.

Lemma other_write_errors_propagate_witness :
  let cur := Broken.cursor malformed in
  let w := Broken.start malformed in
  fst (add_gene_location cur known_locations w)
    = Raise (Psycopg2Error malformed) /\
  fst (add_gene_locus_type cur known_locus_types w)
    = Raise (Psycopg2Error malformed) /\
  fst (add_gene_name cur new_names w) = Raise (Psycopg2Error malformed) /\
  fst (add_gene_symbol cur new_symbols w) = Raise (Psycopg2Error malformed).
Proof.
  intros cur w.
  destruct (other_write_errors_propagate cur w) as (H1 & H2 & H3 & H4).
  split; [|split; [|split]].
  - exact (f_equal fst (H1 known_locations _ _ eq_refl)).
  - exact (f_equal fst (H2 known_locus_types _ _ eq_refl)).
  - exact (f_equal fst
             (H3 [] ("P1", "kinase", "approved")
                 [("P2", "ligase", "alias")] _ _ _ _ eq_refl eq_refl)).
  - exact (f_equal fst
             (H4 [] ("P1", "KIN1", "approved")
                 [("P2", "LIG1", "alias")] _ _ _ _ eq_refl eq_refl)).
Defined.

Lemma tail_discipline {cur : Cursor} (w w2 : world cur)
    (u : list (string * string)) (msg err : string) :
  warnings w2 = warnings w ->
  warning_discipline w
    (match u with
     | _ :: _ => bind cur (warning cur msg) (fun _ => ret cur tt)
     | [] => raise cur (RuntimeError err None)
     end w2).
Proof.
  intros W. destruct u; unfold warning_discipline; simpl; auto.
  right. exists msg. now rewrite W.
Qed.

Lemma audited_discipline {cur : Cursor} {A} (w w1 : world cur) table
    (query : A -> statement) key data (msg : list (string * string) -> string)
    (err : string) :
  warnings w1 = warnings w ->
  warning_discipline w
    (bind cur (find_unsuccessful cur table query key data)
       (fun u =>
          match u with
          | _ :: _ => bind cur (warning cur (msg u)) (fun _ => ret cur tt)
          | [] => raise cur (RuntimeError err None)
          end) w1).
Proof.
  intros W. unfold bind at 1.
  destruct (find_unsuccessful cur table query key data w1) as [[u|e] w2] eqn:E;
    pose proof (find_unsuccessful_warnings _ _ _ _ _ _ _ _ E) as W2.
  - apply tail_discipline. congruence.
  - unfold warning_discipline. simpl. congruence.
Qed.

(** X2: a call logs at most one warning, and none when it raises: the mismatch
    error and the warning exclude each other. *)
Theorem at_most_one_warning (cur : Cursor) (w : world cur) :
  (forall data, warning_discipline w (add_gene_location cur data w)) /\
  (forall data, warning_discipline w (add_gene_locus_type cur data w)) /\
  (forall data, warning_discipline w (add_gene_name cur data w)) /\
  (forall data, warning_discipline w (add_gene_symbol cur data w)).
Proof.
  split; [|split; [|split]]; intros data.
  - unfold add_gene_location, bind at 1, try_except, executemany.
    destruct (cur_executemany cur _ (cstate w)) as [[e|] st].
    + destruct e; unfold warning_discipline; reflexivity.
    + unfold bind at 1, rowcount. simpl.
      destruct (_ =? _); [unfold warning_discipline; simpl; auto|].
      now apply audited_discipline.
  - unfold add_gene_locus_type, bind at 1, try_except, executemany.
    destruct (cur_executemany cur _ (cstate w)) as [[e|] st].
    + destruct e; unfold warning_discipline; reflexivity.
    + unfold bind at 1, rowcount. simpl.
      destruct (_ =? _); [unfold warning_discipline; simpl; auto|].
      apply (audited_discipline w _ _ _ _ _ locus_type_warning). reflexivity.
  - unfold add_gene_name, bind at 1.
    destruct (for_each cur (link_name cur) data 0 w) as [[cnt|e] w1] eqn:E;
      pose proof (proj1 (write_only_for_each cur _ data
                           (write_only_link_name cur) _ _ _ _ E)) as W.
    + destruct (negb _); [|unfold warning_discipline; simpl; auto].
      now apply audited_discipline.
    + unfold warning_discipline. simpl. exact W.
  - unfold add_gene_symbol, bind at 1.
    destruct (for_each cur (link_symbol cur) data 0 w) as [[cnt|e] w1] eqn:E;
      pose proof (proj1 (write_only_for_each cur _ data
                           (write_only_link_symbol cur) _ _ _ _ E)) as W.
    + destruct (negb _); [|unfold warning_discipline; simpl; auto].
      now apply audited_discipline.
    + unfold warning_discipline. simpl. exact W.
Qed.

Lemma check_item_trace {cur : Cursor} {A} (query : A -> statement) key set :
  reads_succeed cur -> (forall a, is_select (query a) = true) ->
  forall (a : A) acc (w : world cur), exists acc' st',
    check_item cur query key set acc a w =
      (Return acc',
       World st' (executed w ++ [Execute (query a)]) (warnings w)).
Proof.
  intros Hr Hq a acc w. unfold check_item, bind, execute, fetchone.
  pose proof (Hr (query a) (cstate w) (Hq a)) as H.
  destruct (cur_execute cur (query a) (cstate w)) as [r st].
  simpl in H. subst r. simpl.
  destruct (cur_fetchone cur st) as [res st'].
  destruct (not_in res set); unfold ret; eauto.
Qed.

Lemma check_loop_trace {cur : Cursor} {A} (query : A -> statement) key set :
  reads_succeed cur -> (forall a, is_select (query a) = true) ->
  forall (data : list A) acc (w : world cur), exists u w',
    for_each cur (check_item cur query key set) data acc w = (Return u, w') /\
    executed w' = executed w ++ map (fun a => Execute (query a)) data /\
    warnings w' = warnings w.
Proof.
  intros Hr Hq. induction data as [|a data IH]; intros acc w.
  - exists acc, w. simpl. rewrite app_nil_r. auto.
  - destruct (check_item_trace query key set Hr Hq a acc w)
      as (acc' & st' & E1).
    simpl. unfold bind. rewrite E1.
    destruct (IH acc' (World st' (executed w ++ [Execute (query a)])
                             (warnings w))) as (u & w2 & E & X & W).
    exists u, w2. rewrite E, X, W. simpl. rewrite <- app_assoc. auto.
Qed.

Lemma find_unsuccessful_trace {cur : Cursor} {A} table
    (query : A -> statement) key :
  reads_succeed cur -> is_select table = true ->
  (forall a, is_select (query a) = true) ->
  forall (data : list A) (w : world cur), exists u w',
    find_unsuccessful cur table query key data w = (Return u, w') /\
    executed w' =
      executed w ++ Execute table :: map (fun a => Execute (query a)) data /\
    warnings w' = warnings w.
Proof.
  intros Hr Ht Hq data w.
  unfold find_unsuccessful, bind at 1, execute.
  pose proof (Hr table (cstate w) Ht) as H.
  destruct (cur_execute cur table (cstate w)) as [r st].
  simpl in H. subst r.
  unfold bind at 1, fetchall. simpl.
  destruct (cur_fetchall cur st) as [rows st'].
  match goal with
  | |- context [for_each _ _ data [] ?w'] =>
      destruct (check_loop_trace query key rows Hr Hq data [] w')
        as (u & w2 & E & X & W)
  end.
  exists u, w2. rewrite E, X, W. simpl. rewrite <- app_assoc. auto.
Qed.

(** X3: on a cursor whose reads do not fail, a count different from
    [len(data)] costs exactly one read of the association table followed
    by one query per input item, in input order, all after the write;
    this holds whether the call then warns or raises. *)
Theorem audit_reads_each_item_once (cur : Cursor) (w : world cur) :
  reads_succeed cur ->
  (forall data st,
      cur_executemany cur (location_inserts data) (cstate w) = (None, st) ->
      cur_rowcount cur st <> Z.of_nat (List.length data) ->
      executed (snd (add_gene_location cur data w)) =
        executed w ++ Executemany (location_inserts data)
          :: Execute SelectGeneHasLocation
          :: map (fun d => Execute (location_ids d)) data) /\
  (forall data st,
      cur_executemany cur (locus_type_inserts data) (cstate w) = (None, st) ->
      cur_rowcount cur st <> Z.of_nat (List.length data) ->
      executed (snd (add_gene_locus_type cur data w)) =
        executed w ++ Executemany (locus_type_inserts data)
          :: Execute SelectGeneHasLocusType
          :: map (fun d => Execute (locus_type_ids d)) data) /\
  (forall data cnt w1,
      for_each cur (link_name cur) data 0 w = (Return cnt, w1) ->
      cnt <> Z.of_nat (List.length data) ->
      executed (snd (add_gene_name cur data w)) =
        executed w1 ++ Execute SelectGeneHasName
          :: map (fun t => Execute (name_ids t)) data) /\
  (forall data cnt w1,
      for_each cur (link_symbol cur) data 0 w = (Return cnt, w1) ->
      cnt <> Z.of_nat (List.length data) ->
      executed (snd (add_gene_symbol cur data w)) =
        executed w1 ++ Execute SelectGeneHasSymbol
          :: map (fun t => Execute (symbol_ids t)) data).
Proof.
  intros Hr. split; [|split; [|split]].
  - intros data st H H0.
    destruct (find_unsuccessful_trace SelectGeneHasLocation location_ids
                (fun d => d) Hr eq_refl (fun a => eq_refl) data
                (after_batch w (location_inserts data) st))
      as (u & w' & E & X & _).
    rewrite (add_gene_location_audited _ _ _ _ _ _ H H0 E).
    destruct u; simpl; rewrite X; simpl; rewrite <- app_assoc; reflexivity.
  - intros data st H H0.
    destruct (find_unsuccessful_trace SelectGeneHasLocusType locus_type_ids
                (fun d => d) Hr eq_refl (fun a => eq_refl) data
                (after_batch w (locus_type_inserts data) st))
      as (u & w' & E & X & _).
    rewrite (add_gene_locus_type_audited _ _ _ _ _ _ H H0 E).
    destruct u; simpl; rewrite X; simpl; rewrite <- app_assoc; reflexivity.
  - intros data cnt w1 H H0.
    destruct (find_unsuccessful_trace SelectGeneHasName name_ids key_of
                Hr eq_refl (fun a => eq_refl) data w1)
      as (u & w' & E & X & _).
    rewrite (add_gene_name_audited _ _ _ _ _ _ _ H H0 E).
    destruct u; simpl; rewrite X; reflexivity.
  - intros data cnt w1 H H0.
    destruct (find_unsuccessful_trace SelectGeneHasSymbol symbol_ids key_of
                Hr eq_refl (fun a => eq_refl) data w1)
      as (u & w' & E & X & _).
    rewrite (add_gene_symbol_audited _ _ _ _ _ _ _ H H0 E).
    destruct u; simpl; rewrite X; reflexivity.
Qed.

Lemma store_reads_succeed : reads_succeed Pg.cursor.
Proof. intros q st H. destruct q; try discriminate H; reflexivity. Qed.

Lemma audit_reads_each_item_once_witness :
  let w := Pg.connect example_db in
  executed (snd (add_gene_location Pg.cursor some_unknown_locations w)) =
    [Executemany (location_inserts some_unknown_locations);
     Execute SelectGeneHasLocation;
     Execute (SelectGeneLocationIds "P1" "LocA");
     Execute (SelectGeneLocationIds "P9" "LocB")] /\
  List.length
    (executed (snd (add_gene_name Pg.cursor some_unknown_names w))) = 7%nat.
Proof.
  intros w.
  destruct (audit_reads_each_item_once Pg.cursor w store_reads_succeed)
    as (H1 & _ & H3 & _).
  split.
  - refine (H1 some_unknown_locations _ _ _);
      [by_computation | vm_compute; discriminate].
  - erewrite (H3 some_unknown_names); cycle 1;
      [by_computation | vm_compute; discriminate | reflexivity].
Defined.

(** ** On the store: what the batched inserters write *)

Lemma exec_batch q j f s :
  batch_of q = Some (j, f) -> Pg.exec q s = Pg.insert_select j (f (Pg.db s)) s.
Proof. destruct q; simpl; intros H; inversion H; reflexivity. Qed.

Lemma batch_rows_stable q j f d d' :
  batch_of q = Some (j, f) -> extends d d' -> f d' = f d.
Proof.
  intros H (G & L & A & K & _).
  destruct q; simpl in H; inversion H; subst; simpl;
    unfold Pg.location_links, Pg.locus_type_links;
    rewrite ?G, ?L, ?A, ?K; reflexivity.
Qed.

Lemma exec_many_extends qs total s r s' :
  Pg.exec_many qs total s = (r, s') -> extends (Pg.db s) (Pg.db s').
Proof.
  apply (exec_many_T extends extends_refl extends_trans exec_extends).
Qed.

Lemma insert_select_done j rows s s' :
  Pg.insert_select j rows s = (None, s') ->
  Pg.rows_of j (Pg.db s') = Pg.rows_of j (Pg.db s) ++ rows.
Proof.
  unfold Pg.insert_select.
  destruct (Pg.insert_rows _ rows) as [table'|] eqn:E; [|discriminate].
  intros H. inversion H; subst. simpl. rewrite rows_of_set_rows.
  destruct (Pg.junction_eq_dec j j); [|congruence].
  now apply insert_rows_app.
Qed.

(** Every row a completed batch was to insert is in the table. *)
Lemma exec_many_written qs : forall total s s',
  Pg.exec_many qs total s = (None, s') ->
  forall q j f, In q qs -> batch_of q = Some (j, f) ->
    incl (f (Pg.db s)) (Pg.rows_of j (Pg.db s')).
Proof.
  induction qs as [|q0 qs IH]; intros total s s' H q j f Hin Hb; simpl in H.
  - destruct Hin.
  - destruct (Pg.exec q0 s) as [[e|] s1] eqn:E; [discriminate|].
    destruct Hin as [->|Hin].
    + rewrite (exec_batch _ _ _ _ Hb) in E. apply insert_select_done in E.
      apply exec_many_extends in H. destruct H as (_ & _ & _ & _ & R & _).
      intros r Hr. apply (R j). rewrite E. apply in_or_app. now right.
    + rewrite <- (batch_rows_stable _ _ _ _ _ Hb (exec_extends _ _ _ _ E)).
      eapply IH; eauto.
Qed.

(** Every row of a junction after a batch was there before or is a row
    one of its statements was to insert. *)
Lemma exec_many_new_rows qs : forall total s r s' j row,
  Pg.exec_many qs total s = (r, s') ->
  Forall (fun q => batch_of q <> None) qs ->
  In row (Pg.rows_of j (Pg.db s')) ->
  In row (Pg.rows_of j (Pg.db s)) \/
  exists q f, In q qs /\ batch_of q = Some (j, f) /\ In row (f (Pg.db s)).
Proof.
  induction qs as [|q0 qs IH]; intros total s r s' j row H F Hr; simpl in H.
  - inversion H; subst. now left.
  - inversion F as [|? ? F0 F']; subst.
    destruct (batch_of q0) as [[j0 f0]|] eqn:B; [|congruence].
    destruct (Pg.exec q0 s) as [[e|] s1] eqn:E.
    + inversion H; subst. apply exec_error in E as [_ ->]. now left.
    + pose proof (exec_extends _ _ _ _ E) as X.
      destruct (IH _ _ _ _ _ _ H F' Hr) as [H1|(q & f & Hq & Hb & Hf)].
      * rewrite (exec_batch _ _ _ _ B) in E.
        unfold Pg.insert_select in E.
        destruct (Pg.insert_rows _ _) as [table'|] eqn:I; [|discriminate].
        inversion E; subst. simpl in H1. rewrite rows_of_set_rows in H1.
        destruct (Pg.junction_eq_dec j0 j) as [<-|_]; [|now left].
        apply insert_rows_app in I. subst table'.
        apply in_app_or in H1 as [H1|H1]; [now left|].
        right. exists q0, f0. simpl. auto.
      * right. exists q, f. rewrite <- (batch_rows_stable _ _ _ _ _ Hb X).
        simpl. auto.
Qed.

Lemma location_links_elim d p l r :
  In r (Pg.location_links d p l) ->
  exists g x, r = plain_link g x /\ In (g, p) (Pg.gene d) /\
              In (x, l) (Pg.location d) /\
              In (1, x) (Pg.assembly_has_location d).
Proof.
  unfold Pg.location_links. intros Hr.
  apply in_flat_map in Hr as [[g p'] [Hg Hr]].
  apply in_flat_map in Hr as [[x l'] [Hx Hr]].
  apply in_flat_map in Hr as [[a y] [Ha Hr]]. simpl in Hr.
  destruct (p' =? p)%string eqn:E1; simpl in Hr; [|tauto].
  destruct (l' =? l)%string eqn:E2; simpl in Hr; [|tauto].
  destruct (a =? 1) eqn:E3; simpl in Hr; [|tauto].
  destruct (x =? y) eqn:E4; simpl in Hr; [|tauto].
  apply String.eqb_eq in E1, E2. apply Z.eqb_eq in E3, E4. subst.
  destruct Hr as [<-|[]]. exists g, y. auto.
Qed.

Lemma locus_type_links_elim d p l r :
  In r (Pg.locus_type_links d p l) ->
  exists g x, r = plain_link g x /\ In (g, p) (Pg.gene d) /\
              In (x, l) (Pg.locus_type d).
Proof.
  unfold Pg.locus_type_links. intros Hr.
  apply in_flat_map in Hr as [[g p'] [Hg Hr]].
  apply in_flat_map in Hr as [[x l'] [Hx Hr]]. simpl in Hr.
  destruct (p' =? p)%string eqn:E1; simpl in Hr; [|tauto].
  destruct (l' =? l)%string eqn:E2; simpl in Hr; [|tauto].
  apply String.eqb_eq in E1, E2. subst.
  destruct Hr as [<-|[]]. exists g, x. auto.
Qed.

(** Whatever the outcome, the database at the end of a batched inserter
    is the one its write left: the audit writes nothing. *)
Lemma add_gene_location_final_db data w :
  db_of (snd (add_gene_location Pg.cursor data w))
  = after_location_write data w.
Proof.
  unfold after_location_write, add_gene_location, bind at 1, try_except,
    executemany. simpl.
  destruct (Pg.exec_many (location_inserts data) 0 (cstate w))
    as [[e|] st] eqn:E.
  - destruct e; reflexivity.
  - unfold bind at 1, rowcount. simpl.
    destruct (_ =? _); [reflexivity|].
    match goal with
    | |- context [find_unsuccessful _ _ _ _ _] =>
        destruct (find_unsuccessful_on_store Pg.GeneHasLocation
                    SelectGeneHasLocation location_ids (fun d => d)
                    (fun s => eq_refl) (fun a s => eq_refl) data
                    (World (cur := Pg.cursor) st
                       (executed w ++ [Executemany (location_inserts data)])
                       (warnings w))) as [s' [D X]]
    end.
    unfold bind. rewrite X. unfold db_of in *. simpl in *.
    destruct (filter _ _); simpl; exact D.
Qed.

Lemma add_gene_locus_type_final_db data w :
  db_of (snd (add_gene_locus_type Pg.cursor data w))
  = after_locus_type_write data w.
Proof.
  unfold after_locus_type_write, add_gene_locus_type, bind at 1, try_except,
    executemany. simpl.
  destruct (Pg.exec_many (locus_type_inserts data) 0 (cstate w))
    as [[e|] st] eqn:E.
  - destruct e; reflexivity.
  - unfold bind at 1, rowcount. simpl.
    destruct (_ =? _); [reflexivity|].
    match goal with
    | |- context [find_unsuccessful _ _ _ _ _] =>
        destruct (find_unsuccessful_on_store Pg.GeneHasLocusType
                    SelectGeneHasLocusType locus_type_ids (fun d => d)
                    (fun s => eq_refl) (fun a s => eq_refl) data
                    (World (cur := Pg.cursor) st
                       (executed w ++ [Executemany (locus_type_inserts data)])
                       (warnings w))) as [s' [D X]]
    end.
    unfold bind. rewrite X. unfold db_of in *. simpl in *.
    destruct (filter _ _); simpl; exact D.
Qed.

(** A batched inserter that returns has completed its write. *)
Lemma add_gene_location_returned data w :
  fst (add_gene_location Pg.cursor data w) = Return tt ->
  exists st, Pg.exec_many (location_inserts data) 0 (cstate w) = (None, st).
Proof.
  unfold add_gene_location, bind at 1, try_except, executemany. simpl.
  destruct (Pg.exec_many _ 0 (cstate w)) as [[e|] st]; [|eauto].
  destruct e; discriminate.
Qed.

Lemma add_gene_locus_type_returned data w :
  fst (add_gene_locus_type Pg.cursor data w) = Return tt ->
  exists st, Pg.exec_many (locus_type_inserts data) 0 (cstate w) = (None, st).
Proof.
  unfold add_gene_locus_type, bind at 1, try_except, executemany. simpl.
  destruct (Pg.exec_many _ 0 (cstate w)) as [[e|] st]; [|eauto].
  destruct e; discriminate.
Qed.

Lemma has_pair_in r rows :
  In r rows -> Pg.has_pair (Pg.gene_id r) (Pg.dim_id r) rows = true.
Proof.
  intros H. unfold Pg.has_pair. apply existsb_exists. exists r.
  now rewrite !Z.eqb_refl.
Qed.

Lemma inserters_respect_extends :
  (forall data w,
      extends (db_of w) (db_of (snd (add_gene_location Pg.cursor data w)))) /\
  (forall data w,
      extends (db_of w) (db_of (snd (add_gene_locus_type Pg.cursor data w)))) /\
  (forall data w,
      extends (db_of w) (db_of (snd (add_gene_name Pg.cursor data w)))) /\
  (forall data w,
      extends (db_of w) (db_of (snd (add_gene_symbol Pg.cursor data w)))).
Proof.
  destruct (pg_inserters_respect extends extends_refl extends_trans
              exec_extends) as (H1 & H2 & H3 & H4).
  split; [|split; [|split]]; intros data w.
  - destruct (add_gene_location _ data w) as [r w'] eqn:E.
    exact (H1 _ _ _ _ E).
  - destruct (add_gene_locus_type _ data w) as [r w'] eqn:E.
    exact (H2 _ _ _ _ E).
  - destruct (add_gene_name _ data w) as [r w'] eqn:E.
    exact (H3 _ _ _ _ E).
  - destruct (add_gene_symbol _ data w) as [r w'] eqn:E.
    exact (H4 _ _ _ _ E).
Qed.

Lemma location_batch_links data s st k g x :
  Pg.exec_many (location_inserts data) 0 s = (None, st) ->
  In k data ->
  In (g, fst k) (Pg.gene (Pg.db s)) ->
  In (x, snd k) (Pg.location (Pg.db s)) ->
  In (1, x) (Pg.assembly_has_location (Pg.db s)) ->
  linked Pg.GeneHasLocation (Pg.db st) k.
Proof.
  intros E Hk Hg Hx Ha.
  pose proof (exec_many_extends _ _ _ _ _ E) as (G & L & _).
  exists g, x. simpl. rewrite G, L. repeat split; auto.
  change (Pg.gene_has_location (Pg.db st))
    with (Pg.rows_of Pg.GeneHasLocation (Pg.db st)).
  apply (has_pair_in (plain_link g x)).
  apply (exec_many_written _ _ _ _ E
           (InsertGeneHasLocation (fst k) (snd k)) _ _
           (in_map (fun d => InsertGeneHasLocation (fst d) (snd d)) _ _ Hk)
           eq_refl).
  now apply location_links_in.
Qed.

Lemma locus_type_batch_links data s st k g x :
  Pg.exec_many (locus_type_inserts data) 0 s = (None, st) ->
  In k data ->
  In (g, fst k) (Pg.gene (Pg.db s)) ->
  In (x, snd k) (Pg.locus_type (Pg.db s)) ->
  linked Pg.GeneHasLocusType (Pg.db st) k.
Proof.
  intros E Hk Hg Hx.
  pose proof (exec_many_extends _ _ _ _ _ E) as (G & _ & _ & K & _).
  exists g, x. simpl. rewrite G, K. repeat split; auto.
  change (Pg.gene_has_locus_type (Pg.db st))
    with (Pg.rows_of Pg.GeneHasLocusType (Pg.db st)).
  apply (has_pair_in (plain_link g x)).
  apply (exec_many_written _ _ _ _ E
           (InsertGeneHasLocusType (fst k) (snd k)) _ _
           (in_map (fun d => InsertGeneHasLocusType (fst d) (snd d)) _ _ Hk)
           eq_refl).
  now apply locus_type_links_in.
Qed.

(** X6: insert, then look up: when a batched inserter returns, every item of
    the batch whose gene and dimension row exist (the location being of
    assembly 1) resolves to a persisted association pair, with or
    without a warning for other items. *)
Theorem returned_batch_is_linked (w : world Pg.cursor) :
  (forall data k g x,
      fst (add_gene_location Pg.cursor data w) = Return tt ->
      In k data ->
      In (g, fst k) (Pg.gene (db_of w)) ->
      In (x, snd k) (Pg.location (db_of w)) ->
      In (1, x) (Pg.assembly_has_location (db_of w)) ->
      linked Pg.GeneHasLocation
        (db_of (snd (add_gene_location Pg.cursor data w))) k) /\
  (forall data k g x,
      fst (add_gene_locus_type Pg.cursor data w) = Return tt ->
      In k data ->
      In (g, fst k) (Pg.gene (db_of w)) ->
      In (x, snd k) (Pg.locus_type (db_of w)) ->
      linked Pg.GeneHasLocusType
        (db_of (snd (add_gene_locus_type Pg.cursor data w))) k).
Proof.
  split.
  - intros data k g x Hret Hk Hg Hx Ha.
    destruct (add_gene_location_returned _ _ Hret) as [st E].
    rewrite add_gene_location_final_db. unfold after_location_write.
    rewrite E. simpl.
    exact (location_batch_links data (cstate w) st k g x E Hk Hg Hx Ha).
  - intros data k g x Hret Hk Hg Hx.
    destruct (add_gene_locus_type_returned _ _ Hret) as [st E].
    rewrite add_gene_locus_type_final_db. unfold after_locus_type_write.
    rewrite E. simpl.
    exact (locus_type_batch_links data (cstate w) st k g x E Hk Hg Hx).
Qed.

Lemma returned_batch_is_linked_witness :
  let w := Pg.connect example_db in
  linked Pg.GeneHasLocation
    (db_of (snd (add_gene_location Pg.cursor some_unknown_locations w)))
    ("P1", "LocA") /\
  linked Pg.GeneHasLocusType
    (db_of (snd (add_gene_locus_type Pg.cursor some_unknown_locus_types w)))
    ("P1", "protein-coding").
Proof.
  intros w. destruct (returned_batch_is_linked w) as (H1 & H2). split.
  - apply (H1 some_unknown_locations ("P1", "LocA") 1 7);
      [by_computation | simpl; auto | simpl; auto | simpl; auto | simpl; auto].
  - apply (H2 some_unknown_locus_types ("P1", "protein-coding") 1 3);
      [by_computation | simpl; auto | simpl; auto | simpl; auto].
Defined.

Lemma batch_statements_are_batches (data : list (string * string)) :
  Forall (fun q => batch_of q <> None) (location_inserts data) /\
  Forall (fun q => batch_of q <> None) (locus_type_inserts data).
Proof.
  split; apply Forall_forall; intros q Hq; apply in_map_iff in Hq;
    destruct Hq as [d [<- _]]; discriminate.
Qed.

(** X7: a batched inserter writes association rows for resolved items only:
    every row of its table that was not there before the call is the
    link of a gene and a dimension row named by an item of the batch (the
    location being of assembly 1).  It invents no gene and no dimension
    row, whatever the outcome. *)
Theorem batch_writes_resolved_pairs_only (w : world Pg.cursor) :
  (forall data r,
      In r (Pg.gene_has_location
              (db_of (snd (add_gene_location Pg.cursor data w)))) ->
      In r (Pg.gene_has_location (db_of w)) \/
      exists k g x,
        In k data /\ In (g, fst k) (Pg.gene (db_of w)) /\
        In (x, snd k) (Pg.location (db_of w)) /\
        In (1, x) (Pg.assembly_has_location (db_of w)) /\
        r = plain_link g x) /\
  (forall data r,
      In r (Pg.gene_has_locus_type
              (db_of (snd (add_gene_locus_type Pg.cursor data w)))) ->
      In r (Pg.gene_has_locus_type (db_of w)) \/
      exists k g x,
        In k data /\ In (g, fst k) (Pg.gene (db_of w)) /\
        In (x, snd k) (Pg.locus_type (db_of w)) /\
        r = plain_link g x).
Proof.
  split; intros data r Hr.
  - rewrite add_gene_location_final_db in Hr. unfold after_location_write in Hr.
    destruct (Pg.exec_many (location_inserts data) 0 (cstate w))
      as [e st] eqn:E. simpl in Hr.
    destruct (exec_many_new_rows _ _ _ _ _ Pg.GeneHasLocation r E
                (proj1 (batch_statements_are_batches data)) Hr)
      as [H|(q & f & Hq & Hb & Hf)]; [now left|right].
    apply in_map_iff in Hq as [k [<- Hk]]. simpl in Hb.
    inversion Hb; subst. apply location_links_elim in Hf.
    destruct Hf as (g & x & -> & Hg & Hx & Ha). exists k, g, x. auto.
  - rewrite add_gene_locus_type_final_db in Hr.
    unfold after_locus_type_write in Hr.
    destruct (Pg.exec_many (locus_type_inserts data) 0 (cstate w))
      as [e st] eqn:E. simpl in Hr.
    destruct (exec_many_new_rows _ _ _ _ _ Pg.GeneHasLocusType r E
                (proj2 (batch_statements_are_batches data)) Hr)
      as [H|(q & f & Hq & Hb & Hf)]; [now left|right].
    apply in_map_iff in Hq as [k [<- Hk]]. simpl in Hb.
    inversion Hb; subst. apply locus_type_links_elim in Hf.
    destruct Hf as (g & x & -> & Hg & Hx). exists k, g, x. auto.
Qed.

Lemma batch_writes_resolved_pairs_only_witness :
  let w := Pg.connect example_db in
  (In (plain_link 1 7) (Pg.gene_has_location (db_of w)) \/
   exists k g x,
     In k some_unknown_locations /\ In (g, fst k) (Pg.gene (db_of w)) /\
     In (x, snd k) (Pg.location (db_of w)) /\
     In (1, x) (Pg.assembly_has_location (db_of w)) /\
     plain_link 1 7 = plain_link g x) /\
  (In (plain_link 1 3) (Pg.gene_has_locus_type (db_of w)) \/
   exists k g x,
     In k some_unknown_locus_types /\ In (g, fst k) (Pg.gene (db_of w)) /\
     In (x, snd k) (Pg.locus_type (db_of w)) /\
     plain_link 1 3 = plain_link g x).
Proof.
  intros w. destruct (batch_writes_resolved_pairs_only w) as (H1 & H2). split.
  - apply (H1 some_unknown_locations). vm_compute. auto.
  - apply (H2 some_unknown_locus_types). vm_compute. auto.
Defined.

(** The same item twice in one batch: once the first has been written the
    second violates the uniqueness of the pair. *)
Lemma exec_many_repeat qs1 : forall q qs2 total s j f,
  In q qs2 -> batch_of q = Some (j, f) -> f (Pg.db s) <> [] ->
  exists s', Pg.exec_many (qs1 ++ q :: qs2) total s
             = (Some UniqueViolation, s').
Proof.
  induction qs1 as [|q0 qs1 IH]; intros q qs2 total s j f Hin Hb Hne; simpl.
  - destruct (Pg.exec q s) as [[e|] s1] eqn:E.
    + apply exec_error in E as [-> ->]. eauto.
    + pose proof (exec_extends _ _ _ _ E) as X.
      rewrite (exec_batch _ _ _ _ Hb) in E. apply insert_select_done in E.
      apply (exec_many_conflict qs2 _ s1 q Hin).
      destruct (f (Pg.db s)) as [|r rest] eqn:F; [congruence|].
      assert (In r (Pg.rows_of j (Pg.db s1))) as Hr
        by (rewrite E; apply in_or_app; right; now left).
      apply has_pair_in in Hr.
      pose proof (batch_rows_stable _ _ _ _ _ Hb X) as St. rewrite F in St.
      destruct q; simpl in Hb; inversion Hb; subst; simpl;
        exists r; (split; [rewrite St; now left|exact Hr]).
  - destruct (Pg.exec q0 s) as [[e|] s1] eqn:E.
    + apply exec_error in E as [-> ->]. eauto.
    + apply (IH q qs2 _ s1 j f Hin Hb).
      now rewrite (batch_rows_stable _ _ _ _ _ Hb (exec_extends _ _ _ _ E)).
Qed.

(** X8: a batch that names the same resolvable pair twice is rejected as a
    duplicate even when the table holds none of its pairs: the batched
    write raises the uniqueness violation at the second occurrence at the
    latest, and the function raises the [ValueError]. *)
Theorem repeated_pair_aborts_batch (w : world Pg.cursor) :
  (forall a b c k g x,
      In (g, fst k) (Pg.gene (db_of w)) ->
      In (x, snd k) (Pg.location (db_of w)) ->
      In (1, x) (Pg.assembly_has_location (db_of w)) ->
      exists st,
        add_gene_location Pg.cursor (a ++ k :: b ++ k :: c) w =
          (Raise (ValueError location_exists_msg UniqueViolation),
           after_batch w (location_inserts (a ++ k :: b ++ k :: c)) st)) /\
  (forall a b c k g x,
      In (g, fst k) (Pg.gene (db_of w)) ->
      In (x, snd k) (Pg.locus_type (db_of w)) ->
      exists st,
        add_gene_locus_type Pg.cursor (a ++ k :: b ++ k :: c) w =
          (Raise (ValueError locus_type_exists_msg UniqueViolation),
           after_batch w (locus_type_inserts (a ++ k :: b ++ k :: c)) st)).
Proof.
  split.
  - intros a b c k g x Hg Hx Ha.
    destruct (exec_many_repeat (location_inserts a)
                (InsertGeneHasLocation (fst k) (snd k))
                (location_inserts (b ++ k :: c)) 0 (cstate w)
                Pg.GeneHasLocation
                (fun d => Pg.location_links d (fst k) (snd k)))
      as [st E].
    + unfold location_inserts. rewrite map_app. apply in_or_app. right.
      now left.
    + reflexivity.
    + intros N. pose proof (location_links_in _ _ _ _ _ Hg Hx Ha) as H.
      unfold db_of in H. rewrite N in H. destruct H.
    + exists st. run. unfold location_inserts in *.
      rewrite map_app. simpl. rewrite E. reflexivity.
  - intros a b c k g x Hg Hx.
    destruct (exec_many_repeat (locus_type_inserts a)
                (InsertGeneHasLocusType (fst k) (snd k))
                (locus_type_inserts (b ++ k :: c)) 0 (cstate w)
                Pg.GeneHasLocusType
                (fun d => Pg.locus_type_links d (fst k) (snd k)))
      as [st E].
    + unfold locus_type_inserts. rewrite map_app. apply in_or_app. right.
      now left.
    + reflexivity.
    + intros N. pose proof (locus_type_links_in _ _ _ _ _ Hg Hx) as H.
      unfold db_of in H. rewrite N in H. destruct H.
    + exists st. run. unfold locus_type_inserts in *.
      rewrite map_app. simpl. rewrite E. reflexivity.
Qed.

Lemma repeated_pair_aborts_batch_witness :
  let w := Pg.connect example_db in
  fst (add_gene_location Pg.cursor
         [("P1", "LocA"); ("P2", "LocB"); ("P1", "LocA")] w)
    = Raise (ValueError location_exists_msg UniqueViolation) /\
  fst (add_gene_locus_type Pg.cursor
         [("P1", "protein-coding"); ("P1", "protein-coding")] w)
    = Raise (ValueError locus_type_exists_msg UniqueViolation).
Proof.
  intros w. destruct (repeated_pair_aborts_batch w) as (H1 & H2). split.
  - destruct (H1 [] [("P2", "LocB")] [] ("P1", "LocA") 1 7) as [st E];
      [simpl; auto | simpl; auto | simpl; auto |].
    exact (f_equal fst E).
  - destruct (H2 [] [] [] ("P1", "protein-coding") 1 3) as [st E];
      [simpl; auto | simpl; auto |].
    exact (f_equal fst E).
Defined.

(** ** On the store: what the create-then-link inserters write *)

Lemma literal_links_gene d d' id ty p :
  Pg.gene d' = Pg.gene d ->
  Pg.literal_links d' id ty p = Pg.literal_links d id ty p.
Proof. unfold Pg.literal_links. now intros ->. Qed.

Lemma links_of_gene d d' data : forall next,
  Pg.gene d' = Pg.gene d -> links_of d' next data = links_of d next data.
Proof.
  induction data as [|t rest IH]; intros next G; simpl; auto.
  now rewrite (literal_links_gene _ _ _ _ _ G), IH.
Qed.

(** The closed form of a completed loop. *)
Lemma store_loop_closed_form tbl ins lnk xs : forall cnt w c' w',
  for_each Pg.cursor (store_link tbl ins lnk) xs cnt w = (Return c', w') ->
  Pg.literals tbl (db_of w') =
    Pg.literals tbl (db_of w) ++ numbered (Pg.id_seq tbl (db_of w)) xs /\
  Pg.id_seq tbl (db_of w') =
    Pg.id_seq tbl (db_of w) + Z.of_nat (List.length xs) /\
  Pg.rows_of (Pg.junction_of tbl) (db_of w') =
    Pg.rows_of (Pg.junction_of tbl) (db_of w)
    ++ links_of (db_of w) (Pg.id_seq tbl (db_of w)) xs /\
  c' = cnt + Z.of_nat
               (List.length (links_of (db_of w) (Pg.id_seq tbl (db_of w)) xs)).
Proof.
  induction xs as [|x xs IH]; intros cnt w c' w' H; simpl in H.
  - inversion H; subst. simpl. rewrite !app_nil_r. repeat split; lia.
  - unfold bind in H.
    destruct (store_link tbl ins lnk cnt x w) as [[c|e] w1] eqn:E;
      [|discriminate].
    apply store_link_returns in E as (C & G & S & N & R).
    apply IH in H as (N' & S' & R' & C').
    rewrite (links_of_gene _ _ _ _ G) in R', C'.
    rewrite S in N', S', R', C'. simpl.
    rewrite N', N, S', R', R, C', C, <- !app_assoc, length_app. simpl.
    repeat split; lia.
Qed.

(** Each triple of a completed loop has its literal numbered, and each
    gene with its key linked to that number under its classifier. *)
Lemma numbered_links d t data : forall next,
  In t data ->
  exists id,
    In (id, literal_of t) (numbered next data) /\
    forall g, In (g, potri_of t) (Pg.gene d) ->
      In (typed_link g id (type_of t)) (links_of d next data).
Proof.
  induction data as [|t0 rest IH]; intros next Hin; [destruct Hin|].
  destruct Hin as [->|Hin].
  - exists next. simpl. split; [now left|]. intros g Hg.
    apply in_or_app. left. unfold Pg.literal_links.
    apply in_flat_map. exists (g, potri_of t). split; [assumption|].
    simpl. rewrite String.eqb_refl. now left.
  - destruct (IH (next + 1) Hin) as (id & Hn & Hl). exists id. simpl.
    split; [now right|]. intros g Hg. apply in_or_app. right. auto.
Qed.

(** X10: a completed loop of [add_gene_name] or [add_gene_symbol] gives the
    literals of the triples, in input order, the consecutive values of
    the sequence, appends to the association table, per triple, one row
    for each gene carrying its key, and returns as its tally the number
    of association rows written (not the number of triples). *)
Theorem completed_loop_numbers_literals (w : world Pg.cursor) :
  (forall data cnt w1,
      for_each Pg.cursor (link_name Pg.cursor) data 0 w = (Return cnt, w1) ->
      Pg.name (db_of w1) =
        Pg.name (db_of w) ++ numbered (Pg.name_id_seq (db_of w)) data /\
      Pg.name_id_seq (db_of w1) =
        Pg.name_id_seq (db_of w) + Z.of_nat (List.length data) /\
      Pg.gene_has_name (db_of w1) =
        Pg.gene_has_name (db_of w)
        ++ links_of (db_of w) (Pg.name_id_seq (db_of w)) data /\
      cnt = Z.of_nat
              (List.length
                 (links_of (db_of w) (Pg.name_id_seq (db_of w)) data))) /\
  (forall data cnt w1,
      for_each Pg.cursor (link_symbol Pg.cursor) data 0 w = (Return cnt, w1) ->
      Pg.symbol (db_of w1) =
        Pg.symbol (db_of w) ++ numbered (Pg.symbol_id_seq (db_of w)) data /\
      Pg.symbol_id_seq (db_of w1) =
        Pg.symbol_id_seq (db_of w) + Z.of_nat (List.length data) /\
      Pg.gene_has_symbol (db_of w1) =
        Pg.gene_has_symbol (db_of w)
        ++ links_of (db_of w) (Pg.symbol_id_seq (db_of w)) data /\
      cnt = Z.of_nat
              (List.length
                 (links_of (db_of w) (Pg.symbol_id_seq (db_of w)) data))).
Proof.
  split; intros data cnt w1 H.
  - rewrite (for_each_ext _ _ _ link_name_on_store) in H.
    exact (store_loop_closed_form Pg.NameTable _ _ _ _ _ _ _ H).
  - rewrite (for_each_ext _ _ _ link_symbol_on_store) in H.
    exact (store_loop_closed_form Pg.SymbolTable _ _ _ _ _ _ _ H).
Qed.

Lemma completed_loop_numbers_literals_witness :
  let w := Pg.connect example_db in
  let w1 := snd (for_each Pg.cursor (link_name Pg.cursor)
                   some_unknown_names 0 w) in
  Pg.name (db_of w1) =
    [(1, "cytochrome P450"); (2, "kinase"); (3, "ligase")] /\
  Pg.name_id_seq (db_of w1) = 4 /\
  Pg.gene_has_name (db_of w1) = [typed_link 1 2 "approved"].
Proof.
  intros w w1.
  destruct (proj1 (completed_loop_numbers_literals w) some_unknown_names
              1 w1 ltac:(by_computation)) as (N & S & R & _).
  split; [exact N|]. split; [exact S|exact R].
Defined.

(** X11: when the loop completes, every triple whose gene key is known has
    its literal in the dimension table and its gene linked to the row of
    that literal, under the classifier of the triple. *)
Theorem completed_loop_links_known_genes (w : world Pg.cursor) :
  (forall data cnt w1 t g,
      for_each Pg.cursor (link_name Pg.cursor) data 0 w = (Return cnt, w1) ->
      In t data -> In (g, potri_of t) (Pg.gene (db_of w)) ->
      exists id,
        In (id, literal_of t) (Pg.name (db_of w1)) /\
        In (typed_link g id (type_of t)) (Pg.gene_has_name (db_of w1))) /\
  (forall data cnt w1 t g,
      for_each Pg.cursor (link_symbol Pg.cursor) data 0 w = (Return cnt, w1) ->
      In t data -> In (g, potri_of t) (Pg.gene (db_of w)) ->
      exists id,
        In (id, literal_of t) (Pg.symbol (db_of w1)) /\
        In (typed_link g id (type_of t)) (Pg.gene_has_symbol (db_of w1))).
Proof.
  split; intros data cnt w1 t g H Hin Hg.
  - rewrite (for_each_ext _ _ _ link_name_on_store) in H.
    apply (store_loop_closed_form Pg.NameTable) in H as (N & _ & R & _).
    destruct (numbered_links (db_of w) t data
                (Pg.name_id_seq (db_of w)) Hin) as (id & Hn & Hl).
    exists id. simpl in N, R. rewrite N, R.
    split; apply in_or_app; right; auto.
  - rewrite (for_each_ext _ _ _ link_symbol_on_store) in H.
    apply (store_loop_closed_form Pg.SymbolTable) in H as (N & _ & R & _).
    destruct (numbered_links (db_of w) t data
                (Pg.symbol_id_seq (db_of w)) Hin) as (id & Hn & Hl).
    exists id. simpl in N, R. rewrite N, R.
    split; apply in_or_app; right; auto.
Qed.

Lemma completed_loop_links_known_genes_witness :
  let w := Pg.connect example_db in
  (exists id,
     In (id, "ligase")
        (Pg.name (db_of (snd (for_each Pg.cursor (link_name Pg.cursor)
                                new_names 0 w)))) /\
     In (typed_link 2 id "alias")
        (Pg.gene_has_name
           (db_of (snd (for_each Pg.cursor (link_name Pg.cursor)
                          new_names 0 w))))) /\
  (exists id,
     In (id, "LIG1")
        (Pg.symbol (db_of (snd (for_each Pg.cursor (link_symbol Pg.cursor)
                                  new_symbols 0 w)))) /\
     In (typed_link 2 id "alias")
        (Pg.gene_has_symbol
           (db_of (snd (for_each Pg.cursor (link_symbol Pg.cursor)
                          new_symbols 0 w))))).
Proof.
  intros w. destruct (completed_loop_links_known_genes w) as (H1 & H2). split.
  - apply (H1 new_names 2 _ ("P2", "ligase", "alias") 2);
      [by_computation | simpl; auto | simpl; auto].
  - apply (H2 new_symbols 2 _ ("P2", "LIG1", "alias") 2);
      [by_computation | simpl; auto | simpl; auto].
Defined.

(** ** On the store: inputs that go through *)

Lemma flat_map_all_nil {A B} (F : A -> list B) (rows : list A) :
  (forall x, In x rows -> F x = []) -> flat_map F rows = [].
Proof.
  induction rows as [|a rows IH]; intros H; simpl; [reflexivity|].
  rewrite (H a (or_introl eq_refl)), IH; auto.
  intros x Hx. apply H. now right.
Qed.

Lemma flat_map_single {A B} (F : A -> list B) (rows : list A) (e : A) :
  NoDup rows -> In e rows ->
  (forall e', In e' rows -> e' <> e -> F e' = []) ->
  flat_map F rows = F e.
Proof.
  induction rows as [|a rows IH]; intros N Hin Hz; [destruct Hin|].
  inversion N as [|? ? Ha N']; subst. simpl.
  destruct Hin as [->|Hin].
  - assert (flat_map F rows = []) as ->; [|apply app_nil_r].
    apply flat_map_all_nil.
    intros e' He'. apply Hz; [now right|]. intros ->. contradiction.
  - rewrite (Hz a); [|now left|intros ->; contradiction]. simpl.
    apply IH; auto. intros e' He' Hne. apply Hz; [now right|exact Hne].
Qed.

Lemma unique_keys_nodup rows : unique_keys rows -> NoDup rows.
Proof. apply NoDup_map_inv. Qed.

Lemma unique_key_row rows a b k :
  unique_keys rows -> In (a, k) rows -> In (b, k) rows -> (a, k) = (b, k).
Proof. intros U Ha Hb. now rewrite (unique_key_id _ U _ _ _ Ha Hb). Qed.

(** With unique gene keys a known key gives exactly one link. *)
Lemma literal_links_single d id ty p g :
  unique_keys (Pg.gene d) -> In (g, p) (Pg.gene d) ->
  Pg.literal_links d id ty p = [typed_link g id ty].
Proof.
  intros U Hg. unfold Pg.literal_links.
  rewrite (flat_map_single _ _ (g, p) (unique_keys_nodup _ U) Hg).
  - simpl. now rewrite String.eqb_refl.
  - intros [g' p'] Hin Hne. simpl.
    destruct (p' =? p)%string eqn:E; [|reflexivity].
    apply String.eqb_eq in E. subst.
    destruct Hne. exact (unique_key_row _ _ _ _ U Hin Hg).
Qed.

Lemma has_pair_fresh g id rows :
  (forall r, In r rows -> Pg.dim_id r < id) -> Pg.has_pair g id rows = false.
Proof.
  intros H. unfold Pg.has_pair.
  destruct (existsb _ rows) eqn:E; [|reflexivity].
  apply existsb_exists in E as [r [Hr E]].
  apply andb_prop in E as [_ E]. apply Z.eqb_eq in E.
  specialize (H r Hr). lia.
Qed.

Lemma has_literal_app v rows rows' :
  Pg.has_literal v (rows ++ rows') =
  Pg.has_literal v rows || Pg.has_literal v rows'.
Proof. unfold Pg.has_literal. apply existsb_app. Qed.

(** The loop completes, and counts every triple, when the gene keys are
    unique and all known, the literals new and distinct, and no
    association row refers to an id the sequence has yet to give. *)
Lemma store_loop_succeeds tbl ins lnk xs : forall cnt w,
  unique_keys (Pg.gene (db_of w)) ->
  (forall t, In t xs -> exists g, In (g, potri_of t) (Pg.gene (db_of w))) ->
  (forall t, In t xs ->
     Pg.has_literal (literal_of t) (Pg.literals tbl (db_of w)) = false) ->
  NoDup (map literal_of xs) ->
  (forall r, In r (Pg.rows_of (Pg.junction_of tbl) (db_of w)) ->
     Pg.dim_id r < Pg.id_seq tbl (db_of w)) ->
  exists w',
    for_each Pg.cursor (store_link tbl ins lnk) xs cnt w =
      (Return (cnt + Z.of_nat (List.length xs)), w').
Proof.
  induction xs as [|x xs IH]; intros cnt w U K L N F.
  - exists w. simpl. unfold ret. now rewrite Z.add_0_r.
  - inversion N as [|? ? Nx N']; subst.
    destruct (K x (or_introl eq_refl)) as [g Hg].
    simpl. unfold bind.
    destruct (store_link tbl ins lnk cnt x w) as [r w1] eqn:E.
    unfold store_link in E. rewrite (L x (or_introl eq_refl)) in E.
    rewrite (literal_links_gene (db_of w)) in E
      by apply gene_add_literal.
    rewrite (literal_links_single _ _ _ _ _ U Hg) in E.
    rewrite rows_of_add_literal in E. simpl in E.
    rewrite (has_pair_fresh _ _ _ F) in E.
    inversion E; subst; clear E.
    match goal with
    | |- context [for_each _ _ xs ?c ?w1] =>
        destruct (IH c w1) as [w' E']
    end.
    + unfold db_of. simpl. destruct tbl; exact U.
    + intros t Ht. destruct (K t (or_intror Ht)) as [g' Hg'].
      exists g'. unfold db_of. simpl. destruct tbl; exact Hg'.
    + intros t Ht. unfold db_of. simpl.
      rewrite literals_set_rows, literals_add_literal.
      destruct (Pg.literal_table_eq_dec tbl tbl); [|congruence].
      rewrite has_literal_app. unfold db_of in L.
      rewrite (L t (or_intror Ht)). simpl.
      destruct (literal_of x =? literal_of t)%string eqn:Eq; [|reflexivity].
      apply String.eqb_eq in Eq. destruct Nx. rewrite Eq.
      now apply in_map.
    + exact N'.
    + intros r Hr. unfold db_of in *. simpl in *.
      rewrite id_seq_set_rows, id_seq_add_literal.
      rewrite rows_of_set_rows in Hr.
      destruct (Pg.junction_eq_dec (Pg.junction_of tbl) (Pg.junction_of tbl));
        [|congruence].
      apply in_app_or in Hr as [Hr|[<-|[]]]; [specialize (F r Hr)|simpl]; lia.
    + exists w'. rewrite E'. f_equal. f_equal. simpl List.length. lia.
Qed.

(** X13: the create-then-link inserters go through without a warning and
    without an audit when the gene keys of the store are unique, every
    triple names a known gene and a literal that is new and distinct
    from the other literals of the input, and no association row refers
    to an id the sequence has yet to give: the tally is the number of
    triples. *)
Theorem known_genes_new_literals_return (w : world Pg.cursor) :
  (forall data,
      unique_keys (Pg.gene (db_of w)) ->
      (forall t, In t data ->
         exists g, In (g, potri_of t) (Pg.gene (db_of w))) ->
      (forall t, In t data ->
         Pg.has_literal (literal_of t) (Pg.name (db_of w)) = false) ->
      NoDup (map literal_of data) ->
      (forall r, In r (Pg.gene_has_name (db_of w)) ->
         Pg.dim_id r < Pg.name_id_seq (db_of w)) ->
      exists w1,
        for_each Pg.cursor (link_name Pg.cursor) data 0 w =
          (Return (Z.of_nat (List.length data)), w1) /\
        add_gene_name Pg.cursor data w = (Return tt, w1) /\
        warnings w1 = warnings w) /\
  (forall data,
      unique_keys (Pg.gene (db_of w)) ->
      (forall t, In t data ->
         exists g, In (g, potri_of t) (Pg.gene (db_of w))) ->
      (forall t, In t data ->
         Pg.has_literal (literal_of t) (Pg.symbol (db_of w)) = false) ->
      NoDup (map literal_of data) ->
      (forall r, In r (Pg.gene_has_symbol (db_of w)) ->
         Pg.dim_id r < Pg.symbol_id_seq (db_of w)) ->
      exists w1,
        for_each Pg.cursor (link_symbol Pg.cursor) data 0 w =
          (Return (Z.of_nat (List.length data)), w1) /\
        add_gene_symbol Pg.cursor data w = (Return tt, w1) /\
        warnings w1 = warnings w).
Proof.
  split; intros data U K L N F.
  - destruct (store_loop_succeeds Pg.NameTable InsertName InsertGeneHasName
                data 0 w U K L N F) as [w1 E].
    rewrite <- (for_each_ext _ _ _ link_name_on_store) in E. simpl in E.
    exists w1. split; [exact E|]. split.
    + unfold add_gene_name, bind. rewrite E, Z.eqb_refl. reflexivity.
    + exact (proj1 (write_only_for_each Pg.cursor _ data
                      (write_only_link_name Pg.cursor) _ _ _ _ E)).
  - destruct (store_loop_succeeds Pg.SymbolTable InsertSymbol
                InsertGeneHasSymbol data 0 w U K L N F) as [w1 E].
    rewrite <- (for_each_ext _ _ _ link_symbol_on_store) in E. simpl in E.
    exists w1. split; [exact E|]. split.
    + unfold add_gene_symbol, bind. rewrite E, Z.eqb_refl. reflexivity.
    + exact (proj1 (write_only_for_each Pg.cursor _ data
                      (write_only_link_symbol Pg.cursor) _ _ _ _ E)).
Qed.

Lemma known_genes_new_literals_return_witness :
  let w := Pg.connect example_db in
  fst (add_gene_name Pg.cursor new_names w) = Return tt /\
  fst (add_gene_symbol Pg.cursor new_symbols w) = Return tt.
Proof.
  intros w. destruct (known_genes_new_literals_return w) as (H1 & H2). split.
  - destruct (H1 new_names) as (w1 & _ & E & _);
      [distinct_keys
      | intros t [<-|[<-|[]]]; [exists 1|exists 2]; simpl; auto
      | intros t [<-|[<-|[]]]; reflexivity
      | simpl; repeat constructor; simpl; intuition discriminate
      | intros r []
      | exact (f_equal fst E)].
  - destruct (H2 new_symbols) as (w1 & _ & E & _);
      [distinct_keys
      | intros t [<-|[<-|[]]]; [exists 1|exists 2]; simpl; auto
      | intros t [<-|[<-|[]]]; reflexivity
      | simpl; repeat constructor; simpl; intuition discriminate
      | intros r []
      | exact (f_equal fst E)].
Defined.

Lemma unique_id_key rows : unique_ids rows ->
  forall i a b, In (i, a) rows -> In (i, b) rows -> a = b.
Proof.
  unfold unique_ids. induction rows as [|[j n] rows IH]; simpl; intros N.
  - intros i a b [].
  - inversion N as [|? ? Hn N']; subst. intros i a b [E1|H1] [E2|H2].
    + congruence.
    + inversion E1; subst. exfalso. apply Hn.
      apply in_map_iff. exists (i, b); auto.
    + inversion E2; subst. exfalso. apply Hn.
      apply in_map_iff. exists (i, a); auto.
    + eauto.
Qed.

(** With unique keys and no repeated row in [assembly_has_location], a
    resolvable pair of assembly 1 gives exactly one link. *)
Lemma location_links_single d p l g x :
  unique_keys (Pg.gene d) -> unique_keys (Pg.location d) ->
  NoDup (Pg.assembly_has_location d) ->
  In (g, p) (Pg.gene d) -> In (x, l) (Pg.location d) ->
  In (1, x) (Pg.assembly_has_location d) ->
  Pg.location_links d p l = [plain_link g x].
Proof.
  intros Ug Ul Na Hg Hx Ha. unfold Pg.location_links.
  rewrite (flat_map_single _ _ (g, p) (unique_keys_nodup _ Ug) Hg).
  - rewrite (flat_map_single _ _ (x, l) (unique_keys_nodup _ Ul) Hx).
    + rewrite (flat_map_single _ _ (1, x) Na Ha).
      * simpl. now rewrite !String.eqb_refl, Z.eqb_refl.
      * intros [a y] Hin Hne. simpl. rewrite !String.eqb_refl. simpl.
        destruct (a =? 1) eqn:E1; [|reflexivity].
        destruct (x =? y) eqn:E2; [|reflexivity].
        apply Z.eqb_eq in E1, E2. subst. now destruct Hne.
    + intros [x' l'] Hin Hne. apply flat_map_all_nil. intros a _. simpl.
      destruct (l' =? l)%string eqn:E; [|now rewrite andb_false_r].
      apply String.eqb_eq in E. subst.
      destruct Hne. exact (unique_key_row _ _ _ _ Ul Hin Hx).
  - intros [g' p'] Hin Hne. apply flat_map_all_nil. intros y _.
    apply flat_map_all_nil. intros a _. simpl.
    destruct (p' =? p)%string eqn:E; [|reflexivity].
    apply String.eqb_eq in E. subst.
    destruct Hne. exact (unique_key_row _ _ _ _ Ug Hin Hg).
Qed.

Lemma locus_type_links_single d p l g x :
  unique_keys (Pg.gene d) -> unique_keys (Pg.locus_type d) ->
  In (g, p) (Pg.gene d) -> In (x, l) (Pg.locus_type d) ->
  Pg.locus_type_links d p l = [plain_link g x].
Proof.
  intros Ug Ul Hg Hx. unfold Pg.locus_type_links.
  rewrite (flat_map_single _ _ (g, p) (unique_keys_nodup _ Ug) Hg).
  - rewrite (flat_map_single _ _ (x, l) (unique_keys_nodup _ Ul) Hx).
    + simpl. now rewrite !String.eqb_refl.
    + intros [x' l'] Hin Hne. simpl.
      destruct (l' =? l)%string eqn:E; [|now rewrite andb_false_r].
      apply String.eqb_eq in E. subst.
      destruct Hne. exact (unique_key_row _ _ _ _ Ul Hin Hx).
  - intros [g' p'] Hin Hne. apply flat_map_all_nil. intros y _. simpl.
    destruct (p' =? p)%string eqn:E; [|reflexivity].
    apply String.eqb_eq in E. subst.
    destruct Hne. exact (unique_key_row _ _ _ _ Ug Hin Hg).
Qed.

Lemma has_pair_app g x rows rows' :
  Pg.has_pair g x (rows ++ rows') =
  Pg.has_pair g x rows || Pg.has_pair g x rows'.
Proof. unfold Pg.has_pair. apply existsb_app. Qed.

(** A batch whose statements each insert one row, the rows being of
    distinct pairs none of which is in the table, completes and counts
    every statement. *)
Lemma exec_many_succeeds j d0 qs pairs :
  Forall2 (fun q gx =>
             exists f, batch_of q = Some (j, f) /\
                       f d0 = [plain_link (fst gx) (snd gx)]) qs pairs ->
  NoDup pairs ->
  forall total s,
    extends d0 (Pg.db s) ->
    (forall gx, In gx pairs ->
       Pg.has_pair (fst gx) (snd gx) (Pg.rows_of j (Pg.db s)) = false) ->
    exists s',
      Pg.exec_many qs total s = (None, s') /\
      Pg.last_rowcount s' = total + Z.of_nat (List.length qs).
Proof.
  induction 1 as [|q gx qs pairs (f & Hb & Hf) F2 IH]; intros N total s X Hn.
  - eexists. simpl. split; [reflexivity|]. simpl. lia.
  - inversion N as [|? ? Hgx N']; subst. simpl.
    rewrite (exec_batch _ _ _ _ Hb), (batch_rows_stable _ _ _ _ _ Hb X), Hf.
    unfold Pg.insert_select. simpl.
    rewrite (Hn gx (or_introl eq_refl)).
    match goal with
    | |- context [Pg.exec_many qs ?t ?s1] =>
        destruct (IH N' t s1) as (s' & E & C)
    end.
    + simpl. eapply extends_trans; [exact X|apply extends_set_rows].
    + intros gx' Hin. simpl. rewrite rows_of_set_rows.
      destruct (Pg.junction_eq_dec j j); [|congruence].
      rewrite has_pair_app, (Hn gx' (or_intror Hin)). simpl.
      destruct (fst gx =? fst gx') eqn:E1; [|reflexivity].
      destruct (snd gx =? snd gx') eqn:E2; [|reflexivity].
      apply Z.eqb_eq in E1, E2. destruct Hgx.
      destruct gx, gx'. simpl in *. subst. exact Hin.
    + exists s'. split; [exact E|]. rewrite C. simpl. lia.
Qed.

Lemma forall2_resolved {A} (P : A -> Z * Z -> Prop) (data : list A) :
  (forall k, In k data -> exists gx, P k gx) ->
  exists pairs, Forall2 P data pairs.
Proof.
  induction data as [|k data IH]; intros H.
  - exists []. constructor.
  - destruct (H k (or_introl eq_refl)) as [gx Hgx].
    destruct IH as [pairs F]; [intros k' Hk'; apply H; now right|].
    exists (gx :: pairs). now constructor.
Qed.

Lemma forall2_in_right {A B} (P : A -> B -> Prop) xs ys y :
  Forall2 P xs ys -> In y ys -> exists x, In x xs /\ P x y.
Proof.
  induction 1 as [|x0 y0 xs ys H0 F IH]; intros Hin; [destruct Hin|].
  destruct Hin as [->|Hin].
  - exists x0. split; [now left|assumption].
  - destruct (IH Hin) as (x & Hx & Hp). exists x. split; [now right|assumption].
Qed.

Lemma forall2_nodup {A B} (P : A -> B -> Prop) xs ys :
  Forall2 P xs ys -> NoDup xs ->
  (forall x x' y, P x y -> P x' y -> x = x') -> NoDup ys.
Proof.
  induction 1 as [|x0 y0 xs ys H0 F IH]; intros N Inj; [constructor|].
  inversion N as [|? ? Hx N']; subst. constructor; [|auto].
  intros Hin. destruct (forall2_in_right _ _ _ _ F Hin) as (x & Hx' & Hp).
  rewrite (Inj _ _ _ H0 Hp) in Hx. contradiction.
Qed.

(** The batched write of [add_gene_location] goes through, one row per
    item, when every item resolves to one pair and no pair is there. *)
Lemma location_batch_succeeds (w : world Pg.cursor) data :
  unique_keys (Pg.gene (db_of w)) -> unique_ids (Pg.gene (db_of w)) ->
  unique_keys (Pg.location (db_of w)) ->
  unique_ids (Pg.location (db_of w)) ->
  NoDup (Pg.assembly_has_location (db_of w)) ->
  NoDup data ->
  (forall k, In k data ->
     exists g x,
       In (g, fst k) (Pg.gene (db_of w)) /\
       In (x, snd k) (Pg.location (db_of w)) /\
       In (1, x) (Pg.assembly_has_location (db_of w))) ->
  (forall k, In k data -> ~ linked Pg.GeneHasLocation (db_of w) k) ->
  exists st,
    Pg.exec_many (location_inserts data) 0 (cstate w) = (None, st) /\
    Pg.last_rowcount st = Z.of_nat (List.length data).
Proof.
  intros Ug Ig Ul Il Na Nd Hres Hun.
  set (P := fun (k : string * string) (gx : Z * Z) =>
              In (fst gx, fst k) (Pg.gene (db_of w)) /\
              In (snd gx, snd k) (Pg.location (db_of w)) /\
              In (1, snd gx) (Pg.assembly_has_location (db_of w))).
  destruct (forall2_resolved P data) as [pairs F].
  { intros k Hk. destruct (Hres k Hk) as (g & x & H). now exists (g, x). }
  assert (Np : NoDup pairs).
  { apply (forall2_nodup P data pairs F Nd).
    intros [p l] [p' l'] [g x] (G1 & L1 & _) (G2 & L2 & _). simpl in *.
    now rewrite (unique_id_key _ Ig _ _ _ G1 G2),
      (unique_id_key _ Il _ _ _ L1 L2). }
  destruct (exec_many_succeeds Pg.GeneHasLocation (db_of w)
              (location_inserts data) pairs) with (total := 0)
              (s := cstate w) as (st & E & C); auto using extends_refl.
  + unfold location_inserts. clear -F Ug Ul Na.
    induction F as [|k gx data pairs (G & L & A) F IH]; simpl;
      constructor; auto.
    eexists. split; [reflexivity|]. simpl.
    now apply location_links_single.
  + intros gx Hin.
    destruct (forall2_in_right _ _ _ _ F Hin) as (k & Hk & G & L & _).
    destruct (Pg.has_pair _ _ _) eqn:Hp; [|reflexivity].
    destruct (Hun k Hk). exists (fst gx), (snd gx). auto.
  + exists st. simpl in C.
    unfold location_inserts in C. rewrite length_map in C.
    split; [exact E|exact C].
Qed.

Lemma locus_type_batch_succeeds (w : world Pg.cursor) data :
  unique_keys (Pg.gene (db_of w)) -> unique_ids (Pg.gene (db_of w)) ->
  unique_keys (Pg.locus_type (db_of w)) ->
  unique_ids (Pg.locus_type (db_of w)) ->
  NoDup data ->
  (forall k, In k data ->
     exists g x,
       In (g, fst k) (Pg.gene (db_of w)) /\
       In (x, snd k) (Pg.locus_type (db_of w))) ->
  (forall k, In k data -> ~ linked Pg.GeneHasLocusType (db_of w) k) ->
  exists st,
    Pg.exec_many (locus_type_inserts data) 0 (cstate w) = (None, st) /\
    Pg.last_rowcount st = Z.of_nat (List.length data).
Proof.
  intros Ug Ig Ul Il Nd Hres Hun.
  set (P := fun (k : string * string) (gx : Z * Z) =>
              In (fst gx, fst k) (Pg.gene (db_of w)) /\
              In (snd gx, snd k) (Pg.locus_type (db_of w))).
  destruct (forall2_resolved P data) as [pairs F].
  { intros k Hk. destruct (Hres k Hk) as (g & x & H). now exists (g, x). }
  assert (Np : NoDup pairs).
  { apply (forall2_nodup P data pairs F Nd).
    intros [p l] [p' l'] [g x] (G1 & L1) (G2 & L2). simpl in *.
    now rewrite (unique_id_key _ Ig _ _ _ G1 G2),
      (unique_id_key _ Il _ _ _ L1 L2). }
  destruct (exec_many_succeeds Pg.GeneHasLocusType (db_of w)
              (locus_type_inserts data) pairs) with (total := 0)
              (s := cstate w) as (st & E & C); auto using extends_refl.
  + unfold locus_type_inserts. clear -F Ug Ul.
    induction F as [|k gx data pairs (G & L) F IH]; simpl;
      constructor; auto.
    eexists. split; [reflexivity|]. simpl.
    now apply locus_type_links_single.
  + intros gx Hin.
    destruct (forall2_in_right _ _ _ _ F Hin) as (k & Hk & G & L).
    destruct (Pg.has_pair _ _ _) eqn:Hp; [|reflexivity].
    destruct (Hun k Hk). exists (fst gx), (snd gx). auto.
  + exists st. simpl in C.
    unfold locus_type_inserts in C. rewrite length_map in C.
    split; [exact E|exact C].
Qed.



(** * main.py and pgncdb/dbc.py *)

Lemma forallb_false_witness {A} (f : A -> bool) (l : list A) :
  forallb f l = false -> exists x, In x l /\ f x = false.
Proof.
  induction l as [|a l IH]; simpl; [discriminate|].
  destruct (f a) eqn:E; simpl.
  - intros H. destruct (IH H) as (x & Hx & Fx). exists x. auto.
  - intros _. exists a. auto.
Qed.

Lemma existsb_eqb_in (c : string) (l : list string) :
  existsb (String.eqb c) l = true <-> In c l.
Proof.
  rewrite existsb_exists. split.
  - intros [x [Hx E]]. apply String.eqb_eq in E. now subst.
  - intros H. exists c. split; [assumption|apply String.eqb_refl].
Qed.

(** X14: [get_file_data] raises its [ValueError] exactly when some requested
    column is outside the six it allows, and then without having called
    [pd.read_csv]; the index column [PotriID] is not among the six. *)
Theorem invalid_columns_rejected_unread {cur : Cursor} (h : Host cur)
    (file_path : option string) (cs : list string) :
  ((exists c, In c cs /\ ~ In c valid_cols) <->
   get_file_data h file_path (Some cs) = (inl (InvalidColumns valid_cols), []))
  /\ ~ In "PotriID" valid_cols.
Proof.
  split; [|simpl; intuition discriminate].
  unfold get_file_data, issubset. split.
  - intros (c & Hc & Hn).
    destruct (forallb _ cs) eqn:E; [|reflexivity].
    rewrite forallb_forall in E. specialize (E c Hc).
    apply existsb_eqb_in in E. contradiction.
  - destruct (forallb _ cs) eqn:E; simpl; [discriminate|]. intros _.
    apply forallb_false_witness in E as (c & Hc & Fc). exists c.
    split; [assumption|]. intros Hin.
    apply (proj2 (existsb_eqb_in c valid_cols)) in Hin. congruence.
Qed.

Lemma frame_lists (df : dataframe) : forall a b c d,
  fold_left append_row df (a, b, c, d) =
  (a ++ locations_of df, b ++ locus_types_of df, c ++ symbols_of df,
   d ++ names_of df).
Proof.
  induction df as [|row df IH]; intros a b c d; simpl.
  - now rewrite !app_nil_r.
  - rewrite IH, <- !app_assoc. reflexivity.
Qed.

Lemma process_df_unfold (cur : Cursor) (df : dataframe) :
  process_df cur df =
  bind cur (add_gene_location cur (locations_of df)) (fun _ =>
  bind cur (add_gene_locus_type cur (locus_types_of df)) (fun _ =>
  bind cur (add_gene_name cur (names_of df)) (fun _ =>
  add_gene_symbol cur (symbols_of df)))).
Proof. unfold process_df. rewrite frame_lists. reflexivity. Qed.

Lemma process_df_steps (cur : Cursor) (w : world cur) (df : dataframe) :
  forall r1 w1, add_gene_location cur (locations_of df) w = (r1, w1) ->
  forall r2 w2, add_gene_locus_type cur (locus_types_of df) w1 = (r2, w2) ->
  forall r3 w3, add_gene_name cur (names_of df) w2 = (r3, w3) ->
  process_df cur df w =
    match r1, r2, r3 with
    | Raise e, _, _ => (Raise e, w1)
    | Return _, Raise e, _ => (Raise e, w2)
    | Return _, Return _, Raise e => (Raise e, w3)
    | Return _, Return _, Return _ =>
        add_gene_symbol cur (symbols_of df) w3
    end.
Proof.
  intros r1 w1 E1 r2 w2 E2 r3 w3 E3.
  rewrite process_df_unfold. unfold bind. rewrite E1.
  destruct r1 as [[]|e]; [|reflexivity]. rewrite E2.
  destruct r2 as [[]|e]; [|reflexivity]. rewrite E3.
  destruct r3 as [[]|e]; reflexivity.
Qed.

(** X15: [process_df] gives each inserter one item per row of the frame, in
    the order of the rows, calls them in the order location, locus type,
    name, symbol on the same cursor, and stops at the first one that
    raises: the later ones are not called. *)
Theorem process_df_stops_at_first_error (cur : Cursor) (w : world cur)
    (df : dataframe) :
  let r1 := add_gene_location cur (locations_of df) w in
  let r2 := add_gene_locus_type cur (locus_types_of df) (snd r1) in
  let r3 := add_gene_name cur (names_of df) (snd r2) in
  let r4 := add_gene_symbol cur (symbols_of df) (snd r3) in
  process_df cur df w =
    match fst r1 with
    | Raise _ => r1
    | Return _ =>
        match fst r2 with
        | Raise _ => r2
        | Return _ =>
            match fst r3 with
            | Raise _ => r3
            | Return _ => r4
            end
        end
    end.
Proof.
  rewrite process_df_unfold. unfold bind. simpl.
  destruct (add_gene_location cur (locations_of df) w) as [[[]|e] w1];
    simpl; [|reflexivity].
  destruct (add_gene_locus_type cur (locus_types_of df) w1) as [[[]|e] w2];
    simpl; [|reflexivity].
  destruct (add_gene_name cur (names_of df) w2) as [[[]|e] w3];
    simpl; [|reflexivity].
  destruct (add_gene_symbol cur (symbols_of df) w3) as [[[]|e] w4];
    reflexivity.
Qed.

Lemma get_file_data_events {cur : Cursor} (h : Host cur)
    (file : option string) :
  snd (get_file_data h file None) = [ReadCsv file None] /\
  (forall df, fst (get_file_data h file None) = inr df ->
     read_csv h file None = inr df).
Proof.
  unfold get_file_data. simpl. split; [reflexivity|].
  intros df. destruct (read_csv h file None); simpl; congruence.
Qed.

Lemma tunnel_events {cur : Cursor} (h : Host cur)
    (ip usr : option string) (pkey : string)
    (db pw dbu rds : option string) :
  let r := get_tunnel_db_connection h ip usr pkey db pw dbu rds in
  let server := TunnelConfig (ip, 22) usr pkey (rds, 5432) in
  let connection :=
    ConnectArgs "127.0.0.1" (local_bind_port h server) db pw dbu in
  (snd r = [TunnelStart server] /\ start h server <> None /\
   exists e, fst r = inl e) \/
  (snd r = [TunnelStart server; Connect connection] /\
   start h server = None /\
   ((connect h connection <> None /\ exists e, fst r = inl e) \/
    (connect h connection = None /\ fst r = inr (server, connection)))).
Proof.
  unfold get_tunnel_db_connection. simpl.
  destruct (start h _) eqn:S; simpl.
  - left. split; [reflexivity|]. split; [congruence|eauto].
  - right. destruct (connect h _) eqn:C; simpl.
    + split; [reflexivity|]. split; [reflexivity|].
      left. split; [congruence|eauto].
    + split; [reflexivity|]. split; [reflexivity|]. right. auto.
Qed.

(** X18: [get_tunnel_db_connection] reaches the database through the tunnel
    only: it asks for a connection once the tunnel has started and not
    before, to 127.0.0.1 on the port the tunnel is bound to, the tunnel
    going by port 22 of the bastion to port 5432 of the RDS host; the
    RDS host is never the host of the connection. *)
Theorem database_reached_through_tunnel {cur : Cursor} (h : Host cur)
    (ip usr : option string) (pkey : string)
    (db pw dbu rds : option string) (a : connect_args) :
  let r := get_tunnel_db_connection h ip usr pkey db pw dbu rds in
  In (Connect a) (snd r) ->
  exists server,
    snd r = [TunnelStart server; Connect a] /\
    start h server = None /\
    ssh_address server = (ip, 22) /\
    remote_bind_address server = (rds, 5432) /\
    host a = "127.0.0.1" /\
    port a = local_bind_port h server /\
    (dbname a, password a, user a) = (db, pw, dbu).
Proof.
  intros r Hin.
  destruct (tunnel_events h ip usr pkey db pw dbu rds)
    as [(E & _)|(E & S & _)]; fold r in E; rewrite E in Hin |- *.
  - simpl in Hin. destruct Hin as [H|[]]. discriminate.
  - simpl in Hin. destruct Hin as [H|[H|[]]]; [discriminate|].
    injection H as <-. eexists. split; [reflexivity|].
    split; [exact S|]. simpl. auto.
Qed.

Lemma database_reached_through_tunnel_witness :
  exists server,
    snd (get_tunnel_db_connection (good_host example_frame example_db)
           (Some "10.0.0.1") (Some "ec2-user") "id_rsa" (Some "pgnc")
           (Some "secret") (Some "loader") (Some "db.internal")) =
      [TunnelStart server;
       Connect (ConnectArgs "127.0.0.1" 6543 (Some "pgnc") (Some "secret")
                            (Some "loader"))] /\
    ssh_address server = (Some "10.0.0.1", 22) /\
    remote_bind_address server = (Some "db.internal", 5432).
Proof.
  destruct (database_reached_through_tunnel
              (good_host example_frame example_db)
              (Some "10.0.0.1") (Some "ec2-user") "id_rsa" (Some "pgnc")
              (Some "secret") (Some "loader") (Some "db.internal")
              (ConnectArgs "127.0.0.1" 6543 (Some "pgnc") (Some "secret")
                           (Some "loader")))
    as (server & E & _ & A & R & _).
  - vm_compute. auto.
  - exists server. auto.
Defined.

Lemma main_outcomes {cur : Cursor} (h : Host cur) (env : environ)
    (PKEY : string) (file : option string) :
  let r := main h env PKEY file in
  let server :=
    TunnelConfig (BASTION_IP env, 22) (BASTION_USER env) PKEY
                 (RDS_HOST env, 5432) in
  let conn :=
    ConnectArgs "127.0.0.1" (local_bind_port h server) (DB_NAME env)
                (DB_PASS env) (DB_USER env) in
  let opened := [ReadCsv file None; TunnelStart server; Connect conn] in
  (exists e, raised r = Some (HostError e) /\ sql r = None /\
     (events r = [ReadCsv file None] \/
      events r = [ReadCsv file None; TunnelStart server] \/
      events r = opened)) \/
  (exists df w1,
     read_csv h file None = inr df /\
     start h server = None /\ connect h conn = None /\
     sql r = Some w1 /\
     ((exists x,
         process_df cur df (World (cursor_of h conn) [] []) = (Raise x, w1) /\
         raised r = Some (InserterError x) /\
         events r = opened ++ [OpenCursor]) \/
      (process_df cur df (World (cursor_of h conn) [] []) = (Return tt, w1) /\
       ((exists e, commit h conn (cstate w1) = Some e /\
           raised r = Some (HostError e) /\
           events r = opened ++ [OpenCursor; Commit]) \/
        (commit h conn (cstate w1) = None /\ raised r = None /\
         events r = opened ++ [OpenCursor; Commit; TunnelStop]))))).
Proof.
  cbv zeta. unfold main, get_file_data, get_tunnel_db_connection.
  destruct (read_csv h file None) as [e|df] eqn:R; simpl.
  { left. exists e. auto. }
  destruct (start h _) as [e|] eqn:S; simpl.
  { left. exists e. auto. }
  destruct (connect h _) as [e|] eqn:C; simpl.
  { left. exists e. auto 6. }
  right.
  destruct (process_df cur df _) as [[[]|x] w1] eqn:P; simpl.
  - destruct (commit h _ (cstate w1)) as [e|] eqn:K; simpl.
    + exists df, w1. repeat (split; [reflexivity|]). right.
      split; [exact P|]. left. exists e. auto.
    + exists df, w1. repeat (split; [reflexivity|]). right.
      split; [exact P|]. right. auto.
  - exists df, w1. repeat (split; [reflexivity|]). left. exists x. auto.
Qed.

(** X19: [main] commits only once [process_df] has returned: when
    [conn.commit()] is called the file has been read, the tunnel and the
    connection are open, and all four inserters have run on a cursor of
    that connection without raising. *)
Theorem commit_follows_all_inserters {cur : Cursor} (h : Host cur)
    (env : environ) (PKEY : string) (file : option string) :
  let r := main h env PKEY file in
  In Commit (events r) ->
  exists df conn w1,
    read_csv h file None = inr df /\
    connect h conn = None /\
    host conn = "127.0.0.1" /\
    process_df cur df (World (cursor_of h conn) [] []) = (Return tt, w1) /\
    sql r = Some w1.
Proof.
  intros r Hin.
  destruct (main_outcomes h env PKEY file)
    as [(e & _ & _ & E)|(df & w1 & R & S & C & Q & O)]; fold r in E || idtac.
  - destruct E as [E|[E|E]]; fold r in E; rewrite E in Hin; simpl in Hin;
      intuition discriminate.
  - fold r in Q, O.
    destruct O as [(x & _ & _ & E)|(P & _)].
    + rewrite E in Hin. simpl in Hin. intuition discriminate.
    + eexists df, _, w1. split; [exact R|]. split; [exact C|].
      split; [reflexivity|]. split; [exact P|exact Q].
Qed.

Lemma commit_follows_all_inserters_witness :
  exists df conn w1,
    process_df Pg.cursor df
      (World (cursor_of (good_host example_frame example_db) conn) [] []) =
      (Return tt, w1) /\
    sql (main (good_host example_frame example_db) example_env "id_rsa"
              (Some "genes.tsv")) = Some w1.
Proof.
  destruct (commit_follows_all_inserters
              (good_host example_frame example_db) example_env "id_rsa"
              (Some "genes.tsv"))
    as (df & conn & w1 & _ & _ & _ & P & Q).
  - vm_compute. tauto.
  - exists df, conn, w1. split; [exact P|exact Q].
Defined.

(** X20: [main] stops the tunnel exactly when it ends without an exception:
    when reading the file, opening the connection, an inserter or the
    commit raises, [tunnel.stop()] is not called. *)
Theorem tunnel_stopped_iff_main_returns {cur : Cursor} (h : Host cur)
    (env : environ) (PKEY : string) (file : option string) :
  let r := main h env PKEY file in
  In TunnelStop (events r) <-> raised r = None.
Proof.
  intros r.
  destruct (main_outcomes h env PKEY file)
    as [(e & X & _ & E)|(df & w1 & _ & _ & _ & _ & O)].
  - fold r in X, E. rewrite X.
    destruct E as [E|[E|E]]; rewrite E; simpl; intuition discriminate.
  - fold r in O.
    destruct O as [(x & _ & X & E)|(_ & [(e & _ & X & E)|(_ & X & E)])];
      rewrite X, E; simpl; intuition discriminate.
Qed.

(** X21: when an inserter raises, [main] ends with that exception, uncaught:
    the tunnel and the connection have been opened, the SQL sent before
    the exception has been sent, and there is neither a commit nor a
    rollback nor a stop of the tunnel. *)
Theorem inserter_error_skips_commit {cur : Cursor} (h : Host cur)
    (env : environ) (PKEY : string) (file : option string) (x : exn) :
  let r := main h env PKEY file in
  raised r = Some (InserterError x) ->
  exists df server conn w1,
    events r =
      [ReadCsv file None; TunnelStart server; Connect conn; OpenCursor] /\
    process_df cur df (World (cursor_of h conn) [] []) = (Raise x, w1) /\
    sql r = Some w1.
Proof.
  intros r Hr.
  destruct (main_outcomes h env PKEY file)
    as [(e & X & _)|(df & w1 & _ & _ & _ & Q & O)].
  - fold r in X. congruence.
  - fold r in Q, O.
    destruct O as [(y & P & X & E)|(_ & [(e & _ & X & _)|(_ & X & _)])];
      try congruence.
    assert (y = x) as -> by congruence.
    eexists df, _, _, w1. split; [exact E|]. split; [exact P|exact Q].
Qed.

Lemma inserter_error_skips_commit_witness :
  exists server conn,
    events (main (good_host clashing_frame example_db) example_env "id_rsa"
                 (Some "genes.tsv")) =
      [ReadCsv (Some "genes.tsv") None; TunnelStart server; Connect conn;
       OpenCursor].
Proof.
  edestruct (inserter_error_skips_commit
               (good_host clashing_frame example_db) example_env "id_rsa"
               (Some "genes.tsv"))
    as (df & server & conn & w1 & E & _).
  - vm_compute. reflexivity.
  - exists server, conn. exact E.
Defined.

(** * What an inserter leaves alone *)

Lemma changed_within_refl j t d : changed_within j t d d.
Proof. unfold changed_within. auto 10. Qed.

Lemma changed_within_trans j t d1 d2 d3 :
  changed_within j t d1 d2 -> changed_within j t d2 d3 ->
  changed_within j t d1 d3.
Proof.
  intros (G1 & L1 & A1 & T1 & R1 & N1) (G2 & L2 & A2 & T2 & R2 & N2).
  unfold changed_within.
  split; [congruence|]. split; [congruence|]. split; [congruence|].
  split; [congruence|]. split.
  - intros j' Hj. rewrite (R2 j' Hj). exact (R1 j' Hj).
  - intros t' Ht. destruct (N1 t' Ht) as [X1 Y1], (N2 t' Ht) as [X2 Y2].
    split; congruence.
Qed.

Lemma set_rows_within j t rows d :
  changed_within j t d (Pg.set_rows j rows d).
Proof.
  unfold changed_within.
  split; [destruct j; reflexivity|]. split; [destruct j; reflexivity|].
  split; [destruct j; reflexivity|]. split; [destruct j; reflexivity|].
  split.
  - intros j' Hj. rewrite rows_of_set_rows.
    destruct (Pg.junction_eq_dec j j'); [congruence|reflexivity].
  - intros t' _. split; [apply literals_set_rows|apply id_seq_set_rows].
Qed.

Lemma add_literal_within j tbl v d :
  changed_within j (Some tbl) d (Pg.add_literal tbl v d).
Proof.
  unfold changed_within.
  split; [destruct tbl; reflexivity|]. split; [destruct tbl; reflexivity|].
  split; [destruct tbl; reflexivity|]. split; [destruct tbl; reflexivity|].
  split.
  - intros j' _. apply rows_of_add_literal.
  - intros t' Ht. destruct tbl, t'; try congruence; split; reflexivity.
Qed.

Lemma exec_many_within j qs :
  (forall q, In q qs -> exists f, batch_of q = Some (j, f)) ->
  forall total s,
    changed_within j None (Pg.db s) (Pg.db (snd (Pg.exec_many qs total s))).
Proof.
  induction qs as [|q qs IH]; intros B total s; simpl.
  - apply changed_within_refl.
  - destruct (B q (or_introl eq_refl)) as [f Bq].
    rewrite (exec_batch q j f s Bq). unfold Pg.insert_select.
    destruct (Pg.insert_rows _ _) as [table'|]; cbv iota.
    + eapply changed_within_trans;
        [|apply (IH (fun q' H => B q' (or_intror H)))].
      apply (set_rows_within j None table' (Pg.db s)).
    + apply changed_within_refl.
Qed.

Lemma store_link_within tbl ins lnk cnt x w :
  changed_within (Pg.junction_of tbl) (Some tbl) (db_of w)
    (db_of (snd (store_link tbl ins lnk cnt x w))).
Proof.
  unfold store_link.
  destruct (Pg.has_literal _ _); [apply changed_within_refl|].
  destruct (Pg.insert_rows _ _) as [table'|]; unfold db_of; simpl.
  - eapply changed_within_trans; [apply add_literal_within|].
    apply set_rows_within.
  - apply add_literal_within.
Qed.

Lemma store_loop_within tbl ins lnk xs : forall cnt w,
  changed_within (Pg.junction_of tbl) (Some tbl) (db_of w)
    (db_of (snd (for_each Pg.cursor (store_link tbl ins lnk) xs cnt w))).
Proof.
  induction xs as [|x xs IH]; intros cnt w; simpl.
  - apply changed_within_refl.
  - unfold bind.
    pose proof (store_link_within tbl ins lnk cnt x w) as H.
    destruct (store_link tbl ins lnk cnt x w) as [[c|e] w1]; simpl in *.
    + eapply changed_within_trans; [exact H|apply IH].
    + exact H.
Qed.

(** Whatever the outcome, the database at the end of a create-then-link
    inserter is the one its loop left: the audit writes nothing. *)
Lemma add_gene_name_final_db data w :
  db_of (snd (add_gene_name Pg.cursor data w)) =
  db_of (snd (for_each Pg.cursor (link_name Pg.cursor) data 0 w)).
Proof.
  unfold add_gene_name, bind at 1.
  destruct (for_each Pg.cursor (link_name Pg.cursor) data 0 w)
    as [[cnt|e] w1]; [|reflexivity].
  destruct (negb _); [|reflexivity].
  destruct (find_unsuccessful_on_store Pg.GeneHasName SelectGeneHasName
              name_ids key_of (fun s => eq_refl) (fun a s => eq_refl)
              data w1) as [s' [D X]].
  unfold bind. rewrite X. unfold db_of in *. simpl in *.
  destruct (filter _ _); simpl; exact D.
Qed.

Lemma add_gene_symbol_final_db data w :
  db_of (snd (add_gene_symbol Pg.cursor data w)) =
  db_of (snd (for_each Pg.cursor (link_symbol Pg.cursor) data 0 w)).
Proof.
  unfold add_gene_symbol, bind at 1.
  destruct (for_each Pg.cursor (link_symbol Pg.cursor) data 0 w)
    as [[cnt|e] w1]; [|reflexivity].
  destruct (negb _); [|reflexivity].
  destruct (find_unsuccessful_on_store Pg.GeneHasSymbol SelectGeneHasSymbol
              symbol_ids key_of (fun s => eq_refl) (fun a s => eq_refl)
              data w1) as [s' [D X]].
  unfold bind. rewrite X. unfold db_of in *. simpl in *.
  destruct (filter _ _); simpl; exact D.
Qed.

Lemma add_gene_location_within data (w : world Pg.cursor) :
  changed_within Pg.GeneHasLocation None (db_of w)
    (db_of (snd (add_gene_location Pg.cursor data w))).
Proof.
  rewrite add_gene_location_final_db. unfold after_location_write.
  apply exec_many_within. unfold location_inserts. intros q Hq.
  apply in_map_iff in Hq as ([p l] & <- & _). simpl. eauto.
Qed.

Lemma add_gene_locus_type_within data (w : world Pg.cursor) :
  changed_within Pg.GeneHasLocusType None (db_of w)
    (db_of (snd (add_gene_locus_type Pg.cursor data w))).
Proof.
  rewrite add_gene_locus_type_final_db. unfold after_locus_type_write.
  apply exec_many_within. unfold locus_type_inserts. intros q Hq.
  apply in_map_iff in Hq as ([p l] & <- & _). simpl. eauto.
Qed.

Lemma add_gene_name_within data (w : world Pg.cursor) :
  changed_within Pg.GeneHasName (Some Pg.NameTable) (db_of w)
    (db_of (snd (add_gene_name Pg.cursor data w))).
Proof.
  rewrite add_gene_name_final_db.
  rewrite (for_each_ext _ _ _ link_name_on_store).
  apply (store_loop_within Pg.NameTable).
Qed.

Lemma add_gene_symbol_within data (w : world Pg.cursor) :
  changed_within Pg.GeneHasSymbol (Some Pg.SymbolTable) (db_of w)
    (db_of (snd (add_gene_symbol Pg.cursor data w))).
Proof.
  rewrite add_gene_symbol_final_db.
  rewrite (for_each_ext _ _ _ link_symbol_on_store).
  apply (store_loop_within Pg.SymbolTable).
Qed.

(** * A frame loaded in full *)

Lemma linked_extends j d d' k : extends d d' -> linked j d k -> linked j d' k.
Proof.
  intros (G & L & A & T & R & N) (g & x & Hg & Hx & Hp).
  exists g, x. rewrite G. split; [exact Hg|]. split.
  - destruct j; simpl in *.
    + rewrite L. exact Hx.
    + rewrite T. exact Hx.
    + exact (N Pg.NameTable _ Hx).
    + exact (N Pg.SymbolTable _ Hx).
  - exact (has_pair_incl _ _ _ _ (R j) Hp).
Qed.

Lemma linked_unchanged j d d' k :
  Pg.gene d' = Pg.gene d -> Pg.dimension_of j d' = Pg.dimension_of j d ->
  Pg.rows_of j d' = Pg.rows_of j d -> linked j d' k -> linked j d k.
Proof.
  intros G D R (g & x & Hg & Hx & Hp). exists g, x.
  rewrite <- G, <- D, <- R. auto.
Qed.

(** [add_gene_location] on a batch the database can take in full. *)
Lemma location_stage (w : world Pg.cursor) data :
  unique_keys (Pg.gene (db_of w)) -> unique_ids (Pg.gene (db_of w)) ->
  unique_keys (Pg.location (db_of w)) ->
  unique_ids (Pg.location (db_of w)) ->
  NoDup (Pg.assembly_has_location (db_of w)) ->
  NoDup data ->
  (forall k, In k data ->
     exists g x,
       In (g, fst k) (Pg.gene (db_of w)) /\
       In (x, snd k) (Pg.location (db_of w)) /\
       In (1, x) (Pg.assembly_has_location (db_of w))) ->
  (forall k, In k data -> ~ linked Pg.GeneHasLocation (db_of w) k) ->
  exists w1,
    add_gene_location Pg.cursor data w = (Return tt, w1) /\
    warnings w1 = warnings w /\
    forall k, In k data -> linked Pg.GeneHasLocation (db_of w1) k.
Proof.
  intros Ug Ig Ul Il Na Nd Hres Hun.
  destruct (location_batch_succeeds w data Ug Ig Ul Il Na Nd Hres Hun)
    as (st & E & C).
  exists (after_batch w (location_inserts data) st).
  split; [|split; [reflexivity|]].
  - run. rewrite E. simpl. rewrite C, Z.eqb_refl. reflexivity.
  - intros k Hk. destruct (Hres k Hk) as (g & x & Hg & Hx & Ha).
    exact (location_batch_links data (cstate w) st k g x E Hk Hg Hx Ha).
Qed.

Lemma locus_type_stage (w : world Pg.cursor) data :
  unique_keys (Pg.gene (db_of w)) -> unique_ids (Pg.gene (db_of w)) ->
  unique_keys (Pg.locus_type (db_of w)) ->
  unique_ids (Pg.locus_type (db_of w)) ->
  NoDup data ->
  (forall k, In k data ->
     exists g x,
       In (g, fst k) (Pg.gene (db_of w)) /\
       In (x, snd k) (Pg.locus_type (db_of w))) ->
  (forall k, In k data -> ~ linked Pg.GeneHasLocusType (db_of w) k) ->
  exists w1,
    add_gene_locus_type Pg.cursor data w = (Return tt, w1) /\
    warnings w1 = warnings w /\
    forall k, In k data -> linked Pg.GeneHasLocusType (db_of w1) k.
Proof.
  intros Ug Ig Ul Il Nd Hres Hun.
  destruct (locus_type_batch_succeeds w data Ug Ig Ul Il Nd Hres Hun)
    as (st & E & C).
  exists (after_batch w (locus_type_inserts data) st).
  split; [|split; [reflexivity|]].
  - run. rewrite E. simpl. rewrite C, Z.eqb_refl. reflexivity.
  - intros k Hk. destruct (Hres k Hk) as (g & x & Hg & Hx).
    exact (locus_type_batch_links data (cstate w) st k g x E Hk Hg Hx).
Qed.

(** A completed loop has linked every triple whose gene is known. *)
Lemma store_loop_links tbl ins lnk data cnt w w1 t :
  for_each Pg.cursor (store_link tbl ins lnk) data 0 w = (Return cnt, w1) ->
  In t data ->
  (exists g, In (g, potri_of t) (Pg.gene (db_of w))) ->
  linked (Pg.junction_of tbl) (db_of w1) (key_of t).
Proof.
  intros H Hin [g Hg].
  pose proof (store_loop_extends _ _ _ _ _ _ _ _ H) as (G & _).
  apply (store_loop_closed_form tbl) in H as (N & _ & R & _).
  destruct (numbered_links (db_of w) t data (Pg.id_seq tbl (db_of w)) Hin)
    as (id & Hn & Hl).
  exists g, id. simpl. rewrite G. split; [exact Hg|]. split.
  - replace (Pg.dimension_of (Pg.junction_of tbl) (db_of w1))
      with (Pg.literals tbl (db_of w1)) by (destruct tbl; reflexivity).
    rewrite N. apply in_or_app. right. exact Hn.
  - apply (has_pair_in (typed_link g id (type_of t))).
    rewrite R. apply in_or_app. right. exact (Hl g Hg).
Qed.

Lemma name_stage (w : world Pg.cursor) data :
  unique_keys (Pg.gene (db_of w)) ->
  (forall t, In t data -> exists g, In (g, potri_of t) (Pg.gene (db_of w))) ->
  (forall t, In t data ->
     Pg.has_literal (literal_of t) (Pg.name (db_of w)) = false) ->
  NoDup (map literal_of data) ->
  (forall r, In r (Pg.gene_has_name (db_of w)) ->
     Pg.dim_id r < Pg.name_id_seq (db_of w)) ->
  exists w1,
    add_gene_name Pg.cursor data w = (Return tt, w1) /\
    warnings w1 = warnings w /\
    forall t, In t data -> linked Pg.GeneHasName (db_of w1) (key_of t).
Proof.
  intros U K L N F.
  destruct (store_loop_succeeds Pg.NameTable InsertName InsertGeneHasName
              data 0 w U K L N F) as [w1 E].
  pose proof E as E'.
  rewrite <- (for_each_ext _ _ _ link_name_on_store) in E'. simpl in E'.
  exists w1. split; [|split].
  - unfold add_gene_name, bind. rewrite E', Z.eqb_refl. reflexivity.
  - exact (proj1 (write_only_for_each Pg.cursor _ data
                    (write_only_link_name Pg.cursor) _ _ _ _ E')).
  - intros t Ht.
    exact (store_loop_links Pg.NameTable _ _ data _ w w1 t E Ht (K t Ht)).
Qed.

Lemma symbol_stage (w : world Pg.cursor) data :
  unique_keys (Pg.gene (db_of w)) ->
  (forall t, In t data -> exists g, In (g, potri_of t) (Pg.gene (db_of w))) ->
  (forall t, In t data ->
     Pg.has_literal (literal_of t) (Pg.symbol (db_of w)) = false) ->
  NoDup (map literal_of data) ->
  (forall r, In r (Pg.gene_has_symbol (db_of w)) ->
     Pg.dim_id r < Pg.symbol_id_seq (db_of w)) ->
  exists w1,
    add_gene_symbol Pg.cursor data w = (Return tt, w1) /\
    warnings w1 = warnings w /\
    forall t, In t data -> linked Pg.GeneHasSymbol (db_of w1) (key_of t).
Proof.
  intros U K L N F.
  destruct (store_loop_succeeds Pg.SymbolTable InsertSymbol
              InsertGeneHasSymbol data 0 w U K L N F) as [w1 E].
  pose proof E as E'.
  rewrite <- (for_each_ext _ _ _ link_symbol_on_store) in E'. simpl in E'.
  exists w1. split; [|split].
  - unfold add_gene_symbol, bind. rewrite E', Z.eqb_refl. reflexivity.
  - exact (proj1 (write_only_for_each Pg.cursor _ data
                    (write_only_link_symbol Pg.cursor) _ _ _ _ E')).
  - intros t Ht.
    exact (store_loop_links Pg.SymbolTable _ _ data _ w w1 t E Ht (K t Ht)).
Qed.

Lemma literals_of_names df : map literal_of (names_of df) = map Gene_name df.
Proof. unfold names_of. rewrite map_map. reflexivity. Qed.

Lemma literals_of_symbols df :
  map literal_of (symbols_of df) = map Gene_symbol df.
Proof. unfold symbols_of. rewrite map_map. reflexivity. Qed.

(** X17: a frame the database can take in full is loaded in full:
    [process_df] returns, no inserter warns, and every row of the frame
    has its gene linked to its location, its locus type, its name and
    its symbol. *)
Theorem loadable_frame_is_loaded (w : world Pg.cursor) (df : dataframe) :
  loadable (db_of w) df ->
  exists w',
    process_df Pg.cursor df w = (Return tt, w') /\
    warnings w' = warnings w /\
    forall row, In row df ->
      linked Pg.GeneHasLocation (db_of w') (index row, Location row) /\
      linked Pg.GeneHasLocusType (db_of w') (index row, Locus_type row) /\
      linked Pg.GeneHasName (db_of w') (index row, Gene_name row) /\
      linked Pg.GeneHasSymbol (db_of w') (index row, Gene_symbol row).
Proof.
  intros [Ug Ig Ul Il Na Ut It Nl Nt Nn Ns Hres Hun Hnew Fn Fs].
  (* add_gene_location *)
  destruct (location_stage w (locations_of df) Ug Ig Ul Il Na Nl)
    as (w1 & E1 & W1 & K1).
  { intros k Hk. apply in_map_iff in Hk as (row & <- & Hrow).
    destruct (Hres row Hrow) as (g & x & y & Hg & Hx & Ha & _).
    exists g, x. auto. }
  { intros k Hk. apply in_map_iff in Hk as (row & <- & Hrow).
    exact (proj1 (Hun row Hrow)). }
  pose proof (add_gene_location_within (locations_of df) w) as C1.
  pose proof (proj1 inserters_respect_extends (locations_of df) w) as X1.
  rewrite E1 in C1, X1. simpl in C1, X1.
  destruct C1 as (G1 & _ & _ & T1 & R1 & N1).
  (* add_gene_locus_type *)
  destruct (locus_type_stage w1 (locus_types_of df)) as (w2 & E2 & W2 & K2).
  { now rewrite G1. } { now rewrite G1. } { now rewrite T1. }
  { now rewrite T1. } { exact Nt. }
  { intros k Hk. apply in_map_iff in Hk as (row & <- & Hrow).
    destruct (Hres row Hrow) as (g & x & y & Hg & _ & _ & Hy).
    exists g, y. rewrite G1, T1. auto. }
  { intros k Hk Hl. apply in_map_iff in Hk as (row & <- & Hrow).
    apply (proj2 (Hun row Hrow)).
    apply (linked_unchanged Pg.GeneHasLocusType (db_of w) (db_of w1));
      [exact G1 | exact T1 | apply R1; discriminate | exact Hl]. }
  pose proof (add_gene_locus_type_within (locus_types_of df) w1) as C2.
  pose proof (proj1 (proj2 inserters_respect_extends) (locus_types_of df) w1)
    as X2.
  rewrite E2 in C2, X2. simpl in C2, X2.
  destruct C2 as (G2 & _ & _ & _ & R2 & N2).
  (* add_gene_name *)
  assert (Gw2 : Pg.gene (db_of w2) = Pg.gene (db_of w)) by congruence.
  destruct (name_stage w2 (names_of df)) as (w3 & E3 & W3 & K3).
  { now rewrite Gw2. }
  { intros t Ht. apply in_map_iff in Ht as (row & <- & Hrow).
    destruct (Hres row Hrow) as (g & _ & _ & Hg & _).
    exists g. rewrite Gw2. exact Hg. }
  { intros t Ht. apply in_map_iff in Ht as (row & <- & Hrow).
    destruct (N2 Pg.NameTable ltac:(discriminate)) as [M2 _].
    destruct (N1 Pg.NameTable ltac:(discriminate)) as [M1 _].
    simpl in M1, M2. rewrite M2, M1. exact (proj1 (Hnew row Hrow)). }
  { rewrite literals_of_names. exact Nn. }
  { intros r Hr.
    destruct (N2 Pg.NameTable ltac:(discriminate)) as [_ S2].
    destruct (N1 Pg.NameTable ltac:(discriminate)) as [_ S1].
    pose proof (R2 Pg.GeneHasName ltac:(discriminate)) as Q2.
    pose proof (R1 Pg.GeneHasName ltac:(discriminate)) as Q1.
    simpl in S1, S2, Q1, Q2. rewrite S2, S1. apply Fn.
    rewrite <- Q1, <- Q2. exact Hr. }
  pose proof (add_gene_name_within (names_of df) w2) as C3.
  pose proof (proj1 (proj2 (proj2 inserters_respect_extends)) (names_of df) w2)
    as X3.
  rewrite E3 in C3, X3. simpl in C3, X3.
  destruct C3 as (G3 & _ & _ & _ & R3 & N3).
  (* add_gene_symbol *)
  assert (Gw3 : Pg.gene (db_of w3) = Pg.gene (db_of w)) by congruence.
  destruct (symbol_stage w3 (symbols_of df)) as (w4 & E4 & W4 & K4).
  { now rewrite Gw3. }
  { intros t Ht. apply in_map_iff in Ht as (row & <- & Hrow).
    destruct (Hres row Hrow) as (g & _ & _ & Hg & _).
    exists g. rewrite Gw3. exact Hg. }
  { intros t Ht. apply in_map_iff in Ht as (row & <- & Hrow).
    destruct (N3 Pg.SymbolTable ltac:(discriminate)) as [M3 _].
    destruct (N2 Pg.SymbolTable ltac:(discriminate)) as [M2 _].
    destruct (N1 Pg.SymbolTable ltac:(discriminate)) as [M1 _].
    simpl in M1, M2, M3. rewrite M3, M2, M1. exact (proj2 (Hnew row Hrow)). }
  { rewrite literals_of_symbols. exact Ns. }
  { intros r Hr.
    destruct (N3 Pg.SymbolTable ltac:(discriminate)) as [_ S3].
    destruct (N2 Pg.SymbolTable ltac:(discriminate)) as [_ S2].
    destruct (N1 Pg.SymbolTable ltac:(discriminate)) as [_ S1].
    pose proof (R3 Pg.GeneHasSymbol ltac:(discriminate)) as Q3.
    pose proof (R2 Pg.GeneHasSymbol ltac:(discriminate)) as Q2.
    pose proof (R1 Pg.GeneHasSymbol ltac:(discriminate)) as Q1.
    simpl in S1, S2, S3, Q1, Q2, Q3. rewrite S3, S2, S1. apply Fs.
    rewrite <- Q1, <- Q2, <- Q3. exact Hr. }
  pose proof (proj2 (proj2 (proj2 inserters_respect_extends)) (symbols_of df) w3)
    as X4.
  rewrite E4 in X4. simpl in X4.
  (* the four in a row *)
  exists w4. split; [|split].
  - rewrite (process_df_steps Pg.cursor w df _ _ E1 _ _ E2 _ _ E3).
    exact E4.
  - congruence.
  - intros row Hrow. split; [|split; [|split]].
    + apply (linked_extends _ (db_of w1));
        [exact (extends_trans _ _ _ X2 (extends_trans _ _ _ X3 X4))|].
      apply K1. apply in_map_iff. exists row. auto.
    + apply (linked_extends _ (db_of w2));
        [exact (extends_trans _ _ _ X3 X4)|].
      apply K2. apply in_map_iff. exists row. auto.
    + apply (linked_extends _ (db_of w3)); [exact X4|].
      apply (K3 (index row, Gene_name row, Name_type row)).
      apply in_map_iff. exists row. auto.
    + apply (K4 (index row, Gene_symbol row, Symbol_type row)).
      apply in_map_iff. exists row. auto.
Qed.

Lemma loadable_frame_is_loaded_witness :
  exists w',
    process_df Pg.cursor example_frame (Pg.connect example_db) =
      (Return tt, w') /\
    warnings w' = [] /\
    linked Pg.GeneHasSymbol (db_of w') ("P2", "LIG1").
Proof.
  destruct (loadable_frame_is_loaded (Pg.connect example_db) example_frame)
    as (w' & E & W & L).
  - constructor;
      [ distinct_keys
      | unfold unique_ids; simpl; repeat constructor; simpl;
        intuition discriminate
      | distinct_keys
      | unfold unique_ids; simpl; repeat constructor; simpl;
        intuition discriminate
      | simpl; repeat constructor; simpl; intuition discriminate
      | distinct_keys
      | unfold unique_ids; simpl; repeat constructor; simpl;
        intuition discriminate
      | simpl; repeat constructor; simpl; intuition discriminate
      | simpl; repeat constructor; simpl; intuition discriminate
      | simpl; repeat constructor; simpl; intuition discriminate
      | simpl; repeat constructor; simpl; intuition discriminate
      | intros row [<-|[<-|[]]]; [exists 1, 7, 3|exists 2, 8, 3]; simpl;
        auto 10
      | intros row _; split; intros (g & x & _ & _ & Hp); discriminate Hp
      | intros row [<-|[<-|[]]]; split; reflexivity
      | intros r []
      | intros r [] ].
  - exists w'. split; [exact E|]. split; [exact W|].
    exact (proj2 (proj2 (proj2
             (L (FrameRow "P2" "LocB" "protein-coding" "LIG1" "approved"
                          "ligase" "approved")
                (or_intror (or_introl eq_refl)))))).
Defined.

(** * The inserters on the transaction of the connection *)

(** ** The transaction agrees with the store until a statement is
    rejected *)

Lemma sim_ret {A} (a : A) : simulates (ret Tx.cursor a) (ret Pg.cursor a).
Proof. intros c wp. unfold agree. simpl. auto 6. Qed.

Lemma sim_raise {A} (e : exn) :
  simulates (@raise Tx.cursor A e) (@raise Pg.cursor A e).
Proof. intros c wp. unfold agree. simpl. auto 6. Qed.

Lemma sim_rowcount : simulates (rowcount Tx.cursor) (rowcount Pg.cursor).
Proof. intros c wp. unfold agree. simpl. auto 6. Qed.

Lemma sim_warning msg :
  simulates (warning Tx.cursor msg) (warning Pg.cursor msg).
Proof. intros c wp. unfold agree. simpl. auto 6. Qed.

Lemma sim_fetchone : simulates (fetchone Tx.cursor) (fetchone Pg.cursor).
Proof.
  intros c wp. unfold agree, fetchone. simpl. unfold Tx.fetch_one. simpl.
  destruct (Pg.fetch_one (cstate wp)) as [r l]. simpl. auto 6.
Qed.

Lemma sim_fetchall : simulates (fetchall Tx.cursor) (fetchall Pg.cursor).
Proof. intros c wp. unfold agree. simpl. auto 6. Qed.

Lemma same_rows_discarded c seqs : same_rows c (Tx.discarded c seqs).
Proof.
  unfold same_rows. simpl. repeat (split; [reflexivity|]).
  intros j. destruct j; reflexivity.
Qed.

Lemma sim_execute q : simulates (execute Tx.cursor q) (execute Pg.cursor q).
Proof.
  intros c wp. unfold agree, execute. simpl. unfold Tx.exec. simpl.
  destruct (Pg.exec q (cstate wp)) as [[e|] l]; simpl.
  - repeat (split; [reflexivity|]). split; [eauto|].
    apply same_rows_discarded.
  - auto 6.
Qed.

Lemma tx_exec_many c qs : forall total l,
  match Pg.exec_many qs total l with
  | (None, l') =>
      Tx.exec_many qs total (Tx.State c l false) =
        (None, Tx.State c l' false)
  | (Some e, _) =>
      exists s',
        Tx.exec_many qs total (Tx.State c l false) = (Some e, s') /\
        Tx.failed s' = true /\ Tx.committed s' = c /\
        same_rows c (Tx.db s')
  end.
Proof.
  induction qs as [|q qs IH]; intros total l; simpl; [reflexivity|].
  unfold Tx.exec. simpl.
  destruct (Pg.exec q l) as [[e|] l1]; simpl.
  - eexists. split; [reflexivity|]. split; [reflexivity|].
    split; [reflexivity|]. apply same_rows_discarded.
  - apply IH.
Qed.

Lemma sim_executemany qs :
  simulates (executemany Tx.cursor qs) (executemany Pg.cursor qs).
Proof.
  intros c wp. unfold agree, executemany. simpl.
  pose proof (tx_exec_many c qs 0 (cstate wp)) as H.
  destruct (Pg.exec_many qs 0 (cstate wp)) as [[e|] l].
  - destruct H as (s' & -> & F & C & S). simpl. rewrite F.
    repeat (split; [reflexivity|]). split; [exact C|]. split; [eauto|exact S].
  - rewrite H. simpl. auto 6.
Qed.

Lemma sim_bind {A B} (mt : M Tx.cursor A) (mp : M Pg.cursor A)
    (kt : A -> M Tx.cursor B) (kp : A -> M Pg.cursor B) :
  simulates mt mp -> (forall a, simulates (kt a) (kp a)) ->
  simulates (bind Tx.cursor mt kt) (bind Pg.cursor mp kp).
Proof.
  intros Hm Hk c wp. specialize (Hm c wp). unfold bind.
  destruct (mp wp) as [rp wp'], (mt (in_transaction c wp)) as [rt wt'].
  destruct Hm as (R & E & W & C & F). simpl in *. subst rt.
  destruct rp as [a|e].
  - destruct wt' as [[c' l f] ex wa]. simpl in *. subst.
    destruct f; [destruct F as [[e He] _]; discriminate|].
    subst l. exact (Hk a c wp').
  - unfold agree. simpl.
    repeat (split; [assumption || reflexivity|]).
    destruct (Tx.failed (cstate wt')); [|exact F].
    split; [eauto|exact (proj2 F)].
Qed.

Lemma sim_try {A} (mt : M Tx.cursor A) (mp : M Pg.cursor A)
    (ht : exn -> option (M Tx.cursor A)) (hp : exn -> option (M Pg.cursor A)) :
  simulates mt mp ->
  (forall e, (ht e = None /\ hp e = None) \/
             exists e', ht e = Some (raise Tx.cursor e') /\
                        hp e = Some (raise Pg.cursor e')) ->
  simulates (try_except Tx.cursor mt ht) (try_except Pg.cursor mp hp).
Proof.
  intros Hm Hh c wp. specialize (Hm c wp). unfold try_except.
  destruct (mp wp) as [rp wp'], (mt (in_transaction c wp)) as [rt wt'].
  destruct Hm as (R & E & W & C & F). simpl in *. subst rt.
  destruct rp as [a|e].
  - unfold agree. simpl.
    repeat (split; [assumption || reflexivity|]). exact F.
  - destruct (Hh e) as [[-> ->]|(e' & -> & ->)].
    + unfold agree. simpl.
      repeat (split; [assumption || reflexivity|]). exact F.
    + unfold agree, raise. simpl.
      repeat (split; [assumption || reflexivity|]).
      destruct (Tx.failed (cstate wt')); [|exact F].
      split; [eauto|exact (proj2 F)].
Qed.

Lemma sim_except_unique {A} msg (mt : M Tx.cursor A) (mp : M Pg.cursor A) :
  simulates mt mp ->
  simulates (try_except Tx.cursor mt (except_unique Tx.cursor msg))
            (try_except Pg.cursor mp (except_unique Pg.cursor msg)).
Proof.
  intros H. apply sim_try; [exact H|]. intros e.
  destruct e as [[|x]| | | |]; simpl; eauto.
Qed.

Lemma sim_except_psycopg2 {A} msg (mt : M Tx.cursor A) (mp : M Pg.cursor A) :
  simulates mt mp ->
  simulates (try_except Tx.cursor mt (except_psycopg2 Tx.cursor msg))
            (try_except Pg.cursor mp (except_psycopg2 Pg.cursor msg)).
Proof.
  intros H. apply sim_try; [exact H|]. intros e.
  destruct e as [[|x]| | | |]; simpl; eauto.
Qed.

Lemma sim_for_each {A B} (bt : B -> A -> M Tx.cursor B)
    (bp : B -> A -> M Pg.cursor B) (xs : list A) :
  (forall acc x, simulates (bt acc x) (bp acc x)) ->
  forall acc,
    simulates (for_each Tx.cursor bt xs acc) (for_each Pg.cursor bp xs acc).
Proof.
  intros Hb; induction xs as [|x xs IH]; intros acc; simpl.
  - apply sim_ret.
  - apply sim_bind; auto.
Qed.

Lemma sim_item0 row : simulates (item0 Tx.cursor row) (item0 Pg.cursor row).
Proof.
  destruct row as [[|x t]|]; simpl; auto using sim_ret, sim_raise.
Qed.

Lemma sim_find_unsuccessful {A} table (query : A -> statement) key data :
  simulates (find_unsuccessful Tx.cursor table query key data)
            (find_unsuccessful Pg.cursor table query key data).
Proof.
  unfold find_unsuccessful.
  apply sim_bind; [apply sim_execute|intros _].
  apply sim_bind; [apply sim_fetchall|intros rows].
  apply sim_for_each. intros acc x. unfold check_item.
  apply sim_bind; [apply sim_execute|intros _].
  apply sim_bind; [apply sim_fetchone|intros res].
  destruct (not_in res rows); apply sim_ret.
Qed.

Lemma sim_link_name cnt t :
  simulates (link_name Tx.cursor cnt t) (link_name Pg.cursor cnt t).
Proof.
  unfold link_name, insert_name, insert_gene_has_name.
  apply sim_bind; [|intros id].
  - apply sim_except_unique.
    apply sim_bind; [apply sim_execute|intros _].
    apply sim_bind; [apply sim_fetchone|apply sim_item0].
  - apply sim_except_psycopg2.
    apply sim_bind; [apply sim_execute|intros _].
    apply sim_bind; [apply sim_rowcount|intros n]. apply sim_ret.
Qed.

Lemma sim_link_symbol cnt t :
  simulates (link_symbol Tx.cursor cnt t) (link_symbol Pg.cursor cnt t).
Proof.
  unfold link_symbol, insert_symbol, insert_gene_has_symbol.
  apply sim_bind; [|intros id].
  - apply sim_except_unique.
    apply sim_bind; [apply sim_execute|intros _].
    apply sim_bind; [apply sim_fetchone|apply sim_item0].
  - apply sim_except_psycopg2.
    apply sim_bind; [apply sim_execute|intros _].
    apply sim_bind; [apply sim_rowcount|intros n]. apply sim_ret.
Qed.

Lemma sim_tail (u : list (string * string)) (msg err : string) :
  simulates
    (match u with
     | _ :: _ => bind Tx.cursor (warning Tx.cursor msg)
                   (fun _ => ret Tx.cursor tt)
     | [] => raise Tx.cursor (RuntimeError err None)
     end)
    (match u with
     | _ :: _ => bind Pg.cursor (warning Pg.cursor msg)
                   (fun _ => ret Pg.cursor tt)
     | [] => raise Pg.cursor (RuntimeError err None)
     end).
Proof.
  destruct u.
  - apply sim_raise.
  - apply sim_bind; [apply sim_warning|intros _; apply sim_ret].
Qed.

Lemma sim_add_gene_location data :
  simulates (add_gene_location Tx.cursor data)
            (add_gene_location Pg.cursor data).
Proof.
  unfold add_gene_location.
  apply sim_bind; [|intros _].
  { apply sim_except_unique. apply sim_executemany. }
  apply sim_bind; [apply sim_rowcount|intros n].
  destruct (n =? _); [apply sim_ret|].
  apply sim_bind; [apply sim_find_unsuccessful|intros u].
  apply sim_tail.
Qed.

Lemma sim_add_gene_locus_type data :
  simulates (add_gene_locus_type Tx.cursor data)
            (add_gene_locus_type Pg.cursor data).
Proof.
  unfold add_gene_locus_type.
  apply sim_bind; [|intros _].
  { apply sim_except_unique. apply sim_executemany. }
  apply sim_bind; [apply sim_rowcount|intros n].
  destruct (n =? _); [apply sim_ret|].
  apply sim_bind; [apply sim_find_unsuccessful|intros u].
  apply sim_tail.
Qed.

Lemma sim_add_gene_name data :
  simulates (add_gene_name Tx.cursor data) (add_gene_name Pg.cursor data).
Proof.
  unfold add_gene_name.
  apply sim_bind; [apply sim_for_each, sim_link_name|intros cnt].
  destruct (negb _); [|apply sim_ret].
  apply sim_bind; [apply sim_find_unsuccessful|intros u].
  apply sim_tail.
Qed.

Lemma sim_add_gene_symbol data :
  simulates (add_gene_symbol Tx.cursor data)
            (add_gene_symbol Pg.cursor data).
Proof.
  unfold add_gene_symbol.
  apply sim_bind; [apply sim_for_each, sim_link_symbol|intros cnt].
  destruct (negb _); [|apply sim_ret].
  apply sim_bind; [apply sim_find_unsuccessful|intros u].
  apply sim_tail.
Qed.

Lemma sim_process_df df :
  simulates (process_df Tx.cursor df) (process_df Pg.cursor df).
Proof.
  rewrite !process_df_unfold.
  apply sim_bind; [apply sim_add_gene_location|intros _].
  apply sim_bind; [apply sim_add_gene_locus_type|intros _].
  apply sim_bind; [apply sim_add_gene_name|intros _].
  apply sim_add_gene_symbol.
Qed.

Lemma live_agrees {A} (mt : M Tx.cursor A) (mp : M Pg.cursor A)
    (w : world Tx.cursor) :
  simulates mt mp -> Tx.failed (cstate w) = false ->
  agree (Tx.committed (cstate w)) (mp (inside w)) (mt w).
Proof.
  intros H L. destruct w as [[c l f] ex wa]. simpl in L. subst f.
  exact (H c (World (cur := Pg.cursor) l ex wa)).
Qed.

Lemma tx_returned {A} (mt : M Tx.cursor A) (mp : M Pg.cursor A)
    (w w1 : world Tx.cursor) (a : A) :
  simulates mt mp -> Tx.failed (cstate w) = false ->
  mt w = (Return a, w1) ->
  Tx.failed (cstate w1) = false /\
  Tx.committed (cstate w1) = Tx.committed (cstate w) /\
  mp (inside w) = (Return a, inside w1).
Proof.
  intros H L E. pose proof (live_agrees mt mp w H L) as Ag.
  rewrite E in Ag. destruct Ag as (R & X & W & C & F). simpl in *.
  destruct (Tx.failed (cstate w1)).
  - destruct F as [[e He] _]. congruence.
  - split; [reflexivity|]. split; [exact C|].
    destruct (mp (inside w)) as [rp [sp xp wp]]. simpl in *.
    unfold inside. congruence.
Qed.

Lemma tx_link_name_duplicate cnt t (w : world Tx.cursor) :
  Tx.failed (cstate w) = false ->
  Pg.has_literal (literal_of t) (Pg.name (Tx.db (cstate w))) = true ->
  link_name Tx.cursor cnt t w =
    (Raise (ValueError (name_exists_msg (literal_of t)) UniqueViolation),
     World (cur := Tx.cursor) (Tx.abort (InsertName (literal_of t)) (cstate w))
           (executed w ++ [Execute (InsertName (literal_of t))])
           (warnings w)).
Proof.
  intros F H. unfold link_name, insert_name, bind, try_except, execute.
  simpl. unfold Tx.exec. rewrite F. simpl. unfold Pg.insert_returning.
  simpl. unfold Tx.db in H. rewrite H. reflexivity.
Qed.

Lemma tx_link_symbol_duplicate cnt t (w : world Tx.cursor) :
  Tx.failed (cstate w) = false ->
  Pg.has_literal (literal_of t) (Pg.symbol (Tx.db (cstate w))) = true ->
  link_symbol Tx.cursor cnt t w =
    (Raise (ValueError (name_exists_msg (literal_of t)) UniqueViolation),
     World (cur := Tx.cursor)
           (Tx.abort (InsertSymbol (literal_of t)) (cstate w))
           (executed w ++ [Execute (InsertSymbol (literal_of t))])
           (warnings w)).
Proof.
  intros F H. unfold link_symbol, insert_symbol, bind, try_except, execute.
  simpl. unfold Tx.exec. rewrite F. simpl. unfold Pg.insert_returning.
  simpl. unfold Tx.db in H. rewrite H. reflexivity.
Qed.

(** The triple after a completed run of the loop carries a literal the
    transaction has: the insert is rejected and the transaction fails. *)
Lemma tx_duplicate_name pre t post cnt (w w1 : world Tx.cursor) :
  Tx.failed (cstate w) = false ->
  for_each Tx.cursor (link_name Tx.cursor) pre 0 w = (Return cnt, w1) ->
  Pg.has_literal (literal_of t) (Pg.name (Tx.db (cstate w1))) = true ->
  exists st,
    add_gene_name Tx.cursor (pre ++ t :: post) w =
      (Raise (ValueError (name_exists_msg (literal_of t)) UniqueViolation),
       World (cur := Tx.cursor) st
             (executed w1 ++ [Execute (InsertName (literal_of t))])
             (warnings w1)) /\
    Tx.failed st = true /\
    same_rows (Tx.committed (cstate w)) (Tx.db st).
Proof.
  intros L Hpre Hlit.
  destruct (tx_returned _ _ w w1 cnt (sim_for_each _ _ pre sim_link_name 0)
              L Hpre) as (F1 & Cm & _).
  exists (Tx.abort (InsertName (literal_of t)) (cstate w1)).
  split; [|split; [reflexivity|]].
  - unfold add_gene_name, bind. rewrite for_each_app, Hpre. simpl.
    unfold bind. rewrite (tx_link_name_duplicate cnt t w1 F1 Hlit).
    reflexivity.
  - unfold Tx.abort, Tx.db. simpl. rewrite Cm. apply same_rows_discarded.
Qed.

Lemma tx_duplicate_symbol pre t post cnt (w w1 : world Tx.cursor) :
  Tx.failed (cstate w) = false ->
  for_each Tx.cursor (link_symbol Tx.cursor) pre 0 w = (Return cnt, w1) ->
  Pg.has_literal (literal_of t) (Pg.symbol (Tx.db (cstate w1))) = true ->
  exists st,
    add_gene_symbol Tx.cursor (pre ++ t :: post) w =
      (Raise (ValueError (name_exists_msg (literal_of t)) UniqueViolation),
       World (cur := Tx.cursor) st
             (executed w1 ++ [Execute (InsertSymbol (literal_of t))])
             (warnings w1)) /\
    Tx.failed st = true /\
    same_rows (Tx.committed (cstate w)) (Tx.db st).
Proof.
  intros L Hpre Hlit.
  destruct (tx_returned _ _ w w1 cnt (sim_for_each _ _ pre sim_link_symbol 0)
              L Hpre) as (F1 & Cm & _).
  exists (Tx.abort (InsertSymbol (literal_of t)) (cstate w1)).
  split; [|split; [reflexivity|]].
  - unfold add_gene_symbol, bind. rewrite for_each_app, Hpre. simpl.
    unfold bind. rewrite (tx_link_symbol_duplicate cnt t w1 F1 Hlit).
    reflexivity.
  - unfold Tx.abort, Tx.db. simpl. rewrite Cm. apply same_rows_discarded.
Qed.

(** A completed run of the loop on the transaction is a completed run
    on the store inside it. *)
Lemma tx_name_loop pre cnt (w w1 : world Tx.cursor) :
  Tx.failed (cstate w) = false ->
  for_each Tx.cursor (link_name Tx.cursor) pre 0 w = (Return cnt, w1) ->
  for_each Pg.cursor (store_link Pg.NameTable InsertName InsertGeneHasName)
    pre 0 (inside w) = (Return cnt, inside w1).
Proof.
  intros L Hpre.
  destruct (tx_returned _ _ w w1 cnt (sim_for_each _ _ pre sim_link_name 0)
              L Hpre) as (_ & _ & Ep).
  now rewrite (for_each_ext _ _ _ link_name_on_store) in Ep.
Qed.

Lemma tx_symbol_loop pre cnt (w w1 : world Tx.cursor) :
  Tx.failed (cstate w) = false ->
  for_each Tx.cursor (link_symbol Tx.cursor) pre 0 w = (Return cnt, w1) ->
  for_each Pg.cursor
    (store_link Pg.SymbolTable InsertSymbol InsertGeneHasSymbol)
    pre 0 (inside w) = (Return cnt, inside w1).
Proof.
  intros L Hpre.
  destruct (tx_returned _ _ w w1 cnt (sim_for_each _ _ pre sim_link_symbol 0)
              L Hpre) as (_ & _ & Ep).
  now rewrite (for_each_ext _ _ _ link_symbol_on_store) in Ep.
Qed.

(** ** Duplicate literals *)

(** C5, as the code has it on the connection it is given: when the
    transaction has not failed, the triples before [t] have been
    processed and the literal of [t] is already in the dimension table,
    the function raises the [ValueError] of the duplicate value with the
    uniqueness violation as its cause.  The insert into the dimension
    table is the last statement sent, so no association write is
    attempted for [t] and no later triple is processed.  The function
    undoes nothing itself; but the rejected insert has failed the
    transaction, and the rows left are those of the last commit: the
    literals of the triples before [t], written until then, are
    discarded with it. *)
Theorem duplicate_literal_aborts_sequence (w : world Tx.cursor) :
  Tx.failed (cstate w) = false ->
  (forall pre t post cnt w1,
      for_each Tx.cursor (link_name Tx.cursor) pre 0 w = (Return cnt, w1) ->
      Pg.has_literal (literal_of t) (Pg.name (Tx.db (cstate w))) = true ->
      warnings w1 = warnings w /\
      (forall t', In t' pre ->
         Pg.has_literal (literal_of t') (Pg.name (Tx.db (cstate w1)))
           = true) /\
      exists st,
        add_gene_name Tx.cursor (pre ++ t :: post) w =
          (Raise (ValueError (name_exists_msg (literal_of t))
                             UniqueViolation),
           World (cur := Tx.cursor) st
                 (executed w1 ++ [Execute (InsertName (literal_of t))])
                 (warnings w1)) /\
        Tx.failed st = true /\
        same_rows (Tx.committed (cstate w)) (Tx.db st)) /\
  (forall pre t post cnt w1,
      for_each Tx.cursor (link_symbol Tx.cursor) pre 0 w = (Return cnt, w1) ->
      Pg.has_literal (literal_of t) (Pg.symbol (Tx.db (cstate w))) = true ->
      warnings w1 = warnings w /\
      (forall t', In t' pre ->
         Pg.has_literal (literal_of t') (Pg.symbol (Tx.db (cstate w1)))
           = true) /\
      exists st,
        add_gene_symbol Tx.cursor (pre ++ t :: post) w =
          (Raise (ValueError (name_exists_msg (literal_of t))
                             UniqueViolation),
           World (cur := Tx.cursor) st
                 (executed w1 ++ [Execute (InsertSymbol (literal_of t))])
                 (warnings w1)) /\
        Tx.failed st = true /\
        same_rows (Tx.committed (cstate w)) (Tx.db st)).
Proof.
  intros L. split; intros pre t post cnt w1 Hpre Hlit.
  - pose proof (tx_name_loop pre cnt w w1 L Hpre) as Ep.
    pose proof (store_loop_extends _ _ _ _ _ _ _ _ Ep)
      as (_ & _ & _ & _ & _ & N).
    split; [|split].
    + exact (proj1 (write_only_for_each Tx.cursor _ pre
                      (write_only_link_name Tx.cursor) _ _ _ _ Hpre)).
    + exact (store_loop_creates _ _ _ _ _ _ _ _ Ep).
    + apply (tx_duplicate_name pre t post cnt w w1 L Hpre).
      exact (has_literal_incl _ _ _ (N Pg.NameTable) Hlit).
  - pose proof (tx_symbol_loop pre cnt w w1 L Hpre) as Ep.
    pose proof (store_loop_extends _ _ _ _ _ _ _ _ Ep)
      as (_ & _ & _ & _ & _ & N).
    split; [|split].
    + exact (proj1 (write_only_for_each Tx.cursor _ pre
                      (write_only_link_symbol Tx.cursor) _ _ _ _ Hpre)).
    + exact (store_loop_creates _ _ _ _ _ _ _ _ Ep).
    + apply (tx_duplicate_symbol pre t post cnt w w1 L Hpre).
      exact (has_literal_incl _ _ _ (N Pg.SymbolTable) Hlit).
Qed.

(** C5, as the claim has it, fails on the connection the loader opens:
    the first triple is processed, its name and its association row are
    written; the second carries a name that exists, the function raises
    the [ValueError], and the rows the first triple wrote are not in the
    tables that are left. *)
Lemma earlier_triples_are_discarded :
  let w := Tx.connect example_db in
  let first := ("P1", "kinase", "approved") in
  let second := ("P2", "cytochrome P450", "alias") in
  let processed := for_each Tx.cursor (link_name Tx.cursor) [first] 0 w in
  let r := add_gene_name Tx.cursor [first; second] w in
  fst processed = Return 1 /\
  In (2, "kinase") (Pg.name (Tx.db (cstate (snd processed)))) /\
  In (typed_link 1 2 "approved")
     (Pg.gene_has_name (Tx.db (cstate (snd processed)))) /\
  fst r =
    Raise (ValueError (name_exists_msg "cytochrome P450") UniqueViolation) /\
  Tx.failed (cstate (snd r)) = true /\
  Pg.name (Tx.db (cstate (snd r))) = [(1, "cytochrome P450")] /\
  Pg.gene_has_name (Tx.db (cstate (snd r))) = [].
Proof. repeat split; simpl; auto. Qed.

Lemma duplicate_literal_aborts_sequence_witness :
  let w := Tx.connect example_db in
  let names :=
    [("P1", "kinase", "approved"); ("P2", "cytochrome P450", "alias")] in
  let symbols := [("P1", "KIN1", "approved"); ("P2", "CYP706B3", "alias")] in
  (fst (add_gene_name Tx.cursor names w)
     = Raise (ValueError (name_exists_msg "cytochrome P450") UniqueViolation) /\
   same_rows example_db
     (Tx.db (cstate (snd (add_gene_name Tx.cursor names w))))) /\
  (fst (add_gene_symbol Tx.cursor symbols w)
     = Raise (ValueError (name_exists_msg "CYP706B3") UniqueViolation) /\
   same_rows example_db
     (Tx.db (cstate (snd (add_gene_symbol Tx.cursor symbols w))))).
Proof.
  intros w names symbols.
  destruct (duplicate_literal_aborts_sequence w eq_refl) as (H1 & H2).
  split.
  - edestruct (H1 [("P1", "kinase", "approved")]
                 ("P2", "cytochrome P450", "alias") [])
      as (_ & _ & st & E & _ & S);
      [by_computation | by_computation |].
    change ([("P1", "kinase", "approved")]
              ++ [("P2", "cytochrome P450", "alias")]) with names in E.
    rewrite E. split; [reflexivity|exact S].
  - edestruct (H2 [("P1", "KIN1", "approved")]
                 ("P2", "CYP706B3", "alias") [])
      as (_ & _ & st & E & _ & S);
      [by_computation | by_computation |].
    change ([("P1", "KIN1", "approved")] ++ [("P2", "CYP706B3", "alias")])
      with symbols in E.
    rewrite E. split; [reflexivity|exact S].
Defined.

(** X12: a sequence that carries the same literal twice is rejected at the
    second occurrence, although the table held no such literal: the
    first occurrence has created it.  The insert of the second
    occurrence is the last statement sent; it fails the transaction, and
    the rows left are those of the last commit. *)
Theorem repeated_literal_aborts_sequence (w : world Tx.cursor) :
  Tx.failed (cstate w) = false ->
  (forall pre t post cnt w1 t',
      for_each Tx.cursor (link_name Tx.cursor) pre 0 w = (Return cnt, w1) ->
      In t' pre -> literal_of t' = literal_of t ->
      exists st,
        add_gene_name Tx.cursor (pre ++ t :: post) w =
          (Raise (ValueError (name_exists_msg (literal_of t))
                             UniqueViolation),
           World (cur := Tx.cursor) st
                 (executed w1 ++ [Execute (InsertName (literal_of t))])
                 (warnings w1)) /\
        Tx.failed st = true /\
        same_rows (Tx.committed (cstate w)) (Tx.db st)) /\
  (forall pre t post cnt w1 t',
      for_each Tx.cursor (link_symbol Tx.cursor) pre 0 w = (Return cnt, w1) ->
      In t' pre -> literal_of t' = literal_of t ->
      exists st,
        add_gene_symbol Tx.cursor (pre ++ t :: post) w =
          (Raise (ValueError (name_exists_msg (literal_of t))
                             UniqueViolation),
           World (cur := Tx.cursor) st
                 (executed w1 ++ [Execute (InsertSymbol (literal_of t))])
                 (warnings w1)) /\
        Tx.failed st = true /\
        same_rows (Tx.committed (cstate w)) (Tx.db st)).
Proof.
  intros L. split; intros pre t post cnt w1 t' Hpre Hin Hlit.
  - pose proof (tx_name_loop pre cnt w w1 L Hpre) as Ep.
    pose proof (store_loop_creates _ _ _ _ _ _ _ _ Ep t' Hin) as Hc.
    rewrite Hlit in Hc.
    exact (tx_duplicate_name pre t post cnt w w1 L Hpre Hc).
  - pose proof (tx_symbol_loop pre cnt w w1 L Hpre) as Ep.
    pose proof (store_loop_creates _ _ _ _ _ _ _ _ Ep t' Hin) as Hc.
    rewrite Hlit in Hc.
    exact (tx_duplicate_symbol pre t post cnt w w1 L Hpre Hc).
Qed.

Lemma repeated_literal_aborts_sequence_witness :
  let w := Tx.connect example_db in
  fst (add_gene_name Tx.cursor
         [("P1", "kinase", "approved"); ("P2", "kinase", "alias")] w)
    = Raise (ValueError (name_exists_msg "kinase") UniqueViolation) /\
  fst (add_gene_symbol Tx.cursor
         [("P1", "KIN1", "approved"); ("P2", "KIN1", "alias")] w)
    = Raise (ValueError (name_exists_msg "KIN1") UniqueViolation).
Proof.
  intros w.
  destruct (repeated_literal_aborts_sequence w eq_refl) as (H1 & H2). split.
  - edestruct (H1 [("P1", "kinase", "approved")] ("P2", "kinase", "alias") []
                 1 (snd (for_each Tx.cursor (link_name Tx.cursor)
                           [("P1", "kinase", "approved")] 0 w))
                 ("P1", "kinase", "approved")) as (st & E & _);
      [by_computation | simpl; auto | reflexivity |].
    exact (f_equal fst E).
  - edestruct (H2 [("P1", "KIN1", "approved")] ("P2", "KIN1", "alias") []
                 1 (snd (for_each Tx.cursor (link_symbol Tx.cursor)
                           [("P1", "KIN1", "approved")] 0 w))
                 ("P1", "KIN1", "approved")) as (st & E & _);
      [by_computation | simpl; auto | reflexivity |].
    exact (f_equal fst E).
Defined.

(** ** What a call leaves in the database *)

Lemma process_df_extends df (w : world Pg.cursor) :
  extends (db_of w) (db_of (snd (process_df Pg.cursor df w))).
Proof.
  destruct inserters_respect_extends as (H1 & H2 & H3 & H4).
  rewrite process_df_unfold. unfold bind.
  pose proof (H1 (locations_of df) w) as X1.
  destruct (add_gene_location Pg.cursor (locations_of df) w)
    as [[[]|e] w1]; simpl in X1; [|exact X1].
  pose proof (H2 (locus_types_of df) w1) as X2.
  destruct (add_gene_locus_type Pg.cursor (locus_types_of df) w1)
    as [[[]|e] w2]; simpl in X2; [|exact (extends_trans _ _ _ X1 X2)].
  pose proof (H3 (names_of df) w2) as X3.
  destruct (add_gene_name Pg.cursor (names_of df) w2)
    as [[[]|e] w3]; simpl in X3;
    [|exact (extends_trans _ _ _ X1 (extends_trans _ _ _ X2 X3))].
  pose proof (H4 (symbols_of df) w3) as X4.
  exact (extends_trans _ _ _ X1
           (extends_trans _ _ _ X2 (extends_trans _ _ _ X3 X4))).
Qed.

Lemma tx_appended_or_discarded {A} (mt : M Tx.cursor A) (mp : M Pg.cursor A)
    (w : world Tx.cursor) :
  simulates mt mp -> Tx.failed (cstate w) = false ->
  (forall wp, extends (db_of wp) (db_of (snd (mp wp)))) ->
  appended_or_discarded w (mt w).
Proof.
  intros H L X. destruct (live_agrees mt mp w H L) as (R & _ & _ & _ & F).
  unfold appended_or_discarded.
  destruct (Tx.failed (cstate (snd (mt w)))).
  - right. destruct F as [[e He] S]. split; [reflexivity|].
    split; [exists e; congruence|exact S].
  - left. split; [reflexivity|]. unfold Tx.db. rewrite F.
    exact (X (inside w)).
Qed.

Lemma tx_changed_within {A} (mt : M Tx.cursor A) (mp : M Pg.cursor A)
    (w : world Tx.cursor) j t :
  simulates mt mp -> Tx.failed (cstate w) = false ->
  (forall wp, changed_within j t (db_of wp) (db_of (snd (mp wp)))) ->
  Tx.failed (cstate (snd (mt w))) = false ->
  changed_within j t (Tx.db (cstate w)) (Tx.db (cstate (snd (mt w)))).
Proof.
  intros H L X L'. destruct (live_agrees mt mp w H L) as (_ & _ & _ & _ & F).
  rewrite L' in F. unfold Tx.db. rewrite F. exact (X (inside w)).
Qed.

(** X4: on the transaction of the connection the four inserters only
    append or lose everything: after a call the transaction has not
    failed, and then no row of any table is removed or changed and the
    tables the module only reads are as before; or the transaction has
    failed, and then the call has raised and the rows are those of the
    last commit, whatever was written since. *)
Theorem inserters_append_or_discard (w : world Tx.cursor) :
  Tx.failed (cstate w) = false ->
  (forall data,
      appended_or_discarded w (add_gene_location Tx.cursor data w)) /\
  (forall data,
      appended_or_discarded w (add_gene_locus_type Tx.cursor data w)) /\
  (forall data, appended_or_discarded w (add_gene_name Tx.cursor data w)) /\
  (forall data, appended_or_discarded w (add_gene_symbol Tx.cursor data w)).
Proof.
  intros L. destruct inserters_respect_extends as (H1 & H2 & H3 & H4).
  split; [|split; [|split]]; intros data.
  - exact (tx_appended_or_discarded _ _ w (sim_add_gene_location data) L
             (H1 data)).
  - exact (tx_appended_or_discarded _ _ w (sim_add_gene_locus_type data) L
             (H2 data)).
  - exact (tx_appended_or_discarded _ _ w (sim_add_gene_name data) L
             (H3 data)).
  - exact (tx_appended_or_discarded _ _ w (sim_add_gene_symbol data) L
             (H4 data)).
Qed.

(** On [linked_db] the pair [(P1, LocA)] is linked: the batch is rejected
    and nothing of it is left. *)
Lemma inserters_append_or_discard_witness :
  let w := Tx.connect linked_db in
  same_rows linked_db
    (Tx.db (cstate (snd (add_gene_location Tx.cursor
                           [("P2", "LocB"); ("P1", "LocA")] w)))).
Proof.
  intros w.
  destruct (proj1 (inserters_append_or_discard w eq_refl)
              [("P2", "LocB"); ("P1", "LocA")]) as [[F _]|(_ & _ & S)].
  - vm_compute in F. discriminate F.
  - exact S.
Defined.

(** X5: as long as the transaction has not failed, each inserter has
    written to its own tables only: [add_gene_location] to
    [gene_has_location], [add_gene_locus_type] to [gene_has_locus_type],
    [add_gene_name] to [name], its sequence and [gene_has_name],
    [add_gene_symbol] to [symbol], its sequence and [gene_has_symbol].
    [gene], [location], [assembly_has_location] and [locus_type] are not
    written. *)
Theorem inserters_write_own_tables_only (w : world Tx.cursor) :
  Tx.failed (cstate w) = false ->
  (forall data,
      let w' := snd (add_gene_location Tx.cursor data w) in
      Tx.failed (cstate w') = false ->
      changed_within Pg.GeneHasLocation None
        (Tx.db (cstate w)) (Tx.db (cstate w'))) /\
  (forall data,
      let w' := snd (add_gene_locus_type Tx.cursor data w) in
      Tx.failed (cstate w') = false ->
      changed_within Pg.GeneHasLocusType None
        (Tx.db (cstate w)) (Tx.db (cstate w'))) /\
  (forall data,
      let w' := snd (add_gene_name Tx.cursor data w) in
      Tx.failed (cstate w') = false ->
      changed_within Pg.GeneHasName (Some Pg.NameTable)
        (Tx.db (cstate w)) (Tx.db (cstate w'))) /\
  (forall data,
      let w' := snd (add_gene_symbol Tx.cursor data w) in
      Tx.failed (cstate w') = false ->
      changed_within Pg.GeneHasSymbol (Some Pg.SymbolTable)
        (Tx.db (cstate w)) (Tx.db (cstate w'))).
Proof.
  intros L. split; [|split; [|split]]; intros data w' L'.
  - exact (tx_changed_within _ _ w _ _ (sim_add_gene_location data) L
             (add_gene_location_within data) L').
  - exact (tx_changed_within _ _ w _ _ (sim_add_gene_locus_type data) L
             (add_gene_locus_type_within data) L').
  - exact (tx_changed_within _ _ w _ _ (sim_add_gene_name data) L
             (add_gene_name_within data) L').
  - exact (tx_changed_within _ _ w _ _ (sim_add_gene_symbol data) L
             (add_gene_symbol_within data) L').
Qed.

Lemma inserters_write_own_tables_only_witness :
  let w := Tx.connect example_db in
  changed_within Pg.GeneHasName (Some Pg.NameTable) example_db
    (Tx.db (cstate (snd (add_gene_name Tx.cursor some_unknown_names w)))).
Proof.
  intros w.
  exact (proj1 (proj2 (proj2 (inserters_write_own_tables_only w eq_refl)))
           some_unknown_names eq_refl).
Defined.

(** X16: [process_df] on the transaction of the connection: when it ends
    the transaction has not failed, and then every row that was there is
    still there; or a statement has been rejected, [process_df] has
    raised, and the rows are those of the last commit: what the
    inserters that had returned wrote is discarded as well. *)
Theorem process_df_appends_or_discards (w : world Tx.cursor)
    (df : dataframe) :
  Tx.failed (cstate w) = false ->
  appended_or_discarded w (process_df Tx.cursor df w).
Proof.
  intros L.
  exact (tx_appended_or_discarded _ _ w (sim_process_df df) L
           (process_df_extends df)).
Qed.

(** On [example_db] the frame whose second symbol is taken makes
    [add_gene_symbol] raise, after the three other inserters have
    returned; their rows are not in the tables that are left. *)
Lemma process_df_appends_or_discards_witness :
  let w := Tx.connect example_db in
  let r := process_df Tx.cursor clashing_frame w in
  fst r = Raise (ValueError (name_exists_msg "CYP706B3") UniqueViolation) /\
  same_rows example_db (Tx.db (cstate (snd r))).
Proof.
  intros w r. split; [reflexivity|].
  destruct (process_df_appends_or_discards w clashing_frame eq_refl)
    as [[F _]|(_ & _ & S)].
  - vm_compute in F. discriminate F.
  - exact S.
Defined.

(** X22: as long as the transaction had not failed before the call, each
    inserter and [process_df] end on the connection as they end on the
    store the transaction sees: same result or exception, same SQL
    sent, same warnings.  Afterwards the transaction is in the state of
    that store; or it has failed, and then the function has raised and
    the rows are those of the last commit.  No function goes on with the
    cursor after a statement was rejected. *)
Theorem inserters_agree_until_rejection (w : world Tx.cursor) :
  Tx.failed (cstate w) = false ->
  let c := Tx.committed (cstate w) in
  (forall data,
      agree c (add_gene_location Pg.cursor data (inside w))
              (add_gene_location Tx.cursor data w)) /\
  (forall data,
      agree c (add_gene_locus_type Pg.cursor data (inside w))
              (add_gene_locus_type Tx.cursor data w)) /\
  (forall data,
      agree c (add_gene_name Pg.cursor data (inside w))
              (add_gene_name Tx.cursor data w)) /\
  (forall data,
      agree c (add_gene_symbol Pg.cursor data (inside w))
              (add_gene_symbol Tx.cursor data w)) /\
  (forall df,
      agree c (process_df Pg.cursor df (inside w))
              (process_df Tx.cursor df w)).
Proof.
  intros L c. split; [|split; [|split; [|split]]]; intros data.
  - exact (live_agrees _ _ w (sim_add_gene_location data) L).
  - exact (live_agrees _ _ w (sim_add_gene_locus_type data) L).
  - exact (live_agrees _ _ w (sim_add_gene_name data) L).
  - exact (live_agrees _ _ w (sim_add_gene_symbol data) L).
  - exact (live_agrees _ _ w (sim_process_df data) L).
Qed.

Lemma inserters_agree_until_rejection_witness :
  let w := Tx.connect example_db in
  fst (process_df Tx.cursor example_frame w) =
  fst (process_df Pg.cursor example_frame (Pg.connect example_db)) /\
  executed (snd (process_df Tx.cursor example_frame w)) =
  executed (snd (process_df Pg.cursor example_frame (Pg.connect example_db))).
Proof.
  intros w.
  destruct (proj2 (proj2 (proj2 (proj2
              (inserters_agree_until_rejection w eq_refl)))) example_frame)
    as (R & E & _).
  split; [exact R|exact E].
Defined.
